(** * Stealth Lock: a shallow embedding of the lock session engine

    The development follows [extension.js] of the Stealth Lock GNOME Shell
    extension: the XBM cursor renderer, the frozen-screen overlay, the
    key handler with its password buffer, the credential verification
    helper and the MPRIS pause/resume coordinator.

    JavaScript numbers are modelled by [Z] (all quantities here are small
    integers, far below 2^53, where floating-point division followed by
    [Math.floor] agrees with integer division), JavaScript strings by the
    list of their UTF-16 code units, arrays by lists, and objects by
    records.  Asynchronous continuations are separate events of the
    engine's step function. *)

From Stdlib Require Import ZArith Lia Bool.
From stdpp Require Import base list strings.

Local Open Scope Z_scope.

(** ** JavaScript strings *)

(** A JavaScript string is a sequence of UTF-16 code units; [length],
    [slice] and [repeat] all count code units. *)
Definition jsstring := list Z.

Module JS.

(** [String.fromCodePoint(cp)]: one unit in the basic plane, a surrogate
    pair above it, a [RangeError] ([None]) outside the code space. *)
Definition fromCodePoint (cp : Z) : option jsstring :=
  if (cp <? 0) || (0x10FFFF <? cp) then None
  else if cp <=? 0xFFFF then Some [cp]
  else
    let c := cp - 0x10000 in
    Some [0xD800 + Z.shiftr c 10; 0xDC00 + Z.land c 0x3FF].

(** [s.slice(0, -1)]: everything but the last code unit. *)
Definition slice_0_m1 (s : jsstring) : jsstring := removelast s.

(** [unit.repeat(n)] for a one-unit string. *)
Definition repeat1 (unit : Z) (n : nat) : jsstring := replicate n unit.

Definition isHighSurrogate (u : Z) : bool := (0xD800 <=? u) && (u <=? 0xDBFF).
Definition isLowSurrogate (u : Z) : bool := (0xDC00 <=? u) && (u <=? 0xDFFF).

(** The code points of a string, as the string iterator ([Array.from(s)],
    [for (const c of s)]) yields them: a high surrogate followed by a low
    surrogate is one code point, any other unit stands for itself. *)
Fixpoint codePoints (s : jsstring) : list Z :=
  match s with
  | [] => []
  | u :: rest =>
      match rest with
      | v :: rest' =>
          if isHighSurrogate u && isLowSurrogate v
          then (0x10000 + Z.shiftl (u - 0xD800) 10 + (v - 0xDC00)) :: codePoints rest'
          else u :: codePoints rest
      | [] => [u]
      end
  end.

End JS.

(** ** CursorRenderer *)

Module Cursor.

(** The [LOCK_CURSOR_XBM] object: two monochrome planes, LSB first. *)
Record Xbm := {
  width : Z;
  height : Z;
  hotX : Z;
  hotY : Z;
  bits : list Z;
  maskBits : list Z;
}.

Definition LOCK_CURSOR_XBM : Xbm := {|
  width := 28;
  height := 40;
  hotX := 14;
  hotY := 21;
  bits := [
    0xff; 0xff; 0xff; 0xff; 0xff; 0x01; 0xf8; 0xff; 0x7f; 0x00; 0xe0; 0xff;
    0x3f; 0x00; 0xc0; 0xff; 0x1f; 0x00; 0x80; 0xff; 0x0f; 0xfc; 0x03; 0xff;
    0x0f; 0xfe; 0x07; 0xff; 0x0f; 0xff; 0x0f; 0xff; 0x07; 0xff; 0x0f; 0xfe;
    0x87; 0xff; 0x1f; 0xfe; 0x87; 0xff; 0x1f; 0xfe; 0x87; 0xff; 0x1f; 0xfe;
    0x87; 0xff; 0x1f; 0xfe; 0x87; 0xff; 0x1f; 0xfe; 0x87; 0xff; 0x1f; 0xfe;
    0x87; 0xff; 0x1f; 0xfe; 0x87; 0xff; 0x1f; 0xfe; 0x87; 0xff; 0x1f; 0xfe;
    0x87; 0xff; 0x1f; 0xfe; 0x01; 0x00; 0x00; 0xf8; 0x01; 0x00; 0x00; 0xf8;
    0x01; 0x00; 0x00; 0xf8; 0x01; 0x00; 0x00; 0xf8; 0x01; 0xf0; 0x00; 0xf8;
    0x01; 0xf8; 0x01; 0xf8; 0x01; 0xf8; 0x01; 0xf8; 0x01; 0xf8; 0x01; 0xf8;
    0x01; 0xf8; 0x01; 0xf8; 0x01; 0xf0; 0x00; 0xf8; 0x01; 0x60; 0x00; 0xf8;
    0x01; 0x60; 0x00; 0xf8; 0x01; 0x60; 0x00; 0xf8; 0x01; 0x60; 0x00; 0xf8;
    0x01; 0x60; 0x00; 0xf8; 0x01; 0x60; 0x00; 0xf8; 0x01; 0x00; 0x00; 0xf8;
    0x01; 0x00; 0x00; 0xf8; 0x01; 0x00; 0x00; 0xf8; 0x01; 0x00; 0x00; 0xf8;
    0xff; 0xff; 0xff; 0xff ];
  maskBits := [
    0x00; 0xfe; 0x07; 0x00; 0x80; 0xff; 0x1f; 0x00; 0xc0; 0xff; 0x3f; 0x00;
    0xe0; 0xff; 0x7f; 0x00; 0xf0; 0xff; 0xff; 0x00; 0xf8; 0xff; 0xff; 0x01;
    0xf8; 0x03; 0xfc; 0x01; 0xf8; 0x01; 0xf8; 0x01; 0xfc; 0x01; 0xf8; 0x03;
    0xfc; 0x00; 0xf0; 0x03; 0xfc; 0x00; 0xf0; 0x03; 0xfc; 0x00; 0xf0; 0x03;
    0xfc; 0x00; 0xf0; 0x03; 0xfc; 0x00; 0xf0; 0x03; 0xfc; 0x00; 0xf0; 0x03;
    0xfc; 0x00; 0xf0; 0x03; 0xfc; 0x00; 0xf0; 0x03; 0xfc; 0x00; 0xf0; 0x03;
    0xff; 0xff; 0xff; 0x0f; 0xff; 0xff; 0xff; 0x0f; 0xff; 0xff; 0xff; 0x0f;
    0xff; 0xff; 0xff; 0x0f; 0xff; 0xff; 0xff; 0x0f; 0xff; 0xff; 0xff; 0x0f;
    0xff; 0xff; 0xff; 0x0f; 0xff; 0xff; 0xff; 0x0f; 0xff; 0xff; 0xff; 0x0f;
    0xff; 0xff; 0xff; 0x0f; 0xff; 0xff; 0xff; 0x0f; 0xff; 0xff; 0xff; 0x0f;
    0xff; 0xff; 0xff; 0x0f; 0xff; 0xff; 0xff; 0x0f; 0xff; 0xff; 0xff; 0x0f;
    0xff; 0xff; 0xff; 0x0f; 0xff; 0xff; 0xff; 0x0f; 0xff; 0xff; 0xff; 0x0f;
    0xff; 0xff; 0xff; 0x0f; 0xff; 0xff; 0xff; 0x0f; 0xff; 0xff; 0xff; 0x0f;
    0xff; 0xff; 0xff; 0x0f ];
|}.

(** [data[i]] where the result is used as a number: an index outside the
    array reads [undefined], which the bit operators coerce to 0. *)
Definition index (data : list Z) (i : Z) : Z :=
  if i <? 0 then 0 else default 0 (data !! Z.to_nat i).

Definition _xbmBit (data : list Z) (bytesPerRow x y : Z) : Z :=
  let i := (y * bytesPerRow) + Z.shiftr x 3 in
  let bit := Z.land x 7 in
  Z.land (Z.shiftr (index data i) bit) 1.

(** The optional [colors] argument: [colors?.fg ?? [255,255,255,255]]. *)
Record Colors := { fg : option (list Z); bg : option (list Z) }.

Definition fgOf (colors : option Colors) : list Z :=
  default [255; 255; 255; 255] (colors ≫= fg).
Definition bgOf (colors : option Colors) : list Z :=
  default [0; 0; 0; 200] (colors ≫= bg).

(** [rgba[i] = v] on a [Uint8Array]: the value wraps to a byte, and a
    write outside the array is dropped. *)
Definition store (rgba : list Z) (i : Z) (v : Z) : list Z :=
  if i <? 0 then rgba else <[Z.to_nat i := v mod 256]> rgba.

(** [Math.ceil(w / 8)]. *)
Definition srcBytesPerRow (xbm : Xbm) : Z := (width xbm + 7) / 8.

Definition srcCoord (srcSize target : Z) (d : Z) : Z :=
  Z.min (srcSize - 1) ((d * srcSize) / target).

(** The body of the inner loop, at destination pixel [(x, y)]. *)
Definition renderPixel (xbm : Xbm) (targetWidth targetHeight : nat)
    (colors : option Colors) (y x : nat) (rgba : list Z) : list Z :=
  let srcY := srcCoord (height xbm) (Z.of_nat targetHeight) (Z.of_nat y) in
  let srcX := srcCoord (width xbm) (Z.of_nat targetWidth) (Z.of_nat x) in
  let masked := _xbmBit (maskBits xbm) (srcBytesPerRow xbm) srcX srcY in
  if masked =? 0 then rgba
  else
    let sourceBit := _xbmBit (bits xbm) (srcBytesPerRow xbm) srcX srcY in
    let color := if sourceBit =? 0 then bgOf colors else fgOf colors in
    let idx := ((Z.of_nat y * Z.of_nat targetWidth) + Z.of_nat x) * 4 in
    let rgba := store rgba (idx + 0) (index color 0) in
    let rgba := store rgba (idx + 1) (index color 1) in
    let rgba := store rgba (idx + 2) (index color 2) in
    store rgba (idx + 3) (index color 3).

Definition renderRow (xbm : Xbm) (targetWidth targetHeight : nat)
    (colors : option Colors) (rgba : list Z) (y : nat) : list Z :=
  fold_left (fun acc x => renderPixel xbm targetWidth targetHeight colors y x acc)
            (seq 0 targetWidth) rgba.

Definition _renderXbmCursorRgba (xbm : Xbm) (targetWidth targetHeight : nat)
    (colors : option Colors) : list Z :=
  fold_left (renderRow xbm targetWidth targetHeight colors)
            (seq 0 targetHeight)
            (replicate (targetWidth * targetHeight * 4) 0).

End Cursor.

(** What the renderer is compared against: the mask and selector bits of
    the nearest source pixel, and the four bytes of a destination pixel. *)
Module CursorSpec.

Import Cursor.

Section Nearest.

Variables (xbm : Xbm) (tw th : nat) (colors : option Colors).

Definition srcX (x : nat) : Z := srcCoord (width xbm) (Z.of_nat tw) (Z.of_nat x).
Definition srcY (y : nat) : Z := srcCoord (height xbm) (Z.of_nat th) (Z.of_nat y).

Definition maskBit (x y : nat) : Z :=
  _xbmBit (maskBits xbm) (srcBytesPerRow xbm) (srcX x) (srcY y).

Definition selectorBit (x y : nat) : Z :=
  _xbmBit (bits xbm) (srcBytesPerRow xbm) (srcX x) (srcY y).

(** The index [_xbmBit] reads in either plane. *)
Definition srcIndex (x y : nat) : Z :=
  srcY y * srcBytesPerRow xbm + Z.shiftr (srcX x) 3.

Definition colorAt (x y : nat) : list Z :=
  if selectorBit x y =? 0 then bgOf colors else fgOf colors.

Definition expected (x y k : nat) : Z :=
  if maskBit x y =? 0 then 0
  else index (colorAt x y) (Z.of_nat k) mod 256.

(** The loop invariant: the first [n] pixels, in row-major order, hold
    their final bytes and the rest of the raster is still zero. *)
Definition painted (n : nat) (rgba : list Z) : Prop :=
  length rgba = (tw * th * 4)%nat /\
  forall x y k, (x < tw)%nat -> (y < th)%nat -> (k < 4)%nat ->
    rgba !! (4 * (y * tw + x) + k)%nat =
      Some (if decide (y * tw + x < n)%nat then expected x y k else 0).

End Nearest.

Definition pixelAt (rgba : list Z) (tw x y : nat) : list Z :=
  take 4 (drop (4 * (y * tw + x)) rgba).

(** Four bytes. *)
Definition isRgba (c : list Z) : bool :=
  (length c =? 4)%nat && forallb (fun v => (0 <=? v) && (v <=? 255)) c.

Definition alpha (c : list Z) : Z := index c 3.

Definition wellFormed (xbm : Xbm) : Prop :=
  0 < width xbm /\ 0 < height xbm /\
  Z.of_nat (length (bits xbm)) = srcBytesPerRow xbm * height xbm /\
  Z.of_nat (length (maskBits xbm)) = srcBytesPerRow xbm * height xbm.

(** *** The raster in the words of the specification

    These definitions do not use the renderer's own helpers: the
    renderer is compared against them. *)

(** The source pixel a destination coordinate maps back to.  A target of
    [target] pixels is laid over a source of [srcSize] pixels;
    destination pixel [d] takes the source pixel [s] whose stretch of the
    target holds it: [s / srcSize <= d / target < (s + 1) / srcSize]. *)
Definition nearestSource (srcSize target d s : Z) : Prop :=
  0 <= s < srcSize /\ s * target <= d * srcSize < (s + 1) * target.

(** The XBM format: a row of [w] pixels takes the least number of whole
    bytes that hold [w] bits, and pixel [sx] of a row is bit [sx mod 8]
    of the row's byte [sx / 8], least significant bit first. *)
Definition xbmRowBytes (w : Z) : Z := - (- w / 8).

Definition xbmByteIndex (w sx sy : Z) : Z := sy * xbmRowBytes w + sx / 8.

Definition xbmPixel (plane : list Z) (w sx sy : Z) : bool :=
  Z.testbit (nth (Z.to_nat (xbmByteIndex w sx sy)) plane 0) (sx mod 8).

(** A pixel of four bytes is fully transparent when its alpha byte is 0. *)
Definition fullyTransparent (px : list Z) : Prop := px !! 3%nat = Some 0.

End CursorSpec.

(** ** Platform constants *)

(** Modelled from the spec: the Clutter key symbols and modifier masks and
    the Gio subprocess flags belong to the platform libraries, which are
    not part of the repository; the spec only names the keys (Enter,
    Numpad-Enter, Backspace, Escape, the keypad digits and operators, the
    pure modifier keys).  The values are those of the X11 keysym table and
    of the GLib headers that these libraries export. *)
Module Clutter.

Definition KEY_Return : Z := 0xff0d.
Definition KEY_KP_Enter : Z := 0xff8d.
Definition KEY_BackSpace : Z := 0xff08.
Definition KEY_Escape : Z := 0xff1b.
Definition KEY_KP_0 : Z := 0xffb0.
Definition KEY_KP_9 : Z := 0xffb9.
Definition KEY_KP_Decimal : Z := 0xffae.
Definition KEY_KP_Separator : Z := 0xffac.
Definition KEY_KP_Add : Z := 0xffab.
Definition KEY_KP_Subtract : Z := 0xffad.
Definition KEY_KP_Multiply : Z := 0xffaa.
Definition KEY_KP_Divide : Z := 0xffaf.
Definition KEY_Shift_L : Z := 0xffe1.
Definition KEY_Shift_R : Z := 0xffe2.
Definition KEY_Control_L : Z := 0xffe3.
Definition KEY_Control_R : Z := 0xffe4.
Definition KEY_Caps_Lock : Z := 0xffe5.
Definition KEY_Alt_L : Z := 0xffe9.
Definition KEY_Alt_R : Z := 0xffea.
Definition KEY_Super_L : Z := 0xffeb.
Definition KEY_Super_R : Z := 0xffec.
Definition KEY_Num_Lock : Z := 0xff7f.
Definition KEY_l : Z := 0x6c.
Definition KEY_L : Z := 0x4c.
Definition KEY_r : Z := 0x72.
Definition KEY_R : Z := 0x52.

Definition SHIFT_MASK : Z := 1.
Definition CONTROL_MASK : Z := 4.
Definition MOD1_MASK : Z := 8.

(** What a key handler returns; [Threw] is an exception escaping it. *)
Inductive EventReturn := EVENT_PROPAGATE | EVENT_STOP | Threw.

End Clutter.

Module Gio.

Definition STDIN_PIPE : Z := 1.
Definition STDOUT_PIPE : Z := 4.
Definition STDOUT_SILENCE : Z := 8.
Definition STDERR_PIPE : Z := 16.
Definition STDERR_SILENCE : Z := 32.

End Gio.

(** ** LockSessionEngine, InputGate key decoding and CredentialVerifier *)

Module Engine.

Import Clutter.

Definition PASSWORD_BULLET : Z := 0x2022.
Definition DEFAULT_AUTO_RESET_SECONDS : Z := 5.
Definition AUTH_TIMEOUT_MS : Z := 10000.

(** A key-press event as the handler reads it: [get_key_symbol()],
    [get_state()], [get_key_unicode?.() ?? 0] (0 when the call is missing
    or throws) and the reading of [Date.now()] while it is handled. *)
Record KeyEvent := {
  get_key_symbol : Z;
  get_state : Z;
  get_key_unicode : Z;
  now : Z;
}.

(** The password prompt widgets of the normal lock type. *)
Record Prompt := {
  text : jsstring;
  icon_name : string;
}.

(** The [ctx] object handed to the user's prompt script on an update. *)
Record UpdateCtx := {
  ctx_buffer : jsstring;
  ctx_masked : jsstring;
  ctx_revealed : bool;
}.

(** What the engine reads from its surroundings: the settings, the
    extension directory, and the platform functions it calls. *)
Record Env := {
  debug_mode : bool;
  auto_reset_seconds : option Z;
  keysym_to_unicode : Z -> Z;
  path : string;
  build_filenamev : list string -> string;
  custom_js : option (UpdateCtx -> Prompt -> Prompt);
}.

(** The call [Gio.Subprocess.new(argv, procFlags)] together with the data
    handed to [communicate_utf8_async]. *)
Record SpawnRequest := {
  argv : list string;
  procFlags : Z;
  stdin_buf : jsstring;
}.

(** Calls that leave the engine. *)
Inductive Effect :=
| Spawn (r : SpawnRequest)
| Teardown
| ResumeAllMedia
| ScreenShieldLock.

Definition isSpawn (e : Effect) : bool :=
  match e with Spawn _ => true | _ => false end.

Record Ext := {
  _locked : bool;
  _passwordBuffer : jsstring;
  _passwordResetTimeoutId : option Z;
  _didPauseMedia : bool;
  _debugAbortSequenceCount : Z;
  _debugAbortSequenceLastTime : Z;
  _passwordPrompt : option Prompt;
  _passwordPromptRevealed : bool;
  (** verification promises that have not resolved yet *)
  pending : list SpawnRequest;
  effects : list Effect;
}.

Definition set_locked (v : bool) (s : Ext) : Ext :=
  {| _locked := v; _passwordBuffer := _passwordBuffer s;
     _passwordResetTimeoutId := _passwordResetTimeoutId s;
     _didPauseMedia := _didPauseMedia s;
     _debugAbortSequenceCount := _debugAbortSequenceCount s;
     _debugAbortSequenceLastTime := _debugAbortSequenceLastTime s;
     _passwordPrompt := _passwordPrompt s;
     _passwordPromptRevealed := _passwordPromptRevealed s;
     pending := pending s; effects := effects s |}.

Definition set_passwordBuffer (v : jsstring) (s : Ext) : Ext :=
  {| _locked := _locked s; _passwordBuffer := v;
     _passwordResetTimeoutId := _passwordResetTimeoutId s;
     _didPauseMedia := _didPauseMedia s;
     _debugAbortSequenceCount := _debugAbortSequenceCount s;
     _debugAbortSequenceLastTime := _debugAbortSequenceLastTime s;
     _passwordPrompt := _passwordPrompt s;
     _passwordPromptRevealed := _passwordPromptRevealed s;
     pending := pending s; effects := effects s |}.

Definition set_passwordResetTimeoutId (v : option Z) (s : Ext) : Ext :=
  {| _locked := _locked s; _passwordBuffer := _passwordBuffer s;
     _passwordResetTimeoutId := v;
     _didPauseMedia := _didPauseMedia s;
     _debugAbortSequenceCount := _debugAbortSequenceCount s;
     _debugAbortSequenceLastTime := _debugAbortSequenceLastTime s;
     _passwordPrompt := _passwordPrompt s;
     _passwordPromptRevealed := _passwordPromptRevealed s;
     pending := pending s; effects := effects s |}.

Definition set_debugAbortSequenceCount (v : Z) (s : Ext) : Ext :=
  {| _locked := _locked s; _passwordBuffer := _passwordBuffer s;
     _passwordResetTimeoutId := _passwordResetTimeoutId s;
     _didPauseMedia := _didPauseMedia s;
     _debugAbortSequenceCount := v;
     _debugAbortSequenceLastTime := _debugAbortSequenceLastTime s;
     _passwordPrompt := _passwordPrompt s;
     _passwordPromptRevealed := _passwordPromptRevealed s;
     pending := pending s; effects := effects s |}.

Definition set_debugAbortSequenceLastTime (v : Z) (s : Ext) : Ext :=
  {| _locked := _locked s; _passwordBuffer := _passwordBuffer s;
     _passwordResetTimeoutId := _passwordResetTimeoutId s;
     _didPauseMedia := _didPauseMedia s;
     _debugAbortSequenceCount := _debugAbortSequenceCount s;
     _debugAbortSequenceLastTime := v;
     _passwordPrompt := _passwordPrompt s;
     _passwordPromptRevealed := _passwordPromptRevealed s;
     pending := pending s; effects := effects s |}.

Definition set_passwordPrompt (v : option Prompt) (s : Ext) : Ext :=
  {| _locked := _locked s; _passwordBuffer := _passwordBuffer s;
     _passwordResetTimeoutId := _passwordResetTimeoutId s;
     _didPauseMedia := _didPauseMedia s;
     _debugAbortSequenceCount := _debugAbortSequenceCount s;
     _debugAbortSequenceLastTime := _debugAbortSequenceLastTime s;
     _passwordPrompt := v;
     _passwordPromptRevealed := _passwordPromptRevealed s;
     pending := pending s; effects := effects s |}.

Definition set_passwordPromptRevealed (v : bool) (s : Ext) : Ext :=
  {| _locked := _locked s; _passwordBuffer := _passwordBuffer s;
     _passwordResetTimeoutId := _passwordResetTimeoutId s;
     _didPauseMedia := _didPauseMedia s;
     _debugAbortSequenceCount := _debugAbortSequenceCount s;
     _debugAbortSequenceLastTime := _debugAbortSequenceLastTime s;
     _passwordPrompt := _passwordPrompt s;
     _passwordPromptRevealed := v;
     pending := pending s; effects := effects s |}.

Definition set_pending (v : list SpawnRequest) (s : Ext) : Ext :=
  {| _locked := _locked s; _passwordBuffer := _passwordBuffer s;
     _passwordResetTimeoutId := _passwordResetTimeoutId s;
     _didPauseMedia := _didPauseMedia s;
     _debugAbortSequenceCount := _debugAbortSequenceCount s;
     _debugAbortSequenceLastTime := _debugAbortSequenceLastTime s;
     _passwordPrompt := _passwordPrompt s;
     _passwordPromptRevealed := _passwordPromptRevealed s;
     pending := v; effects := effects s |}.

Definition emit (es : list Effect) (s : Ext) : Ext :=
  {| _locked := _locked s; _passwordBuffer := _passwordBuffer s;
     _passwordResetTimeoutId := _passwordResetTimeoutId s;
     _didPauseMedia := _didPauseMedia s;
     _debugAbortSequenceCount := _debugAbortSequenceCount s;
     _debugAbortSequenceLastTime := _debugAbortSequenceLastTime s;
     _passwordPrompt := _passwordPrompt s;
     _passwordPromptRevealed := _passwordPromptRevealed s;
     pending := pending s; effects := effects s ++ es |}.

(** The fields as the constructor leaves them. *)
Definition constructed : Ext :=
  {| _locked := false; _passwordBuffer := [];
     _passwordResetTimeoutId := None; _didPauseMedia := false;
     _debugAbortSequenceCount := 0; _debugAbortSequenceLastTime := 0;
     _passwordPrompt := None; _passwordPromptRevealed := false;
     pending := []; effects := [] |}.

Section WithEnv.

Variable env : Env.

(** [this._isDebugMode()]. *)
Definition _isDebugMode : bool := debug_mode env.

(** The first part of [_onKeyPress]: resolving the character of a key
    event, with the manual mapping for when the platform lookups fail or
    return a control character. *)
Definition platformKeychar (event : KeyEvent) : Z :=
  let keyval := get_key_symbol event in
  let keychar := get_key_unicode event in
  if keychar =? 0 then keysym_to_unicode env keyval else keychar.

Definition manualKeychar (keyval keychar : Z) : Z :=
  if (keychar =? 0) || ((0 <? keychar) && (keychar <? 0x20)) then
    if (0x20 <=? keyval) && (keyval <=? 0x7e) then keyval
    else if (0x00a0 <=? keyval) && (keyval <=? 0x00ff) then keyval
    else if 0x01000000 <=? keyval then keyval - 0x01000000
    else if (KEY_KP_0 <=? keyval) && (keyval <=? KEY_KP_9)
      then 0x30 + (keyval - KEY_KP_0)
    else if (keyval =? KEY_KP_Decimal) || (keyval =? KEY_KP_Separator) then 0x2e
    else if keyval =? KEY_KP_Add then 0x2b
    else if keyval =? KEY_KP_Subtract then 0x2d
    else if keyval =? KEY_KP_Multiply then 0x2a
    else if keyval =? KEY_KP_Divide then 0x2f
    else if (0 <? keychar) && (keychar <? 0x20) then 0
    else keychar
  else keychar.

Definition decodeKeychar (event : KeyEvent) : Z :=
  manualKeychar (get_key_symbol event) (platformKeychar event).

Definition _updatePasswordPrompt (s : Ext) : Ext :=
  match _passwordPrompt s with
  | None => s
  | Some p =>
      let masked := JS.repeat1 PASSWORD_BULLET (length (_passwordBuffer s)) in
      let displayText :=
        if _passwordPromptRevealed s then _passwordBuffer s else masked in
      let p := {| text := displayText; icon_name := icon_name p |} in
      let p :=
        match custom_js env with
        | None => p
        | Some f =>
            f {| ctx_buffer := _passwordBuffer s; ctx_masked := masked;
                 ctx_revealed := _passwordPromptRevealed s |} p
        end in
      set_passwordPrompt (Some p) s
  end.

Definition _clearPasswordResetTimeout (s : Ext) : Ext :=
  set_passwordResetTimeoutId None s.

Definition _resetPasswordTimeout (s : Ext) : Ext :=
  let s := _clearPasswordResetTimeout s in
  let seconds := default DEFAULT_AUTO_RESET_SECONDS (auto_reset_seconds env) in
  if seconds =? 0 then s
  else set_passwordResetTimeoutId (Some (seconds * 1000)) s.

(** The callback of the inactivity timer. *)
Definition passwordResetTimeoutFired (s : Ext) : Ext :=
  match _passwordResetTimeoutId s with
  | None => s
  | Some _ =>
      let s := set_passwordBuffer [] s in
      let s := _updatePasswordPrompt s in
      set_passwordResetTimeoutId None s
  end.

Definition _destroyPasswordPrompt (s : Ext) : Ext :=
  set_passwordPromptRevealed false (set_passwordPrompt None s).

Definition _unlock (force : bool) (s : Ext) : Ext :=
  if negb (_locked s) && negb force then s
  else
    let s := emit [Teardown] s in
    let s := _destroyPasswordPrompt s in
    let s := if _didPauseMedia s then emit [ResumeAllMedia] s else s in
    let s := set_passwordBuffer [] s in
    let s := _clearPasswordResetTimeout s in
    set_locked false s.

Definition helperPath : string :=
  build_filenamev env [path env; "polkit-auth-helper.py"%string].

(** The synchronous part of [_verifyPassword]: the process it spawns and
    what it writes to the process's input. *)
Definition _verifyPassword (password : jsstring) : SpawnRequest :=
  let debugMode := _isDebugMode in
  let argv := ["python3"%string; "-B"%string; helperPath] in
  let argv := if debugMode then argv ++ ["--debug"%string] else argv in
  let procFlags :=
    Z.lor Gio.STDIN_PIPE
      (if debugMode then Z.lor Gio.STDOUT_PIPE Gio.STDERR_PIPE
       else Z.lor Gio.STDOUT_SILENCE Gio.STDERR_SILENCE) in
  {| argv := argv; procFlags := procFlags; stdin_buf := password ++ [0x0a] |}.

(** [_attemptUnlock] up to its [await]. *)
Definition _attemptUnlock (s : Ext) : Ext :=
  if (length (_passwordBuffer s) =? 0)%nat then s
  else
    let password := _passwordBuffer s in
    let s := set_passwordBuffer [] s in
    let s := _updatePasswordPrompt s in
    let r := _verifyPassword password in
    set_pending (pending s ++ [r]) (emit [Spawn r] s).

(** [_attemptUnlock] after its [await]: the [i]-th pending verification
    has resolved with [success]. *)
Definition _attemptUnlock_resumed (i : nat) (success : bool) (s : Ext) : Ext :=
  match pending s !! i with
  | None => s
  | Some _ =>
      let s := set_pending (delete i (pending s)) s in
      if success then _unlock false s
      else _resetPasswordTimeout s
  end.

Definition _handleDebugAbortSequence (now : Z) (s : Ext) : Ext :=
  if negb _isDebugMode || negb (_locked s) then s
  else
    let s :=
      if 1200 <? now - _debugAbortSequenceLastTime s
      then set_debugAbortSequenceCount 0 s else s in
    let s := set_debugAbortSequenceLastTime now s in
    let s := set_debugAbortSequenceCount (_debugAbortSequenceCount s + 1) s in
    if 5 <=? _debugAbortSequenceCount s then _unlock true s else s.

Definition _fallbackToSystemLock (s : Ext) : Ext :=
  emit [ScreenShieldLock] (_unlock true s).

Definition masked_by (state mask : Z) : bool := negb (Z.land state mask =? 0).

Definition isModifierKey (keyval : Z) : bool :=
  (keyval =? KEY_Shift_L) || (keyval =? KEY_Shift_R) ||
  (keyval =? KEY_Control_L) || (keyval =? KEY_Control_R) ||
  (keyval =? KEY_Alt_L) || (keyval =? KEY_Alt_R) ||
  (keyval =? KEY_Super_L) || (keyval =? KEY_Super_R) ||
  (keyval =? KEY_Caps_Lock) || (keyval =? KEY_Num_Lock).

Definition _onKeyPress (event : KeyEvent) (s : Ext) : Ext * EventReturn :=
  if negb (_locked s) then (s, EVENT_PROPAGATE)
  else
    let keyval := get_key_symbol event in
    let state := get_state event in
    let keychar := decodeKeychar event in
    let s := _resetPasswordTimeout s in
    let emergencyModifiers :=
      masked_by state CONTROL_MASK && masked_by state MOD1_MASK
      && masked_by state SHIFT_MASK in
    if emergencyModifiers && ((keyval =? KEY_l) || (keyval =? KEY_L)) then
      (_fallbackToSystemLock s, EVENT_STOP)
    else if (keyval =? KEY_Return) || (keyval =? KEY_KP_Enter) then
      (_updatePasswordPrompt (_attemptUnlock s), EVENT_STOP)
    else
      let isCtrl := masked_by state CONTROL_MASK in
      if isCtrl && ((keyval =? KEY_r) || (keyval =? KEY_R))
         && bool_decide (is_Some (_passwordPrompt s)) then
        let s := set_passwordPromptRevealed (negb (_passwordPromptRevealed s)) s in
        let s :=
          match _passwordPrompt s with
          | Some p =>
              set_passwordPrompt
                (Some {| text := text p;
                         icon_name :=
                           if _passwordPromptRevealed s
                           then "view-conceal-symbolic"%string
                           else "view-reveal-symbolic"%string |}) s
          | None => s
          end in
        (_updatePasswordPrompt s, EVENT_STOP)
      else if keyval =? KEY_BackSpace then
        let s :=
          if (0 <? length (_passwordBuffer s))%nat
          then set_passwordBuffer (JS.slice_0_m1 (_passwordBuffer s)) s
          else s in
        (_updatePasswordPrompt s, EVENT_STOP)
      else if keyval =? KEY_Escape then
        let s := set_passwordBuffer [] s in
        let s := _handleDebugAbortSequence (now event) s in
        (_updatePasswordPrompt s, EVENT_STOP)
      else if isModifierKey keyval then (s, EVENT_STOP)
      else if negb (keychar =? 0) then
        match JS.fromCodePoint keychar with
        | Some c =>
            let s := set_passwordBuffer (_passwordBuffer s ++ c) s in
            (_updatePasswordPrompt s, EVENT_STOP)
        | None => (s, Threw)
        end
      else (s, EVENT_STOP).

(** What the single control thread can be woken up with while a lock is
    in place. *)
Inductive Event :=
| KeyPress (event : KeyEvent)
| AuthResolved (i : nat) (success : bool)
| ResetTimerFired.

Definition step (s : Ext) (e : Event) : Ext :=
  match e with
  | KeyPress event => fst (_onKeyPress event s)
  | AuthResolved i success => _attemptUnlock_resumed i success s
  | ResetTimerFired => passwordResetTimeoutFired s
  end.

Definition run (s : Ext) (es : list Event) : Ext := fold_left step es s.

Definition keys (s : Ext) (ks : list KeyEvent) : Ext :=
  run s (map KeyPress ks).

End WithEnv.

Definition isEnter (event : KeyEvent) : bool :=
  (get_key_symbol event =? KEY_Return) || (get_key_symbol event =? KEY_KP_Enter).
Definition isEscape (event : KeyEvent) : bool :=
  get_key_symbol event =? KEY_Escape.
Definition isBackSpace (event : KeyEvent) : bool :=
  get_key_symbol event =? KEY_BackSpace.

(** The verification calls made so far. *)
Definition spawned (s : Ext) : list Effect := filter (fun e => isSpawn e = true) (effects s).

End Engine.

(** What the key handler is compared against, and sample sessions. *)
Module EngineSpec.

Import Clutter Engine.

(** The manual fallback table in the words of the specification. *)
Definition spec_manual_fallback (keyval : Z) : Z :=
  if (0x20 <=? keyval) && (keyval <=? 0x7e) then keyval
  else if (0x00a0 <=? keyval) && (keyval <=? 0x00ff) then keyval
  else if 0x01000000 <=? keyval then keyval - 0x01000000
  else if (KEY_KP_0 <=? keyval) && (keyval <=? KEY_KP_9)
    then 0x30 + (keyval - KEY_KP_0)
  else if keyval =? KEY_KP_Decimal then 0x2e
  else if keyval =? KEY_KP_Separator then 0x2e
  else if keyval =? KEY_KP_Add then 0x2b
  else if keyval =? KEY_KP_Subtract then 0x2d
  else if keyval =? KEY_KP_Multiply then 0x2a
  else if keyval =? KEY_KP_Divide then 0x2f
  else 0.

(** The platform lookup yields nothing or a control character. *)
Definition lookupFailed (env : Env) (event : KeyEvent) : Prop :=
  platformKeychar env event = 0 \/ 0 < platformKeychar env event < 0x20.

(** The key press [event] is accepted in state [s] as the character with
    code point [cp]: the handler reaches its append branch. *)
Definition accepted (env : Env) (s : Ext) (event : KeyEvent) (cp : Z) : Prop :=
  decodeKeychar env event = cp /\ cp <> 0 /\
  exists c, JS.fromCodePoint cp = Some c /\
    _onKeyPress env event s =
      (_updatePasswordPrompt env
         (set_passwordBuffer (_passwordBuffer s ++ c) (_resetPasswordTimeout env s)),
       EVENT_STOP).

(** Every key of [ks] is accepted, in turn, as a character of the basic
    multilingual plane. *)
Fixpoint acceptedBmp (env : Env) (s : Ext) (ks : list KeyEvent) : Prop :=
  match ks with
  | [] => True
  | k :: ks' =>
      (exists cp, accepted env s k cp /\ cp <= 0xFFFF)
      /\ acceptedBmp env (step env s (KeyPress k)) ks'
  end.

(** Default settings, no platform lookup, no prompt script. *)
Definition env0 : Env :=
  {| debug_mode := false; auto_reset_seconds := None;
     keysym_to_unicode := fun _ => 0;
     path := "/ext"%string;
     build_filenamev := String.concat "/"%string;
     custom_js := None |}.

(** The same with debug mode switched on. *)
Definition envDebug : Env :=
  {| debug_mode := true; auto_reset_seconds := None;
     keysym_to_unicode := fun _ => 0;
     path := "/ext"%string;
     build_filenamev := String.concat "/"%string;
     custom_js := None |}.

(** A locked session of the stealth lock type with media pausing off:
    the fields as [_lock] sets them. *)
Definition locked0 : Ext := set_locked true constructed.

(** The same with the normal lock type: the prompt exists. *)
Definition lockedNormal : Ext :=
  set_passwordPrompt
    (Some {| text := []; icon_name := "view-reveal-symbolic"%string |}) locked0.

(** A key press without modifiers for which the event carries no
    character, handled at time [t]. *)
Definition key (keyval t : Z) : KeyEvent :=
  {| get_key_symbol := keyval; get_state := 0; get_key_unicode := 0; now := t |}.

End EngineSpec.

(** ** MediaPauseCoordinator: one pause round

    A round of [_pauseAllMedia] from its first call to its last, with no
    other activation going on in between, on a bus whose answers depend
    on the name asked only.  [MediaTasks] below has the activations one
    [await] at a time. *)

Module Media.

Definition MPRIS_PREFIX : string := "org.mpris.MediaPlayer2."%string.

(** Calls on the session bus, in the order they are issued. *)
Inductive BusCall :=
| ListNames
| GetPlaybackStatus (playerName : string)
| Pause (playerName : string)
| Play (playerName : string).

(** How the bus answers: [None] and [false] stand for a call that fails
    (the promise rejects). *)
Record Bus := {
  names : option (list string);
  playbackStatus : string -> option string;
  pause_ok : string -> bool;
}.

Record State := {
  _pausedPlayers : list string;
  calls : list BusCall;
}.

Definition call (c : BusCall) (s : State) : State :=
  {| _pausedPlayers := _pausedPlayers s; calls := calls s ++ [c] |}.

Definition push (playerName : string) (s : State) : State :=
  {| _pausedPlayers := _pausedPlayers s ++ [playerName]; calls := calls s |}.

Definition _pausePlayer (bus : Bus) (s : State) (playerName : string) : State :=
  let s := call (GetPlaybackStatus playerName) s in
  match playbackStatus bus playerName with
  | None => s
  | Some status =>
      if String.eqb status "Playing"%string then
        let s := call (Pause playerName) s in
        if pause_ok bus playerName then push playerName s else s
      else s
  end.

Definition _pauseAllMedia (bus : Bus) (s : State) : State :=
  let s := {| _pausedPlayers := []; calls := calls s |} in
  let s := call ListNames s in
  match names bus with
  | None => s
  | Some names =>
      let mprisPlayers := List.filter (String.prefix MPRIS_PREFIX) names in
      fold_left (_pausePlayer bus) mprisPlayers s
  end.

(** The endpoint is observed playing. *)
Definition isPlaying (bus : Bus) (playerName : string) : bool :=
  match playbackStatus bus playerName with
  | Some status => String.eqb status "Playing"%string
  | None => false
  end.

(** The calls one round of [_pausePlayer] makes. *)
Definition pauseCalls (bus : Bus) (playerName : string) : list BusCall :=
  GetPlaybackStatus playerName ::
  (if isPlaying bus playerName then [Pause playerName] else []).

(** The endpoints that were playing and whose [Pause] call succeeded. *)
Definition pausedOk (bus : Bus) (playerName : string) : bool :=
  match playbackStatus bus playerName with
  | Some status => String.eqb status "Playing"%string && pause_ok bus playerName
  | None => false
  end.

(** A bus with one playing and one paused player, and a name that is not
    a media player. *)
Definition bus0 : Bus :=
  {| names := Some ["org.mpris.MediaPlayer2.vlc"%string;
                    "org.freedesktop.Notifications"%string;
                    "org.mpris.MediaPlayer2.mpv"%string];
     playbackStatus := fun n =>
       if String.eqb n "org.mpris.MediaPlayer2.vlc"%string
       then Some "Playing"%string else Some "Paused"%string;
     pause_ok := fun _ => true |}.

Definition idle : State := {| _pausedPlayers := []; calls := [] |}.

End Media.

(** ** MediaPauseCoordinator: the activations of the async functions

    [_lock] awaits [_pauseAllMedia], but [_unlock] calls
    [_resumeAllMedia] without awaiting it, and both functions give up
    control at every bus call.  Here each call of one of the two
    functions is an activation that is suspended at the [await] of a bus
    call and goes on when the answer arrives; between two answers the
    code runs without interruption.  [this._pausedPlayers] refers to an
    array object, and the loop of [_resumeAllMedia] keeps the array it
    started with, so arrays live in a store and are named by their
    index. *)

Module MediaTasks.

Import Media.

(** The answer to a bus call: the names or a failure; the playback
    status or a failure; for [Pause] and [Play], whether the call
    returned. *)
Inductive Answer :=
| Names (ns : option (list string))
| Status (st : option string)
| Returned (ok : bool).

(** An activation suspended at an [await]: of [_pauseAllMedia], waiting
    for the names; of [_pausePlayer] called from its loop, waiting for the
    status of [playerName] or for its [Pause] call, with the players
    still to visit; of [_resumePlayer] called from the loop of
    [_resumeAllMedia] at index [i] of the array [arr]. *)
Inductive Task :=
| AwaitNames
| AwaitStatus (playerName : string) (rest : list string)
| AwaitPause (playerName : string) (rest : list string)
| AwaitPlay (playerName : string) (arr : nat) (i : nat)
| Ended.

(** The calls sent and the answers received, in order. *)
Inductive Entry :=
| Call (c : BusCall)
| Answered (c : BusCall) (a : Answer).

Record Ext := {
  arrays : list (list string);
  _pausedPlayers : nat;
  tasks : list Task;
  log : list Entry;
}.

(** The extension after its constructor. *)
Definition constructed : Ext :=
  {| arrays := [ [] ]; _pausedPlayers := 0; tasks := []; log := [] |}.

(** The contents of [this._pausedPlayers]. *)
Definition record (s : Ext) : list string :=
  default [] (arrays s !! _pausedPlayers s).

(** [this._pausedPlayers = []]: a fresh array. *)
Definition alloc (s : Ext) : Ext :=
  {| arrays := arrays s ++ [ [] ]; _pausedPlayers := length (arrays s);
     tasks := tasks s; log := log s |}.

(** [this._pausedPlayers.push(playerName)]. *)
Definition push (playerName : string) (s : Ext) : Ext :=
  {| arrays := alter (fun a => a ++ [playerName]) (_pausedPlayers s) (arrays s);
     _pausedPlayers := _pausedPlayers s; tasks := tasks s; log := log s |}.

Definition emit (e : Entry) (s : Ext) : Ext :=
  {| arrays := arrays s; _pausedPlayers := _pausedPlayers s;
     tasks := tasks s; log := log s ++ [e] |}.

Definition spawn (t : Task) (s : Ext) : Ext :=
  {| arrays := arrays s; _pausedPlayers := _pausedPlayers s;
     tasks := tasks s ++ [t]; log := log s |}.

Definition set_task (id : nat) (t : Task) (s : Ext) : Ext :=
  {| arrays := arrays s; _pausedPlayers := _pausedPlayers s;
     tasks := <[id := t]> (tasks s); log := log s |}.

(** The loop of [_pauseAllMedia] at the head of an iteration:
    [_pausePlayer] sends its status query, or the loop is over. *)
Definition nextPlayer (id : nat) (players : list string) (s : Ext) : Ext :=
  match players with
  | [] => set_task id Ended s
  | p :: rest =>
      set_task id (AwaitStatus p rest) (emit (Call (GetPlaybackStatus p)) s)
  end.

(** The loop of [_resumeAllMedia] at the head of the iteration with
    index [i]: the iterator looks at the array it started with, as long
    as that array is now; after the loop the record is replaced by a
    fresh array. *)
Definition resumeAt (id arr i : nat) (s : Ext) : Ext :=
  match arrays s !! arr ≫= (fun a => a !! i) with
  | Some p => set_task id (AwaitPlay p arr i) (emit (Call (Play p)) s)
  | None => set_task id Ended (alloc s)
  end.

(** [_pauseAllMedia] up to its first [await]. *)
Definition _pauseAllMedia (s : Ext) : Ext :=
  spawn AwaitNames (emit (Call ListNames) (alloc s)).

(** [_resumeAllMedia] up to its first [await], or to its end when the
    record is empty. *)
Definition _resumeAllMedia (s : Ext) : Ext :=
  resumeAt (length (tasks s)) (_pausedPlayers s) 0 (spawn Ended s).

(** The activation [id] goes on with the answer [a] to the call it
    waits for.  An answer of the wrong kind, or to an activation that
    has ended, is none the bus gives. *)
Definition resumed (id : nat) (a : Answer) (s : Ext) : Ext :=
  match tasks s !! id, a with
  | Some AwaitNames, Names ns =>
      let s := emit (Answered ListNames a) s in
      match ns with
      | Some names =>
          nextPlayer id (List.filter (String.prefix MPRIS_PREFIX) names) s
      | None => set_task id Ended s
      end
  | Some (AwaitStatus p rest), Status st =>
      let s := emit (Answered (GetPlaybackStatus p) a) s in
      match st with
      | Some status =>
          if String.eqb status "Playing"%string
          then set_task id (AwaitPause p rest) (emit (Call (Pause p)) s)
          else nextPlayer id rest s
      | None => nextPlayer id rest s
      end
  | Some (AwaitPause p rest), Returned ok =>
      let s := emit (Answered (Pause p) a) s in
      let s := if ok then push p s else s in
      nextPlayer id rest s
  | Some (AwaitPlay p arr i), Returned _ =>
      resumeAt id arr (S i) (emit (Answered (Play p) a) s)
  | _, _ => s
  end.

(** What happens to the coordinator: [_lock] starts a pause round (when
    media are to be paused), [_unlock] starts a resume (when the lock
    paused media), or the bus answers an activation. *)
Inductive Event :=
| LockPauses
| UnlockResumes
| Reply (id : nat) (a : Answer).

Definition step (s : Ext) (e : Event) : Ext :=
  match e with
  | LockPauses => _pauseAllMedia s
  | UnlockResumes => _resumeAllMedia s
  | Reply id a => resumed id a s
  end.

Definition run (s : Ext) (es : list Event) : Ext := fold_left step es s.

(** The players a [Play] call was sent to, the players whose [Pause]
    call returned, and the calls, in order. *)
Definition played (l : list Entry) : list string :=
  omap (fun e => match e with Call (Play n) => Some n | _ => None end) l.

Definition paused (l : list Entry) : list string :=
  omap (fun e => match e with
                 | Answered (Pause n) (Returned true) => Some n
                 | _ => None
                 end) l.

Definition callsOf (l : list Entry) : list BusCall :=
  omap (fun e => match e with Call c => Some c | _ => None end) l.

(** The call an activation waits for an answer to. *)
Definition pending (t : Task) : option BusCall :=
  match t with
  | AwaitNames => Some ListNames
  | AwaitStatus p _ => Some (GetPlaybackStatus p)
  | AwaitPause p _ => Some (Pause p)
  | AwaitPlay p _ _ => Some (Play p)
  | Ended => None
  end.

(** The player was seen playing; its [Pause] call returned. *)
Definition observedPlaying (n : string) : Entry :=
  Answered (GetPlaybackStatus n) (Status (Some "Playing"%string)).

Definition pauseReturned (n : string) : Entry :=
  Answered (Pause n) (Returned true).

(** What must come before an entry [e], in the log [before] up to it: a
    [Pause] call directly follows the answer that the player is playing,
    a [Play] call follows a [Pause] call to the same player that
    returned, and an answer follows its call. *)
Definition caused (before : list Entry) (e : Entry) : Prop :=
  match e with
  | Call (Pause n) => exists l0, before = l0 ++ [observedPlaying n]
  | Call (Play n) => In (pauseReturned n) before
  | Call _ => True
  | Answered c _ => In (Call c) before
  end.

Definition causal (l : list Entry) : Prop :=
  forall l1 e l2, l = l1 ++ e :: l2 -> caused l1 e.

(** What every state of the coordinator satisfies. *)
Definition invariant (s : Ext) : Prop :=
  causal (log s)
  /\ (forall k a n, arrays s !! k = Some a -> In n a -> In (pauseReturned n) (log s))
  /\ (forall k t c, tasks s !! k = Some t -> pending t = Some c -> In (Call c) (log s)).

(** The log of a resume that runs alone: each player is sent [Play], and
    the answer is awaited before the next call. *)
Definition resumeEntries (players : list string) (oks : list bool) : list Entry :=
  flat_map (fun po : string * bool =>
              [Call (Play (fst po)); Answered (Play (fst po)) (Returned (snd po))])
           (zip players oks).

(** The answers a bus that answers by name gives to one pause round. *)
Definition playerAnswers (bus : Bus) (p : string) : list Answer :=
  Status (playbackStatus bus p) ::
  (if isPlaying bus p then [Returned (pause_ok bus p)] else []).

Definition roundAnswers (bus : Bus) : list Answer :=
  Names (names bus) ::
  flat_map (playerAnswers bus)
           (List.filter (String.prefix MPRIS_PREFIX) (default [] (names bus))).

(** Two players, both playing when asked. *)
Definition vlc : string := "org.mpris.MediaPlayer2.vlc"%string.
Definition mpv : string := "org.mpris.MediaPlayer2.mpv"%string.

(** A lock that pauses both players, the unlock, and the answer to the
    first [Play] call; the answer to the second one is still to come. *)
Definition firstCycle : list Event :=
  [ LockPauses;
    Reply 0 (Names (Some [vlc; mpv]));
    Reply 0 (Status (Some "Playing"%string)); Reply 0 (Returned true);
    Reply 0 (Status (Some "Playing"%string)); Reply 0 (Returned true);
    UnlockResumes;
    Reply 1 (Returned true) ].

(** A second lock right after the unlock: it pauses [vlc], then the
    answer to the [Play] call of the first unlock arrives, then it pauses
    [mpv]. *)
Definition secondLock : list Event :=
  [ LockPauses;
    Reply 2 (Names (Some [vlc; mpv]));
    Reply 2 (Status (Some "Playing"%string)); Reply 2 (Returned true);
    Reply 1 (Returned true);
    Reply 2 (Status (Some "Playing"%string)); Reply 2 (Returned true) ].

(** The second unlock and the answer to its [Play] call. *)
Definition secondUnlock : list Event :=
  [ UnlockResumes; Reply 3 (Returned true) ].

End MediaTasks.

(** ** StealthLockOverlay: the frozen-screen screenshots *)

Module Overlay.

Record Monitor := { x : Z; y : Z; width : Z; height : Z }.

Record Screenshot := {
  widget : nat;
  file : string;
  monitor : nat;
}.

(** Where a call of [screenshot_area] is to put the image: the output
    stream of a file (GNOME Shell 48) or a file name (GNOME Shell 45 to
    47). *)
Inductive Target :=
| ToStream (f : string)
| ToFile (f : string).

(** What the overlay does to the file system, the shell and its
    children, in order.  [Replace f] is a [Gio.File.replace] that
    returned: the file [f] exists from then on.  Closing the stream is
    left out. *)
Inductive Effect :=
| Replace (f : string)
| ScreenshotArea (m : Monitor) (t : Target)
| AddChild (w : nat)
| WidgetDestroy (w : nat)
| Unlink (f : string)
| SuperDestroy.

(** What [screenshot_area_finish] hands to the callback: it throws, it
    returns a value that is no array (of which the truthiness counts), or
    an array [[ok, _, filenameUsed]] (of which the truthiness of the
    first element counts, and the third when it is a string). *)
Inductive Finish :=
| FinishThrows
| FinishValue (ok : bool)
| FinishArray (ok : bool) (used : option string).

(** How a call of [screenshot_area] goes: it throws at once (the shell
    does not take the signature), the timer of [SCREENSHOT_TIMEOUT_MS]
    fires before the callback, or the callback runs first. *)
Inductive Area :=
| AreaThrows
| AreaTimesOut
| AreaFinishes (r : Finish).

(** The result object of [_screenshotAreaToFile]. *)
Record Captured := { success : bool; filenameUsed : string }.

(** The platform: the file name built from the temporary directory, the
    monitor index and the clock; whether [Gio.File.replace] throws; and
    how the shell answers the two signatures of [screenshot_area]. *)
Record Platform := {
  tmpFilename : nat -> string;
  replace_throws : string -> bool;
  area_stream : Monitor -> string -> Area;
  area_legacy : Monitor -> string -> Area;
}.

Record State := {
  _screenshots : list Screenshot;
  widgets : nat;
  effects : list Effect;
}.

(** The overlay after [_init]. *)
Definition init : State := {| _screenshots := []; widgets := 0; effects := [] |}.

Definition failed (filename : string) : Captured :=
  {| success := false; filenameUsed := filename |}.

(** The second [try] of [_screenshotAreaToFile]: the file-name
    signature. *)
Definition legacyCapture (p : Platform) (m : Monitor) (filename : string)
    : list Effect * Captured :=
  ([ScreenshotArea m (ToFile filename)],
   match area_legacy p m filename with
   | AreaThrows | AreaTimesOut => failed filename
   | AreaFinishes FinishThrows => failed filename
   | AreaFinishes (FinishValue ok) => {| success := ok; filenameUsed := filename |}
   | AreaFinishes (FinishArray ok used) =>
       {| success := ok; filenameUsed := default filename used |}
   end).

(** [_screenshotAreaToFile]: the file is created by [replace] before the
    shell is asked for the image; only an exception of the first [try]
    leads to the second. *)
Definition _screenshotAreaToFile (p : Platform) (m : Monitor) (filename : string)
    : list Effect * Captured :=
  if replace_throws p filename then legacyCapture p m filename
  else
    let es := [Replace filename; ScreenshotArea m (ToStream filename)] in
    match area_stream p m filename with
    | AreaThrows =>
        let '(es', r) := legacyCapture p m filename in (es ++ es', r)
    | AreaTimesOut => (es, failed filename)
    | AreaFinishes FinishThrows => (es, failed filename)
    | AreaFinishes (FinishValue ok) | AreaFinishes (FinishArray ok _) =>
        (es, {| success := ok; filenameUsed := filename |})
    end.

Definition _captureMonitor (p : Platform) (s : State) (index : nat)
    (m : Monitor) : State * bool :=
  let filename := tmpFilename p index in
  let '(es, r) := _screenshotAreaToFile p m filename in
  let s := {| _screenshots := _screenshots s; widgets := widgets s;
              effects := effects s ++ es |} in
  if negb (success r) then (s, false)
  else
    let bg := widgets s in
    ({| _screenshots :=
          _screenshots s ++ [{| widget := bg; file := filenameUsed r; monitor := index |}];
        widgets := S (widgets s);
        effects := effects s ++ [AddChild bg] |}, true).

Definition captureScreens (p : Platform) (monitors : list Monitor) (s : State) : State :=
  fold_left (fun s im => fst (_captureMonitor p s (fst im) (snd im)))
            (imap (fun i m => (i, m)) monitors) s.

(** One round of the loop of [destroy]; an exception of [GLib.unlink] is
    caught and dropped. *)
Definition destroyOne (ss : Screenshot) : list Effect :=
  [WidgetDestroy (widget ss); Unlink (file ss)].

Definition destroy (s : State) : State :=
  let es := fold_left (fun es ss => es ++ destroyOne ss) (_screenshots s) (effects s) in
  {| _screenshots := []; widgets := widgets s; effects := es ++ [SuperDestroy] |}.

(** The files an unlink was attempted for, and the files created. *)
Definition unlinked (es : list Effect) : list string :=
  omap (fun e => match e with Unlink f => Some f | _ => None end) es.

Definition created (es : list Effect) : list string :=
  omap (fun e => match e with Replace f => Some f | _ => None end) es.

(** The files of the captures that succeeded, in monitor order. *)
Definition capturedFiles (p : Platform) (monitors : list Monitor) : list string :=
  omap (fun im : nat * Monitor =>
          let r := snd (_screenshotAreaToFile p (snd im) (tmpFilename p (fst im))) in
          if success r then Some (filenameUsed r) else None)
       (imap (fun i m => (i, m)) monitors).

(** The files [replace] created, in monitor order. *)
Definition createdFiles (p : Platform) (monitors : list Monitor) : list string :=
  omap (fun im : nat * Monitor =>
          let f := tmpFilename p (fst im) in
          if replace_throws p f then None else Some f)
       (imap (fun i m => (i, m)) monitors).

(** GNOME Shell 48 with two monitors: the capture of the first one
    succeeds, that of the second one times out. *)
Definition platform0 : Platform :=
  {| tmpFilename := fun i =>
       if (i =? 0)%nat then "/tmp/stealth-lock-0-1.png"%string
       else "/tmp/stealth-lock-1-2.png"%string;
     replace_throws := fun _ => false;
     area_stream := fun m _ =>
       if x m =? 0 then AreaFinishes (FinishValue true) else AreaTimesOut;
     area_legacy := fun _ _ => AreaThrows |}.

Definition monitors0 : list Monitor :=
  [ {| x := 0; y := 0; width := 1920; height := 1080 |};
    {| x := 1920; y := 0; width := 1920; height := 1080 |} ].

End Overlay.

(** ** CredentialVerifier: the promise of [_verifyPassword] *)

Module Verifier.

(** How the helper ended, as [get_if_exited], [get_exit_status],
    [get_if_signaled] and [get_term_sig] report it. *)
Inductive ProcEnd :=
| Exited (status : Z)
| Signaled (term_sig : N)
| Neither.

(** [communicate_utf8_finish] returns or throws. *)
Inductive Completion :=
| Finish (e : ProcEnd)
| FinishThrows.

(** The two callbacks the verification waits for. *)
Inductive Event :=
| TimeoutFired
| CommunicateDone (c : Completion).

(** How the synchronous part went: [Gio.Subprocess.new] threw (no timer
    is installed yet), [communicate_utf8_async] threw (the timer is), or
    the helper is running. *)
Inductive Start := SpawnThrew | CommunicateThrew | Started.

(** The variables the two callbacks share, the calls of [resolve] and of
    [proc.force_exit()] so far, and [this._lastAuthExitCode]. *)
Record Request := {
  finished : bool;
  timeoutId : bool;
  resolved : list bool;
  force_exits : nat;
  _lastAuthExitCode : option Z;
}.

Definition start (o : Start) (lastAuthExitCode : option Z) : Request :=
  match o with
  | SpawnThrew =>
      {| finished := false; timeoutId := false; resolved := [false];
         force_exits := 0; _lastAuthExitCode := lastAuthExitCode |}
  | CommunicateThrew =>
      {| finished := false; timeoutId := true; resolved := [false];
         force_exits := 0; _lastAuthExitCode := lastAuthExitCode |}
  | Started =>
      {| finished := false; timeoutId := true; resolved := [];
         force_exits := 0; _lastAuthExitCode := lastAuthExitCode |}
  end.

Definition exitCodeOf (e : ProcEnd) : Z :=
  match e with
  | Exited status => status
  | Signaled term_sig => 128 + Z.of_N term_sig
  | Neither => -1
  end.

(** The timeout callback; a removed source does not fire. *)
Definition onTimeout (r : Request) : Request :=
  if negb (timeoutId r) then r
  else if finished r then
    {| finished := finished r; timeoutId := false; resolved := resolved r;
       force_exits := force_exits r; _lastAuthExitCode := _lastAuthExitCode r |}
  else
    {| finished := true; timeoutId := false; resolved := resolved r ++ [false];
       force_exits := S (force_exits r);
       _lastAuthExitCode := _lastAuthExitCode r |}.

(** The callback of [communicate_utf8_async], with its [finally]. *)
Definition onCommunicate (c : Completion) (r : Request) : Request :=
  let exitCode :=
    match c with
    | Finish e => exitCodeOf e
    | FinishThrows => -1
    end in
  if finished r then
    {| finished := true; timeoutId := false; resolved := resolved r;
       force_exits := force_exits r; _lastAuthExitCode := _lastAuthExitCode r |}
  else
    {| finished := true; timeoutId := false;
       resolved := resolved r ++
         [match c with Finish _ => exitCode =? 0 | FinishThrows => false end];
       force_exits := force_exits r;
       _lastAuthExitCode := Some exitCode |}.

Definition step (r : Request) (e : Event) : Request :=
  match e with
  | TimeoutFired => onTimeout r
  | CommunicateDone c => onCommunicate c r
  end.

Definition run (r : Request) (es : list Event) : Request := fold_left step es r.

(** What a first event decides. *)
Definition outcomeOf (e : Event) : bool :=
  match e with
  | CommunicateDone (Finish (Exited 0)) => true
  | _ => false
  end.

(** Once [finished] is set and the timer is gone, nothing changes. *)
Definition settled (r : Request) : Prop := finished r = true /\ timeoutId r = false.

End Verifier.

(** ** The overlay's geometry *)

Module Layout.

Import Overlay.

(** The accumulator of the [reduce] in [_getMonitorsRect]. *)
Record Bounds := { bx : Z; by_ : Z; maxX : Z; maxY : Z }.

Definition grow (acc : Bounds) (m : Monitor) : Bounds :=
  {| bx := Z.min (bx acc) (x m);
     by_ := Z.min (by_ acc) (y m);
     maxX := Z.max (maxX acc) (x m + width m);
     maxY := Z.max (maxY acc) (y m + height m) |}.

(** The result is an object with the fields of a monitor. *)
Definition _getMonitorsRect (monitors : list Monitor) : Monitor :=
  match monitors with
  | [] => {| x := 0; y := 0; width := 0; height := 0 |}
  | first :: _ =>
      let initial :=
        {| bx := x first; by_ := y first;
           maxX := x first + width first; maxY := y first + height first |} in
      let rect := fold_left grow monitors initial in
      {| x := bx rect; y := by_ rect;
         width := maxX rect - bx rect; height := maxY rect - by_ rect |}
  end.

(** The geometry [_captureMonitor] gives the background widget of a
    monitor, with the origin [captureScreens] has set. *)
Definition bgGeometry (monitors : list Monitor) (m : Monitor) : Monitor :=
  let rect := _getMonitorsRect monitors in
  {| x := x m - x rect; y := y m - y rect; width := width m; height := height m |}.

End Layout.

(** ** InputGate: pointer events and the placement of the prompt *)

Module InputGate.

Import Clutter.

Inductive EventType :=
| KEY_PRESS | KEY_RELEASE | MOTION | BUTTON_PRESS | BUTTON_RELEASE | OTHER.

(** Position and size of an actor, in whole pixels. *)
Record Actor := { x : Z; y : Z; width : Z; height : Z }.

(** The prompt: its actor and its natural size. *)
Record Prompt := { actor : Actor; natW : Z; natH : Z }.

Record Gate := {
  _locked : bool;
  _overlay : option Actor;
  _passwordPrompt : option Prompt;
  (** [_shouldNormalPromptFollowCursor()] *)
  followCursor : bool;
  (** [_getNormalPromptAnchor()] and [_getNormalPromptOffsets()] *)
  anchor : string;
  offsetX : Z;
  offsetY : Z;
  _passwordPromptLastStage : option (Z * Z);
}.

(** [a || b || 0] on numbers. *)
Definition orElse (a b : Z) : Z := if a =? 0 then (if b =? 0 then 0 else b) else a.

Definition promptW (p : Prompt) : Z := orElse (width (actor p)) (natW p).
Definition promptH (p : Prompt) : Z := orElse (height (actor p)) (natH p).

Definition _isPointerInPasswordPrompt (g : Gate) (stageX stageY : Z) : bool :=
  match _passwordPrompt g, _overlay g with
  | Some p, Some o =>
      let promptX := x o + x (actor p) in
      let promptY := y o + y (actor p) in
      (promptX <=? stageX) && (stageX <=? promptX + promptW p)
      && (promptY <=? stageY) && (stageY <=? promptY + promptH p)
  | _, _ => false
  end.

(** [Math.max(0, Math.min(p, Math.max(0, overlaySize - promptSize)))]. *)
Definition clamp (p overlaySize promptSize : Z) : Z :=
  Z.max 0 (Z.min p (Z.max 0 (overlaySize - promptSize))).

Definition set_position (px py : Z) (p : Prompt) : Prompt :=
  {| actor := {| x := px; y := py;
                 width := width (actor p); height := height (actor p) |};
     natW := natW p; natH := natH p |}.

Definition with_prompt (p : option Prompt) (g : Gate) : Gate :=
  {| _locked := _locked g; _overlay := _overlay g; _passwordPrompt := p;
     followCursor := followCursor g; anchor := anchor g;
     offsetX := offsetX g; offsetY := offsetY g;
     _passwordPromptLastStage := _passwordPromptLastStage g |}.

Definition with_lastStage (v : option (Z * Z)) (g : Gate) : Gate :=
  {| _locked := _locked g; _overlay := _overlay g;
     _passwordPrompt := _passwordPrompt g;
     followCursor := followCursor g; anchor := anchor g;
     offsetX := offsetX g; offsetY := offsetY g;
     _passwordPromptLastStage := v |}.

Definition _setPasswordPromptPositionFromStage (stageX stageY : Z) (g : Gate) : Gate :=
  match _passwordPrompt g, _overlay g with
  | Some p, Some o =>
      let cx := stageX - x o in
      let cy := stageY - y o in
      let pW := promptW p in
      let pH := promptH p in
      let overlayW := width o in
      let overlayH := height o in
      let '(px, py) :=
        if String.eqb (anchor g) "tr" then (cx + offsetX g, cy - pH - offsetY g)
        else if String.eqb (anchor g) "tl" then (cx - pW - offsetX g, cy - pH - offsetY g)
        else if String.eqb (anchor g) "bl" then (cx - pW - offsetX g, cy + offsetY g)
        else (cx + offsetX g, cy + offsetY g) in
      let px := clamp px overlayW pW in
      let py := clamp py overlayH pH in
      with_prompt (Some (set_position px py p)) g
  | _, _ => g
  end.

(** [Math.round(a / 2)] for an integer [a]: halves round up. *)
Definition roundHalf (a : Z) : Z := (a + 1) / 2.

(** [_setPasswordPromptPositionFixed(x, y)], with the monitor chosen by
    [_getSelectedMonitor()] and the origin of the overlay. *)
Definition _setPasswordPromptPositionFixed (fx fy : Z)
    (selected : option Overlay.Monitor) (originX originY : Z) (g : Gate) : Gate :=
  match _passwordPrompt g, _overlay g with
  | Some p, Some o =>
      let pW := promptW p in
      let pH := promptH p in
      let overlayW := width o in
      let overlayH := height o in
      let '(px, py) :=
        if (fx <? 0) || (fy <? 0) then
          match selected with
          | Some monitor =>
              let mx := Overlay.x monitor - originX in
              let my := Overlay.y monitor - originY in
              (if fx <? 0 then mx + roundHalf (Overlay.width monitor - pW) else fx,
               if fy <? 0 then my + roundHalf (Overlay.height monitor - pH) else fy)
          | None =>
              (if fx <? 0 then roundHalf (overlayW - pW) else fx,
               if fy <? 0 then roundHalf (overlayH - pH) else fy)
          end
        else (fx, fy) in
      let px := clamp px overlayW pW in
      let py := clamp py overlayH pH in
      with_prompt (Some (set_position px py p)) g
  | _, _ => g
  end.

(** [_updatePasswordPromptPosition()]: [pointer] is what
    [global.get_pointer()] returns, [None] when it throws, and [fixed] is
    [_getNormalPromptFixedPosition()]. *)
Definition _updatePasswordPromptPosition (pointer : option (Z * Z)) (fixed : Z * Z)
    (selected : option Overlay.Monitor) (originX originY : Z) (g : Gate) : Gate :=
  match _passwordPrompt g, _overlay g with
  | Some _, Some _ =>
      let placeFixed :=
        _setPasswordPromptPositionFixed (fst fixed) (snd fixed)
          selected originX originY in
      if followCursor g then
        match _passwordPromptLastStage g with
        | Some (sx, sy) => _setPasswordPromptPositionFromStage sx sy g
        | None =>
            match pointer with
            | Some (px, py) =>
                _setPasswordPromptPositionFromStage px py
                  (with_lastStage (Some (px, py)) g)
            | None => placeFixed g
            end
        end
      else placeFixed g
  | _, _ => g
  end.

(** The [captured-event] handler installed by [_grabKeyboard]: what it
    returns and what it does to the prompt.  The custom cursor actor it
    also moves is left out. *)
Definition capturedEvent (type : EventType) (ex ey : Z) (g : Gate)
    : Gate * EventReturn :=
  if negb (_locked g) then (g, EVENT_PROPAGATE)
  else
    match type with
    | KEY_PRESS | KEY_RELEASE => (g, EVENT_PROPAGATE)
    | MOTION =>
        let g :=
          if bool_decide (is_Some (_passwordPrompt g)) && followCursor g
          then _setPasswordPromptPositionFromStage ex ey
                 (with_lastStage (Some (ex, ey)) g)
          else g in
        if bool_decide (is_Some (_passwordPrompt g)) && negb (followCursor g)
           && _isPointerInPasswordPrompt g ex ey
        then (g, EVENT_PROPAGATE)
        else (g, EVENT_STOP)
    | BUTTON_PRESS | BUTTON_RELEASE =>
        if bool_decide (is_Some (_passwordPrompt g))
           && _isPointerInPasswordPrompt g ex ey
        then (g, EVENT_PROPAGATE)
        else (g, EVENT_STOP)
    | OTHER => (g, EVENT_STOP)
    end.

(** The prompt lies inside the overlay. *)
Definition promptInsideOverlay (g : Gate) : Prop :=
  match _passwordPrompt g, _overlay g with
  | Some p, Some o =>
      0 <= x (actor p) /\ x (actor p) + promptW p <= width o
      /\ 0 <= y (actor p) /\ y (actor p) + promptH p <= height o
  | _, _ => True
  end.

(** The prompt is not larger than the overlay. *)
Definition promptFits (g : Gate) : Prop :=
  match _passwordPrompt g, _overlay g with
  | Some p, Some o =>
      0 <= promptW p <= width o /\ 0 <= promptH p <= height o
  | _, _ => True
  end.

(** A locked session of the normal lock type on one 1920x1080 monitor,
    with a 300x48 prompt at (100, 200). *)
Definition gate0 : Gate :=
  {| _locked := true;
     _overlay := Some {| x := 0; y := 0; width := 1920; height := 1080 |};
     _passwordPrompt :=
       Some {| actor := {| x := 100; y := 200; width := 300; height := 48 |};
               natW := 300; natH := 48 |};
     followCursor := false; anchor := "br"%string;
     offsetX := 12; offsetY := 12;
     _passwordPromptLastStage := None |}.

End InputGate.


(** ** The abort hotkey settings *)

Module Hotkeys.

Inductive Key := lock_hotkey | debug_abort_hotkey | debug_abort_hotkey_custom.

(** The settings the two sync functions read and write. *)
Record Settings := {
  debug_abort_use_lock_hotkey : bool;
  strv_lock_hotkey : list string;
  strv_debug_abort_hotkey : list string;
  strv_debug_abort_hotkey_custom : list string;
}.

Definition get_strv (key : Key) (s : Settings) : list string :=
  match key with
  | lock_hotkey => strv_lock_hotkey s
  | debug_abort_hotkey => strv_debug_abort_hotkey s
  | debug_abort_hotkey_custom => strv_debug_abort_hotkey_custom s
  end.

Definition set_strv (key : Key) (v : list string) (s : Settings) : Settings :=
  match key with
  | lock_hotkey =>
      {| debug_abort_use_lock_hotkey := debug_abort_use_lock_hotkey s;
         strv_lock_hotkey := v;
         strv_debug_abort_hotkey := strv_debug_abort_hotkey s;
         strv_debug_abort_hotkey_custom := strv_debug_abort_hotkey_custom s |}
  | debug_abort_hotkey =>
      {| debug_abort_use_lock_hotkey := debug_abort_use_lock_hotkey s;
         strv_lock_hotkey := strv_lock_hotkey s;
         strv_debug_abort_hotkey := v;
         strv_debug_abort_hotkey_custom := strv_debug_abort_hotkey_custom s |}
  | debug_abort_hotkey_custom =>
      {| debug_abort_use_lock_hotkey := debug_abort_use_lock_hotkey s;
         strv_lock_hotkey := strv_lock_hotkey s;
         strv_debug_abort_hotkey := strv_debug_abort_hotkey s;
         strv_debug_abort_hotkey_custom := v |}
  end.

Definition set_boolean (v : bool) (s : Settings) : Settings :=
  {| debug_abort_use_lock_hotkey := v;
     strv_lock_hotkey := strv_lock_hotkey s;
     strv_debug_abort_hotkey := strv_debug_abort_hotkey s;
     strv_debug_abort_hotkey_custom := strv_debug_abort_hotkey_custom s |}.

(** A string is truthy when it is not empty. *)
Definition truthy (a : string) : bool := negb (String.eqb a ""%string).

(** [this._settings?.get_strv(key)?.[0] || fallback]. *)
Definition _getHotkeyAccel (s : Settings) (key : Key) (fallback : string) : string :=
  match get_strv key s with
  | a :: _ => if truthy a then a else fallback
  | [] => fallback
  end.

Definition LOCK_FALLBACK : string := "<Super><Control>l"%string.
Definition ABORT_FALLBACK : string := "<Control><Alt><Shift>u"%string.

Record Ext := {
  _settings : option Settings;
  _abortHotkeySyncing : bool;
}.

(** [_syncAbortHotkeySettings].  The [changed] handlers that a [set_strv]
    wakes up while [_abortHotkeySyncing] is set return at once (or only
    rebind the key), so they leave the settings alone. *)
Definition _syncAbortHotkeySettings (e : Ext) : Ext :=
  match _settings e with
  | None => e
  | Some s =>
      if _abortHotkeySyncing e then e
      else
        let useLock := debug_abort_use_lock_hotkey s in
        let lockAccel := _getHotkeyAccel s lock_hotkey LOCK_FALLBACK in
        let currentAbort := _getHotkeyAccel s debug_abort_hotkey ABORT_FALLBACK in
        let customAbort := _getHotkeyAccel s debug_abort_hotkey_custom ABORT_FALLBACK in
        let s :=
          if useLock then
            if truthy lockAccel && negb (String.eqb currentAbort lockAccel)
            then set_strv debug_abort_hotkey [lockAccel] s
            else s
          else
            if truthy lockAccel && String.eqb currentAbort lockAccel
               && truthy customAbort && negb (String.eqb customAbort lockAccel)
            then set_strv debug_abort_hotkey [customAbort] s
            else if truthy currentAbort && negb (String.eqb currentAbort customAbort)
            then set_strv debug_abort_hotkey_custom [currentAbort] s
            else s in
        {| _settings := Some s; _abortHotkeySyncing := false |}
  end.

(** [_syncAbortHotkeyCustomFromAbort]; writing the custom key wakes up
    the handler of [changed::debug-abort-hotkey-custom], which runs
    [_syncAbortHotkeySettings]. *)
Definition _syncAbortHotkeyCustomFromAbort (e : Ext) : Ext :=
  match _settings e with
  | None => e
  | Some s =>
      if _abortHotkeySyncing e then e
      else if debug_abort_use_lock_hotkey s then e
      else
        let abortAccel := _getHotkeyAccel s debug_abort_hotkey ABORT_FALLBACK in
        let customAccel := _getHotkeyAccel s debug_abort_hotkey_custom ABORT_FALLBACK in
        if truthy abortAccel && negb (String.eqb abortAccel customAccel) then
          _syncAbortHotkeySettings
            {| _settings := Some (set_strv debug_abort_hotkey_custom [abortAccel] s);
               _abortHotkeySyncing := _abortHotkeySyncing e |}
        else e
  end.

(** The handler of [changed::debug-abort-use-lock-hotkey], after the
    switch has been set to [v]. *)
Definition useLockChanged (v : bool) (e : Ext) : Ext :=
  match _settings e with
  | None => e
  | Some s =>
      _syncAbortHotkeySettings
        {| _settings := Some (set_boolean v s);
           _abortHotkeySyncing := _abortHotkeySyncing e |}
  end.

(** The accelerator in effect for a key. *)
Definition accel (e : Ext) (key : Key) : option string :=
  match _settings e with
  | None => None
  | Some s =>
      Some (_getHotkeyAccel s key
              (match key with lock_hotkey => LOCK_FALLBACK | _ => ABORT_FALLBACK end))
  end.

(** What a sync establishes. *)
Definition synced (e : Ext) : Prop :=
  match _settings e with
  | None => True
  | Some s =>
      if debug_abort_use_lock_hotkey s
      then accel e debug_abort_hotkey = accel e lock_hotkey
      else accel e debug_abort_hotkey = accel e debug_abort_hotkey_custom
  end.

Definition ext0 : Ext :=
  {| _settings :=
       Some {| debug_abort_use_lock_hotkey := false;
               strv_lock_hotkey := ["<Super><Control>l"%string];
               strv_debug_abort_hotkey := ["<Control><Alt><Shift>u"%string];
               strv_debug_abort_hotkey_custom := ["<Control><Alt>x"%string] |};
     _abortHotkeySyncing := false |}.

End Hotkeys.

(** ** The colours of the lock cursor *)

Module CursorColors.

Import Cursor.

(** [Math.max(0, Math.min(255, Math.round(n)))] for an integer [n]. *)
Definition clampByte (n : Z) : Z := Z.max 0 (Z.min 255 n).

(** [readRgba] in [_setLockCursor].  The setting is an array of unsigned
    integers; [None] stands for a lookup that throws or yields no array,
    and a [None] element for a component that is no finite number. *)
Definition readRgba (unpacked : option (list (option Z))) (fallback : list Z) : list Z :=
  match unpacked with
  | None => fallback
  | Some l =>
      if negb (length l =? 4)%nat then fallback
      else
        imap (fun i v =>
                match v with
                | None => index fallback (Z.of_nat i)
                | Some n => clampByte n
                end) l
  end.

(** The [colors] argument [_setLockCursor] builds from the settings
    [cursor-fg-rgba] and [cursor-bg-rgba]. *)
Definition lockCursorColors (fgSetting bgSetting : option (list (option Z))) : option Colors :=
  Some {| fg := Some (readRgba fgSetting [0; 0; 0; 255]);
          bg := Some (readRgba bgSetting [255; 255; 255; 255]) |}.

End CursorColors.


(** ** Invariants of a lock session *)

Module SessionSpec.

Import Clutter Engine.

(** An unlocked session holds no password text and no prompt. *)
Definition quiet (s : Ext) : Prop :=
  _locked s = false ->
  _passwordBuffer s = [] /\ _passwordPrompt s = None
  /\ _passwordPromptRevealed s = false.

(** The Escape counter of the debug abort sequence. *)
Definition counterOk (s : Ext) : Prop :=
  0 <= _debugAbortSequenceCount s
  /\ (_locked s = true -> _debugAbortSequenceCount s < 5).

(** The emergency chord: Control, Alt and Shift held, key [l] or [L]. *)
Definition isEmergencyChord (event : KeyEvent) : bool :=
  masked_by (get_state event) CONTROL_MASK && masked_by (get_state event) MOD1_MASK
  && masked_by (get_state event) SHIFT_MASK
  && ((get_key_symbol event =? KEY_l) || (get_key_symbol event =? KEY_L)).

(** Events that are neither the emergency chord nor a successful
    verification. *)
Definition harmless (e : Event) : bool :=
  match e with
  | KeyPress event => negb (isEmergencyChord event)
  | AuthResolved _ success => negb success
  | ResetTimerFired => true
  end.

(** The Enter presses among the events. *)
Definition enterPresses (es : list Event) : nat :=
  length (List.filter (fun e => match e with
                                | KeyPress event => isEnter event
                                | _ => false
                                end) es).

(** The Escape presses among the events. *)
Definition escapes (es : list Event) : list KeyEvent :=
  omap (fun e => match e with
                 | KeyPress event => if isEscape event then Some event else None
                 | _ => None
                 end) es.

(** Consecutive presses are at most 1200 ms apart. *)
Fixpoint chained (last : Z) (ks : list KeyEvent) : Prop :=
  match ks with
  | [] => True
  | k :: ks' => now k - last <= 1200 /\ chained (now k) ks'
  end.

(** Consecutive presses are more than 1200 ms apart. *)
Fixpoint spaced (last : Z) (ks : list KeyEvent) : Prop :=
  match ks with
  | [] => True
  | k :: ks' => 1200 < now k - last /\ spaced (now k) ks'
  end.

(** What a key press can do to a locked session [s]: it stays locked
    unless the key is the emergency chord or, in debug mode, Escape; it
    starts a verification only as Enter on a non-empty buffer; it keeps
    the Escape counter in range; it re-arms the inactivity timer; only
    Escape touches the Escape counter and its time stamp. *)
Definition keySummary (env : Env) (event : KeyEvent) (s s' : Ext) : Prop :=
  (_locked s' = true
   \/ (_locked s' = false /\ _passwordBuffer s' = [] /\ _passwordPrompt s' = None
       /\ _passwordPromptRevealed s' = false /\ _passwordResetTimeoutId s' = None
       /\ (isEmergencyChord event = true
           \/ (isEscape event = true /\ debug_mode env = true))))
  /\ ((pending s' = pending s /\ spawned s' = spawned s)
      \/ (isEnter event = true /\ _passwordBuffer s <> []
          /\ pending s' = pending s ++ [_verifyPassword env (_passwordBuffer s)]
          /\ spawned s' = spawned s ++ [Spawn (_verifyPassword env (_passwordBuffer s))]))
  /\ (counterOk s -> counterOk s')
  /\ (_locked s' = true ->
      _passwordResetTimeoutId s'
      = _passwordResetTimeoutId (_resetPasswordTimeout env s))
  /\ (isEscape event = false -> _locked s' = true ->
      _debugAbortSequenceCount s' = _debugAbortSequenceCount s
      /\ _debugAbortSequenceLastTime s' = _debugAbortSequenceLastTime s).

(** What the prompt is to show for the buffer, and the icon of its
    reveal button. *)
Definition displayText (s : Ext) : jsstring :=
  if _passwordPromptRevealed s then _passwordBuffer s
  else JS.repeat1 PASSWORD_BULLET (length (_passwordBuffer s)).

Definition revealIcon (s : Ext) : string :=
  if _passwordPromptRevealed s then "view-conceal-symbolic"%string
  else "view-reveal-symbolic"%string.

Definition iconOk (s : Ext) : Prop :=
  forall p, _passwordPrompt s = Some p -> icon_name p = revealIcon s.

Definition promptInSync (s : Ext) : Prop :=
  forall p, _passwordPrompt s = Some p ->
    text p = displayText s /\ icon_name p = revealIcon s.

(** The emergency chord with the key [L]. *)
Definition emergencyKey (t : Z) : KeyEvent :=
  {| get_key_symbol := KEY_L; get_state := 13; get_key_unicode := 0; now := t |}.

End SessionSpec.

(** ** The calls of a pause round *)

Module MediaSpec.

Import Media.

(** The endpoint a call is sent to; [ListNames] goes to the bus itself. *)
Definition target (c : BusCall) : option string :=
  match c with
  | ListNames => None
  | GetPlaybackStatus n | Pause n | Play n => Some n
  end.

(** The endpoints asked for their playback status, in call order. *)
Definition statusQueries (cs : list BusCall) : list string :=
  omap (fun c => match c with GetPlaybackStatus n => Some n | _ => None end) cs.

(** The names on the bus that are media players. *)
Definition mprisPlayers (bus : Bus) : list string :=
  List.filter (String.prefix MPRIS_PREFIX) (default [] (names bus)).

(** A bus on which every answer after [ListNames] fails. *)
Definition busFailing : Bus :=
  {| names := Some ["org.mpris.MediaPlayer2.vlc"%string;
                    "org.mpris.MediaPlayer2.mpv"%string];
     playbackStatus := fun _ => None;
     pause_ok := fun _ => false |}.

End MediaSpec.

(** * Properties *)

(** ** The cursor raster *)

Module CursorFacts.

Import Cursor CursorSpec.

Example render_2x2 :
  _renderXbmCursorRgba LOCK_CURSOR_XBM 2 2 None
  = [0; 0; 0; 0;  255; 255; 255; 255;  255; 255; 255; 255;  0; 0; 0; 200].
Proof. reflexivity. Qed.

Example xbmBit_mask_row0 :
  map (fun x => _xbmBit (maskBits LOCK_CURSOR_XBM) 4 x 0) [8; 9; 10; 18; 19]
  = [0; 1; 1; 1; 0].
Proof. reflexivity. Qed.

Lemma store_nat rgba (a : nat) i v :
  i = Z.of_nat a -> store rgba i v = <[a := v mod 256]> rgba.
Proof.
  intros ->. unfold store.
  destruct (Z.ltb_spec (Z.of_nat a) 0); [lia|]. by rewrite Nat2Z.id.
Qed.

Section Render.

Variables (xbm : Xbm) (tw th : nat) (colors : option Colors).

Lemma renderPixel_eq y x rgba :
  renderPixel xbm tw th colors y x rgba =
    if maskBit xbm tw th x y =? 0 then rgba
    else
      let color := colorAt xbm tw th colors x y in
      let idx := ((Z.of_nat y * Z.of_nat tw) + Z.of_nat x) * 4 in
      store (store (store (store rgba (idx + 0) (index color 0))
                      (idx + 1) (index color 1))
               (idx + 2) (index color 2))
        (idx + 3) (index color 3).
Proof. reflexivity. Qed.

Lemma cell_inj x y x' y' :
  (x < tw)%nat -> (x' < tw)%nat -> (y * tw + x = y' * tw + x')%nat ->
  x = x' /\ y = y'.
Proof.
  intros Hx Hx' E.
  destruct (Nat.lt_trichotomy y y') as [H|[H|H]]; [nia | lia | nia].
Qed.

Lemma renderPixel_painted x y rgba :
  (x < tw)%nat -> (y < th)%nat ->
  painted xbm tw th colors (y * tw + x) rgba ->
  painted xbm tw th colors (y * tw + x + 1) (renderPixel xbm tw th colors y x rgba).
Proof.
  intros Hx Hy [Hlen Hp].
  assert (Hin : forall k, (k < 4)%nat -> (4 * (y * tw + x) + k < length rgba)%nat).
  { intros k Hk. rewrite Hlen. nia. }
  rewrite renderPixel_eq.
  destruct (Z.eqb_spec (maskBit xbm tw th x y) 0) as [Hm|Hm].
  - split; [done|]. intros x' y' k Hx' Hy' Hk. rewrite Hp by done.
    f_equal. repeat case_decide; try lia; try done.
    assert (y' * tw + x' = y * tw + x)%nat as E by lia.
    apply cell_inj in E as [-> ->]; [|done..].
    unfold expected. by rewrite Hm.
  - cbv zeta.
    rewrite (store_nat _ (4 * (y * tw + x) + 0) (_ + 0)) by lia.
    rewrite (store_nat _ (4 * (y * tw + x) + 1) (_ + 1)) by lia.
    rewrite (store_nat _ (4 * (y * tw + x) + 2) (_ + 2)) by lia.
    rewrite (store_nat _ (4 * (y * tw + x) + 3) (_ + 3)) by lia.
    split; [by rewrite !length_insert|].
    intros x' y' k Hx' Hy' Hk.
    destruct (decide (y' * tw + x' = y * tw + x)%nat) as [E|E].
    + apply cell_inj in E as [-> ->]; [|done..].
      rewrite decide_True by lia.
      unfold expected. destruct (Z.eqb_spec (maskBit xbm tw th x y) 0); [done|].
      assert (k = 0 \/ k = 1 \/ k = 2 \/ k = 3)%nat as [-> | [-> | [-> | ->] ] ] by lia.
      * rewrite !list_lookup_insert_ne by lia.
        rewrite list_lookup_insert_eq; [done|]. apply Hin; lia.
      * rewrite !list_lookup_insert_ne by lia.
        rewrite list_lookup_insert_eq; [done|]. rewrite !length_insert. apply Hin; lia.
      * rewrite !list_lookup_insert_ne by lia.
        rewrite list_lookup_insert_eq; [done|]. rewrite !length_insert. apply Hin; lia.
      * rewrite list_lookup_insert_eq; [done|]. rewrite !length_insert. apply Hin; lia.
    + rewrite !list_lookup_insert_ne by lia.
      rewrite Hp by done. f_equal. repeat case_decide; try lia; done.
Qed.

Lemma renderRow_painted y rgba :
  (y < th)%nat -> painted xbm tw th colors (y * tw) rgba ->
  painted xbm tw th colors ((y + 1) * tw) (renderRow xbm tw th colors rgba y).
Proof.
  intros Hy H0. unfold renderRow.
  assert (forall n, (n <= tw)%nat ->
    painted xbm tw th colors (y * tw + n)
      (fold_left (fun acc x => renderPixel xbm tw th colors y x acc) (seq 0 n) rgba)) as G.
  { induction n as [|n IH]; intros Hn.
    - simpl. by rewrite Nat.add_0_r.
    - rewrite seq_S, fold_left_app. simpl.
      replace (y * tw + S n)%nat with (y * tw + n + 1)%nat by lia.
      apply renderPixel_painted; [lia|done|]. apply IH. lia. }
  replace ((y + 1) * tw)%nat with (y * tw + tw)%nat by lia. by apply G.
Qed.

Lemma render_painted :
  painted xbm tw th colors (th * tw) (_renderXbmCursorRgba xbm tw th colors).
Proof.
  unfold _renderXbmCursorRgba.
  assert (forall n, (n <= th)%nat ->
    painted xbm tw th colors (n * tw)
      (fold_left (renderRow xbm tw th colors) (seq 0 n)
         (replicate (tw * th * 4) 0))) as G.
  { induction n as [|n IH]; intros Hn.
    - simpl. split; [by rewrite length_replicate|].
      intros x y k Hx Hy Hk. rewrite decide_False by lia.
      apply lookup_replicate_2. nia.
    - rewrite seq_S, fold_left_app. cbn [fold_left Nat.add].
      replace (S n * tw)%nat with ((n + 1) * tw)%nat by lia.
      apply renderRow_painted; [lia|]. apply IH. lia. }
  by apply G.
Qed.

End Render.

(** The bit planes are read at [srcIndex]. *)
Lemma maskBit_reads_srcIndex xbm tw th x y :
  maskBit xbm tw th x y =
    Z.land (Z.shiftr (index (maskBits xbm) (srcIndex xbm tw th x y))
                     (Z.land (srcX xbm tw x) 7)) 1.
Proof. reflexivity. Qed.

Lemma selectorBit_reads_srcIndex xbm tw th x y :
  selectorBit xbm tw th x y =
    Z.land (Z.shiftr (index (bits xbm) (srcIndex xbm tw th x y))
                     (Z.land (srcX xbm tw x) 7)) 1.
Proof. reflexivity. Qed.

Lemma pixelAt_eq rgba tw x y a b c d :
  rgba !! (4 * (y * tw + x) + 0)%nat = Some a ->
  rgba !! (4 * (y * tw + x) + 1)%nat = Some b ->
  rgba !! (4 * (y * tw + x) + 2)%nat = Some c ->
  rgba !! (4 * (y * tw + x) + 3)%nat = Some d ->
  pixelAt rgba tw x y = [a; b; c; d].
Proof.
  intros Ha Hb Hc Hd. unfold pixelAt.
  apply list_eq. intros i.
  destruct (decide (i < 4)%nat) as [Hi|Hi].
  - rewrite lookup_take_lt by done. rewrite lookup_drop.
    assert (i = 0 \/ i = 1 \/ i = 2 \/ i = 3)%nat as [-> | [-> | [-> | ->] ] ] by lia;
      [by rewrite Ha | by rewrite Hb | by rewrite Hc | by rewrite Hd].
  - rewrite lookup_take_ge by lia.
    symmetry. apply lookup_ge_None. simpl. lia.
Qed.

Lemma xbmBit_01 data bpr x y : _xbmBit data bpr x y = 0 \/ _xbmBit data bpr x y = 1.
Proof.
  unfold _xbmBit. cbv zeta.
  set (v := Z.shiftr _ _).
  assert (Z.land v 1 = v mod 2) as -> by (apply (Z.land_ones v 1); lia).
  pose proof (Z.mod_pos_bound v 2). lia.
Qed.

Lemma srcCoord_range size target d :
  0 < size -> 0 <= d -> 0 < target -> 0 <= srcCoord size target d <= size - 1.
Proof.
  intros Hs Hd Ht. unfold srcCoord.
  assert (0 <= d * size / target) by (apply Z.div_pos; nia). lia.
Qed.

Lemma isRgba_spec c :
  isRgba c = true ->
  exists r g b a, c = [r; g; b; a] /\ 0 <= r <= 255 /\ 0 <= g <= 255
                  /\ 0 <= b <= 255 /\ 0 <= a <= 255.
Proof.
  unfold isRgba. intros H. apply andb_true_iff in H as [Hl Hf].
  apply Nat.eqb_eq in Hl.
  destruct c as [|r [|g [|b [|a [|? ?] ] ] ] ]; try discriminate.
  exists r, g, b, a. simpl in Hf.
  repeat (apply andb_true_iff in Hf as [? Hf]). repeat split; lia.
Qed.

Lemma srcIndex_range xbm tw th x y :
  wellFormed xbm -> (x < tw)%nat -> (y < th)%nat ->
  0 <= srcIndex xbm tw th x y < srcBytesPerRow xbm * height xbm.
Proof.
  intros (Hw & Hh & _ & _) Hx Hy.
  pose proof (srcCoord_range (width xbm) (Z.of_nat tw) (Z.of_nat x) Hw
                ltac:(lia) ltac:(lia)) as Hsx.
  pose proof (srcCoord_range (height xbm) (Z.of_nat th) (Z.of_nat y) Hh
                ltac:(lia) ltac:(lia)) as Hsy.
  unfold srcIndex, srcX, srcY. rewrite Z.shiftr_div_pow2 by lia.
  change (2 ^ 3) with 8. unfold srcBytesPerRow in *.
  set (sx := srcCoord (width xbm) (Z.of_nat tw) (Z.of_nat x)) in *.
  set (sy := srcCoord (height xbm) (Z.of_nat th) (Z.of_nat y)) in *.
  assert (0 <= sx / 8) by (apply Z.div_pos; lia).
  assert (sx / 8 < (width xbm + 7) / 8).
  { apply Z.div_lt_upper_bound; [lia|].
    pose proof (Z.mod_pos_bound (width xbm + 7) 8 ltac:(lia)).
    pose proof (Z.div_mod (width xbm + 7) 8 ltac:(lia)). lia. }
  nia.
Qed.

(** The pixel in terms of the bits the renderer reads. *)
Lemma raster_pixel_by_code_bits xbm tw th colors x y :
  (x < tw)%nat -> (y < th)%nat ->
  isRgba (fgOf colors) = true -> isRgba (bgOf colors) = true ->
  pixelAt (_renderXbmCursorRgba xbm tw th colors) tw x y
  = if maskBit xbm tw th x y =? 0 then [0; 0; 0; 0]
    else if selectorBit xbm tw th x y =? 0 then bgOf colors else fgOf colors.
Proof.
  intros Hx Hy Hfg Hbg.
  destruct (render_painted xbm tw th colors) as [_ Hp].
  rewrite (pixelAt_eq _ _ _ _ _ _ _ _
             (Hp x y 0%nat Hx Hy ltac:(lia)) (Hp x y 1%nat Hx Hy ltac:(lia))
             (Hp x y 2%nat Hx Hy ltac:(lia)) (Hp x y 3%nat Hx Hy ltac:(lia))).
  rewrite !decide_True by nia.
  unfold expected, colorAt.
  destruct (maskBit xbm tw th x y =? 0); [done|].
  apply isRgba_spec in Hfg as (r & g & b & a & -> & ? & ? & ? & ?).
  apply isRgba_spec in Hbg as (r' & g' & b' & a' & -> & ? & ? & ? & ?).
  destruct (selectorBit xbm tw th x y =? 0);
    unfold index; simpl; by rewrite !Z.mod_small by lia.
Qed.

(** The renderer's coordinate is the source pixel the destination pixel
    maps back to, and no other source pixel is. *)
Lemma srcCoord_nearest size target d :
  0 < size -> 0 < target -> 0 <= d < target ->
  nearestSource size target d (srcCoord size target d).
Proof.
  intros Hs Ht Hd. unfold nearestSource, srcCoord.
  pose proof (Z.div_mod (d * size) target ltac:(lia)) as Hdm.
  pose proof (Z.mod_pos_bound (d * size) target Ht) as Hm.
  assert (0 <= d * size / target) by (apply Z.div_pos; nia).
  assert (d * size / target < size) by (apply Z.div_lt_upper_bound; nia).
  rewrite Z.min_r by lia. nia.
Qed.

Lemma nearestSource_unique size target d s s' :
  0 < target ->
  nearestSource size target d s -> nearestSource size target d s' -> s = s'.
Proof. unfold nearestSource. intros Ht (_ & H1 & H2) (_ & H3 & H4). nia. Qed.

Lemma xbmRowBytes_ceil w : xbmRowBytes w = (w + 7) / 8.
Proof.
  unfold xbmRowBytes.
  pose proof (Z.div_mod (- w) 8 ltac:(lia)).
  pose proof (Z.mod_pos_bound (- w) 8 ltac:(lia)).
  apply (Z.div_unique _ _ _ (7 - (- w) mod 8)); lia.
Qed.

(** The bit [_xbmBit] extracts is the pixel of the XBM plane. *)
Lemma xbmBit_pixel plane w sx sy :
  0 <= sx -> 0 <= xbmByteIndex w sx sy ->
  _xbmBit plane ((w + 7) / 8) sx sy = Z.b2z (xbmPixel plane w sx sy).
Proof.
  intros Hx Hi. unfold _xbmBit, xbmPixel, xbmByteIndex in *. cbv zeta.
  rewrite xbmRowBytes_ceil in *.
  replace (Z.shiftr sx 3) with (sx / 8) by (symmetry; apply (Z.shiftr_div_pow2 sx 3); lia).
  replace (Z.land sx 7) with (sx mod 8) by (symmetry; apply (Z.land_ones sx 3); lia).
  unfold index. destruct (Z.ltb_spec (sy * ((w + 7) / 8) + sx / 8) 0); [lia|].
  rewrite nth_lookup.
  set (v := default 0 _). set (b := sx mod 8).
  assert (0 <= b) by (subst b; apply Z.mod_pos_bound; lia).
  replace (Z.land (Z.shiftr v b) 1) with (Z.shiftr v b mod 2)
    by (symmetry; apply (Z.land_ones (Z.shiftr v b) 1); lia).
  rewrite <- Z.bit0_mod, Z.shiftr_spec by lia. done.
Qed.

(** C9: for every target width and height, and every destination pixel,
    the source pixel the destination pixel maps back to is unique, and
    the index the renderer reads for it lies inside both bit planes; the
    pixel of the rendered raster is left at zero (fully transparent) when
    the mask bit of that source pixel is 0 and otherwise receives the
    foreground colour when the selector bit is 1 and the background
    colour when it is 0.  Hence, for colours whose alpha is not 0, the
    pixel is fully transparent iff the mask bit is 0. *)
Theorem cursor_raster_nearest_neighbour xbm tw th colors x y :
  wellFormed xbm ->
  (x < tw)%nat -> (y < th)%nat ->
  isRgba (fgOf colors) = true -> isRgba (bgOf colors) = true ->
  exists sx sy,
    (forall s, nearestSource (width xbm) (Z.of_nat tw) (Z.of_nat x) s <-> s = sx)
    /\ (forall s, nearestSource (height xbm) (Z.of_nat th) (Z.of_nat y) s <-> s = sy)
    /\ srcIndex xbm tw th x y = xbmByteIndex (width xbm) sx sy
    /\ 0 <= xbmByteIndex (width xbm) sx sy < Z.of_nat (length (maskBits xbm))
    /\ 0 <= xbmByteIndex (width xbm) sx sy < Z.of_nat (length (bits xbm))
    /\ let px := pixelAt (_renderXbmCursorRgba xbm tw th colors) tw x y in
       let m := xbmPixel (maskBits xbm) (width xbm) sx sy in
       let sel := xbmPixel (bits xbm) (width xbm) sx sy in
       (m = false -> px = [0; 0; 0; 0])
       /\ (m = true -> px = if sel then fgOf colors else bgOf colors)
       /\ (0 < alpha (fgOf colors) -> 0 < alpha (bgOf colors) ->
           (fullyTransparent px <-> m = false)).
Proof.
  intros Hwf Hx Hy Hfg Hbg.
  pose proof (srcIndex_range xbm tw th x y Hwf Hx Hy) as Hr.
  destruct Hwf as (Hw & Hh & Hlb & Hlm).
  pose proof (srcCoord_nearest (width xbm) (Z.of_nat tw) (Z.of_nat x) Hw
                ltac:(lia) ltac:(lia)) as Hnx.
  pose proof (srcCoord_nearest (height xbm) (Z.of_nat th) (Z.of_nat y) Hh
                ltac:(lia) ltac:(lia)) as Hny.
  fold (srcX xbm tw x) in Hnx. fold (srcY xbm th y) in Hny.
  exists (srcX xbm tw x), (srcY xbm th y).
  assert (Hidx : srcIndex xbm tw th x y
                 = xbmByteIndex (width xbm) (srcX xbm tw x) (srcY xbm th y)).
  { unfold srcIndex, xbmByteIndex, srcBytesPerRow. rewrite xbmRowBytes_ceil.
    by rewrite (Z.shiftr_div_pow2 _ 3 ltac:(lia)). }
  split.
  { intros s. split; [|by intros ->].
    intros Hs. apply (nearestSource_unique (width xbm) (Z.of_nat tw) (Z.of_nat x)); [lia|done|done]. }
  split.
  { intros s. split; [|by intros ->].
    intros Hs. apply (nearestSource_unique (height xbm) (Z.of_nat th) (Z.of_nat y)); [lia|done|done]. }
  split; [done|]. rewrite <- Hidx.
  split; [by rewrite Hlm|]. split; [by rewrite Hlb|].
  cbv zeta.
  rewrite (raster_pixel_by_code_bits xbm tw th colors x y Hx Hy Hfg Hbg).
  assert (Hsx : 0 <= srcX xbm tw x) by (destruct Hnx; lia).
  unfold maskBit, selectorBit, srcBytesPerRow.
  rewrite !xbmBit_pixel by (rewrite <- ?Hidx; lia).
  destruct (xbmPixel (maskBits xbm) (width xbm) (srcX xbm tw x) (srcY xbm th y));
    cbn [Z.b2z Z.eqb].
  - split; [done|]. split.
    + intros _. by destruct (xbmPixel (bits xbm) _ _ _).
    + intros Hafg Habg. split; [|done]. intros H. exfalso.
      apply isRgba_spec in Hfg as (r & g & b & a & Efg & _).
      apply isRgba_spec in Hbg as (r' & g' & b' & a' & Ebg & _).
      rewrite Efg, Ebg in *. unfold fullyTransparent, alpha, index in *. simpl in *.
      destruct (xbmPixel (bits xbm) _ _ _); simpl in H; injection H; lia.
  - split; [done|]. split; [done|]. done.
Qed.

Lemma LOCK_CURSOR_XBM_wellFormed : wellFormed LOCK_CURSOR_XBM.
Proof. repeat split. Qed.

Lemma cursor_raster_witness :
  pixelAt (_renderXbmCursorRgba LOCK_CURSOR_XBM 22 32 None) 22 11 0
    = [255; 255; 255; 255]
  /\ pixelAt (_renderXbmCursorRgba LOCK_CURSOR_XBM 22 32 None) 22 0 0 = [0; 0; 0; 0].
Proof.
  destruct (cursor_raster_nearest_neighbour LOCK_CURSOR_XBM 22 32 None 11 0
     LOCK_CURSOR_XBM_wellFormed ltac:(lia) ltac:(lia) eq_refl eq_refl)
    as (sx & sy & Hsx & Hsy & _ & _ & _ & _ & H1 & _).
  destruct (cursor_raster_nearest_neighbour LOCK_CURSOR_XBM 22 32 None 0 0
     LOCK_CURSOR_XBM_wellFormed ltac:(lia) ltac:(lia) eq_refl eq_refl)
    as (sx0 & sy0 & Hsx0 & Hsy0 & _ & _ & _ & H0 & _).
  assert (sx = 14) as -> by (symmetry; apply Hsx; unfold nearestSource; simpl; lia).
  assert (sy = 0) as -> by (symmetry; apply Hsy; unfold nearestSource; simpl; lia).
  assert (sx0 = 0) as -> by (symmetry; apply Hsx0; unfold nearestSource; simpl; lia).
  assert (sy0 = 0) as -> by (symmetry; apply Hsy0; unfold nearestSource; simpl; lia).
  split; [exact (H1 eq_refl) | exact (H0 eq_refl)].
Defined.

(** With a foreground colour of alpha 0, which the setting
    [cursor-fg-rgba] can hold, a pixel whose mask bit is 1 is fully
    transparent all the same. *)
Lemma transparent_colour_hides_masked_pixel :
  let colors :=
    CursorColors.lockCursorColors (Some [Some 0; Some 0; Some 0; Some 0]) None in
  let px := pixelAt (_renderXbmCursorRgba LOCK_CURSOR_XBM 22 32 colors) 22 11 0 in
  nearestSource 28 22 11 14 /\ nearestSource 40 32 0 0
  /\ xbmPixel (maskBits LOCK_CURSOR_XBM) 28 14 0 = true
  /\ px = [0; 0; 0; 0]
  /\ ~ (fullyTransparent px <-> xbmPixel (maskBits LOCK_CURSOR_XBM) 28 14 0 = false).
Proof.
  cbv zeta. split; [unfold nearestSource; lia|]. split; [unfold nearestSource; lia|].
  split; [reflexivity|]. split; [reflexivity|].
  intros [H _]. discriminate H. reflexivity.
Qed.

End CursorFacts.

(** ** The key handler, the password buffer and the verification helper *)

Module EngineFacts.

Import Clutter Engine EngineSpec.

Section EngineFacts.
Variable env : Env.

Lemma onKeyPress_unlocked event s :
  _locked s = false -> _onKeyPress env event s = (s, EVENT_PROPAGATE).
Proof. intros H. unfold _onKeyPress. by rewrite H. Qed.

Lemma onKeyPress_Enter event s :
  _locked s = true -> isEnter event = true ->
  _onKeyPress env event s =
    (_updatePasswordPrompt env (_attemptUnlock env (_resetPasswordTimeout env s)),
     EVENT_STOP).
Proof.
  intros Hl He. unfold _onKeyPress, isEnter in *. rewrite Hl. cbn [negb].
  rewrite He.
  apply orb_true_iff in He as [He|He]; apply Z.eqb_eq in He; rewrite He;
    change (_ =? KEY_l) with false; change (_ =? KEY_L) with false;
    by rewrite andb_false_r.
Qed.

Lemma onKeyPress_Escape event s :
  _locked s = true -> isEscape event = true ->
  _onKeyPress env event s =
    (_updatePasswordPrompt env
       (_handleDebugAbortSequence env (now event)
          (set_passwordBuffer [] (_resetPasswordTimeout env s))),
     EVENT_STOP).
Proof.
  intros Hl He. unfold _onKeyPress, isEscape in *. rewrite Hl. cbn [negb].
  apply Z.eqb_eq in He. rewrite He.
  change (KEY_Escape =? KEY_l) with false. change (KEY_Escape =? KEY_L) with false.
  change (KEY_Escape =? KEY_Return) with false.
  change (KEY_Escape =? KEY_KP_Enter) with false.
  change (KEY_Escape =? KEY_r) with false. change (KEY_Escape =? KEY_R) with false.
  change (KEY_Escape =? KEY_BackSpace) with false.
  change (KEY_Escape =? KEY_Escape) with true.
  by rewrite !andb_false_r.
Qed.

Lemma onKeyPress_BackSpace event s :
  _locked s = true -> isBackSpace event = true ->
  _onKeyPress env event s =
    (_updatePasswordPrompt env
       (let s := _resetPasswordTimeout env s in
        if (0 <? length (_passwordBuffer s))%nat
        then set_passwordBuffer (JS.slice_0_m1 (_passwordBuffer s)) s else s),
     EVENT_STOP).
Proof.
  intros Hl He. unfold _onKeyPress, isBackSpace in *. rewrite Hl. cbn [negb].
  apply Z.eqb_eq in He. rewrite He.
  change (KEY_BackSpace =? KEY_l) with false. change (KEY_BackSpace =? KEY_L) with false.
  change (KEY_BackSpace =? KEY_Return) with false.
  change (KEY_BackSpace =? KEY_KP_Enter) with false.
  change (KEY_BackSpace =? KEY_r) with false. change (KEY_BackSpace =? KEY_R) with false.
  change (KEY_BackSpace =? KEY_BackSpace) with true.
  by rewrite !andb_false_r.
Qed.

(** Field-wise facts about the helpers. *)
Lemma updatePasswordPrompt_fields s :
  let s' := _updatePasswordPrompt env s in
  _locked s' = _locked s /\ _passwordBuffer s' = _passwordBuffer s
  /\ _passwordResetTimeoutId s' = _passwordResetTimeoutId s
  /\ _didPauseMedia s' = _didPauseMedia s
  /\ _debugAbortSequenceCount s' = _debugAbortSequenceCount s
  /\ _debugAbortSequenceLastTime s' = _debugAbortSequenceLastTime s
  /\ _passwordPromptRevealed s' = _passwordPromptRevealed s
  /\ pending s' = pending s /\ effects s' = effects s
  /\ (is_Some (_passwordPrompt s') <-> is_Some (_passwordPrompt s)).
Proof.
  unfold _updatePasswordPrompt. destruct (_passwordPrompt s) eqn:E; simpl.
  - repeat split; eauto.
  - rewrite E. repeat split; auto.
Qed.

Lemma resetPasswordTimeout_fields s :
  let s' := _resetPasswordTimeout env s in
  _locked s' = _locked s /\ _passwordBuffer s' = _passwordBuffer s
  /\ _didPauseMedia s' = _didPauseMedia s
  /\ _debugAbortSequenceCount s' = _debugAbortSequenceCount s
  /\ _debugAbortSequenceLastTime s' = _debugAbortSequenceLastTime s
  /\ _passwordPrompt s' = _passwordPrompt s
  /\ _passwordPromptRevealed s' = _passwordPromptRevealed s
  /\ pending s' = pending s /\ effects s' = effects s.
Proof.
  unfold _resetPasswordTimeout. cbv zeta.
  destruct (_ =? 0); simpl; repeat split.
Qed.


Lemma attemptUnlock_empty s :
  _passwordBuffer s = [] -> _attemptUnlock env s = s.
Proof. intros H. unfold _attemptUnlock. by rewrite H. Qed.

Lemma attemptUnlock_nonempty s :
  _passwordBuffer s <> [] ->
  let r := _verifyPassword env (_passwordBuffer s) in
  let s' := _attemptUnlock env s in
  _locked s' = _locked s /\ _passwordBuffer s' = []
  /\ pending s' = pending s ++ [r] /\ effects s' = effects s ++ [Spawn r].
Proof.
  intros H. unfold _attemptUnlock.
  destruct (_passwordBuffer s) as [|u b] eqn:E; [done|]. cbn [length Nat.eqb].
  cbv zeta.
  pose proof (updatePasswordPrompt_fields (set_passwordBuffer [] s))
    as (? & ? & ? & ? & ? & ? & ? & Hp & He & ?).
  simpl. rewrite Hp, He. simpl. repeat split; auto.
Qed.

Lemma attemptUnlock_resumed_failure_buffer i s :
  _passwordBuffer (_attemptUnlock_resumed env i false s) = _passwordBuffer s.
Proof.
  unfold _attemptUnlock_resumed. destruct (pending s !! i); [|done].
  by destruct (resetPasswordTimeout_fields (set_pending (delete i (pending s)) s))
    as (_ & -> & _).
Qed.

(** C2: an Enter press with a non-empty password buffer snapshots the
    buffer into the candidate handed to the verification helper and
    leaves the buffer empty before the verification resolves; when the
    verification then fails the buffer is still empty, and the failure
    continuation never writes the buffer, so the rejected password is
    not restored. *)
Theorem enter_snapshots_and_clears s event :
  _locked s = true -> isEnter event = true -> _passwordBuffer s <> [] ->
  let candidate := _passwordBuffer s in
  let s1 := step env s (KeyPress event) in
  _passwordBuffer s1 = []
  /\ pending s1 = pending s ++ [_verifyPassword env candidate]
  /\ effects s1 = effects s ++ [Spawn (_verifyPassword env candidate)]
  /\ stdin_buf (_verifyPassword env candidate) = candidate ++ [0x0a]
  /\ (forall i, _passwordBuffer (step env s1 (AuthResolved i false)) = [])
  /\ (forall s' i, _passwordBuffer (step env s' (AuthResolved i false))
                   = _passwordBuffer s').
Proof.
  intros Hl He Hb candidate s1.
  assert (H1 : _passwordBuffer s1 = []
    /\ pending s1 = pending s ++ [_verifyPassword env candidate]
    /\ effects s1 = effects s ++ [Spawn (_verifyPassword env candidate)]).
  { subst s1. cbn [step]. rewrite onKeyPress_Enter by done. cbn [fst].
    destruct (resetPasswordTimeout_fields s) as (Rl & Rb & _ & _ & _ & _ & _ & Rp & Re).
    destruct (attemptUnlock_nonempty (_resetPasswordTimeout env s))
      as (Al & Ab & Ap & Ae); [by rewrite Rb|].
    destruct (updatePasswordPrompt_fields (_attemptUnlock env (_resetPasswordTimeout env s)))
      as (_ & Ub & _ & _ & _ & _ & _ & Up & Ue & _).
    rewrite Ub, Up, Ue, Ab, Ap, Ae, Rb, Rp, Re. done. }
  destruct H1 as (B1 & P1 & E1).
  repeat split; try done.
  - intros i. cbn [step]. by rewrite attemptUnlock_resumed_failure_buffer.
  - intros s' i. cbn [step]. apply attemptUnlock_resumed_failure_buffer.
Qed.

Lemma enter_on_empty_buffer s e :
  _locked s = true -> isEnter e = true -> _passwordBuffer s = [] ->
  pending (step env s (KeyPress e)) = pending s
  /\ effects (step env s (KeyPress e)) = effects s.
Proof.
  intros Hl He Hb. cbn [step]. rewrite onKeyPress_Enter by done. cbn [fst].
  destruct (resetPasswordTimeout_fields s) as (_ & Rb & _ & _ & _ & _ & _ & Rp & Re).
  rewrite attemptUnlock_empty by (by rewrite Rb).
  destruct (updatePasswordPrompt_fields (_resetPasswordTimeout env s))
    as (_ & _ & _ & _ & _ & _ & _ & Up & Ue & _).
  by rewrite Up, Ue, Rp, Re.
Qed.

Lemma enter_leaves_buffer_empty s e :
  _locked s = true -> isEnter e = true ->
  let s1 := step env s (KeyPress e) in
  _locked s1 = true /\ _passwordBuffer s1 = []
  /\ (length (pending s1) <= S (length (pending s)))%nat.
Proof.
  intros Hl He. cbv zeta. cbn [step]. rewrite onKeyPress_Enter by done. cbn [fst].
  destruct (resetPasswordTimeout_fields s) as (Rl & Rb & _ & _ & _ & _ & _ & Rp & Re).
  destruct (updatePasswordPrompt_fields (_attemptUnlock env (_resetPasswordTimeout env s)))
    as (Ul & Ub & _ & _ & _ & _ & _ & Up & _ & _).
  rewrite Ul, Ub, Up.
  destruct (_passwordBuffer s) as [|u b] eqn:E.
  - rewrite attemptUnlock_empty by (by rewrite Rb). rewrite Rl, Rb, Rp. auto.
  - destruct (attemptUnlock_nonempty (_resetPasswordTimeout env s))
      as (Al & Ab & Ap & _); [by rewrite Rb|].
    rewrite Al, Ab, Ap, Rl, Rp, length_app. simpl. split; [done|]. split; [done|lia].
Qed.

(** C1, as amended: every Enter press leaves the password buffer empty
    and adds at most one pending request; an Enter press that finds the
    buffer empty starts no verification, so an Enter press that directly
    follows another one leaves the pending requests and the calls made
    unchanged. *)
Theorem enter_on_cleared_buffer_starts_nothing s e1 e2 :
  _locked s = true -> isEnter e1 = true -> isEnter e2 = true ->
  let s1 := step env s (KeyPress e1) in
  let s2 := step env s1 (KeyPress e2) in
  _passwordBuffer s1 = []
  /\ (length (pending s1) <= S (length (pending s)))%nat
  /\ (_passwordBuffer s = [] -> pending s1 = pending s /\ effects s1 = effects s)
  /\ pending s2 = pending s1
  /\ effects s2 = effects s1.
Proof.
  intros Hl H1 H2 s1 s2.
  destruct (enter_leaves_buffer_empty s e1 Hl H1) as (L1 & B1 & Len).
  split; [done|]. split; [done|].
  split; [by apply enter_on_empty_buffer|].
  by apply enter_on_empty_buffer.
Qed.

(** C3: the argument list and the flags with which the verification
    helper is spawned are the same for every candidate; the candidate
    reaches the helper only as the data written to its input, followed
    by a newline, and that is all an unlock attempt emits. *)
Theorem helper_invocation_independent_of_candidate p1 p2 :
  argv (_verifyPassword env p1) = argv (_verifyPassword env p2)
  /\ procFlags (_verifyPassword env p1) = procFlags (_verifyPassword env p2)
  /\ stdin_buf (_verifyPassword env p1) = p1 ++ [0x0a]
  /\ (forall s, _passwordBuffer s = p1 -> p1 <> [] ->
        effects (_attemptUnlock env s)
        = effects s ++ [Spawn {| argv := argv (_verifyPassword env p2);
                                 procFlags := procFlags (_verifyPassword env p2);
                                 stdin_buf := p1 ++ [0x0a] |}]).
Proof.
  repeat split.
  intros s <- Hne. by destruct (attemptUnlock_nonempty s Hne) as (_ & _ & _ & ->).
Qed.

End EngineFacts.

Lemma enter_snapshots_and_clears_witness :
  _passwordBuffer (keys env0 locked0 [key 0x61 0; key KEY_Return 1]) = [].
Proof.
  exact (proj1 (enter_snapshots_and_clears env0 (keys env0 locked0 [key 0x61 0])
                  (key KEY_Return 1) eq_refl eq_refl ltac:(discriminate))).
Defined.

Lemma enter_on_cleared_buffer_witness :
  pending (keys env0 locked0 [key 0x61 0; key KEY_Return 1; key KEY_KP_Enter 2])
  = pending (keys env0 locked0 [key 0x61 0; key KEY_Return 1]).
Proof.
  exact (proj1 (proj2 (proj2 (proj2 (enter_on_cleared_buffer_starts_nothing env0
     (keys env0 locked0 [key 0x61 0]) (key KEY_Return 1) (key KEY_KP_Enter 2)
     eq_refl eq_refl eq_refl))))).
Defined.

(** C1 as stated fails: with a character typed between two Enter
    presses, two verification requests are pending at once. *)
Lemma typing_between_enters_starts_second_verification :
  ~ (forall (env : Env) (s : Ext) (ks : list KeyEvent),
        _locked s = true -> pending s = [] ->
        (length (pending (keys env s ks)) <= 1)%nat).
Proof.
  intros H.
  specialize (H env0 locked0
    [key 0x61 0; key KEY_Return 1; key 0x62 2; key KEY_Return 3] eq_refl eq_refl).
  vm_compute in H. lia.
Qed.

Section DebugAbort.
Variable env : Env.

Lemma spawned_emit es s :
  Forall (fun e => isSpawn e = false) es -> spawned (emit es s) = spawned s.
Proof.
  intros H. unfold spawned. simpl. rewrite filter_app.
  assert (filter (fun e => isSpawn e = true) es = []) as ->.
  { induction H as [|e es He _ IH]; [done|].
    rewrite filter_cons_False; [done|]. by rewrite He. }
  by rewrite app_nil_r.
Qed.

Lemma spawned_eq s s' : effects s = effects s' -> spawned s = spawned s'.
Proof. unfold spawned. by intros ->. Qed.

Lemma unlock_fields force s :
  let s' := _unlock force s in
  pending s' = pending s /\ spawned s' = spawned s
  /\ _debugAbortSequenceCount s' = _debugAbortSequenceCount s
  /\ _debugAbortSequenceLastTime s' = _debugAbortSequenceLastTime s
  /\ (_locked s = true \/ force = true ->
      _locked s' = false /\ _passwordBuffer s' = []).
Proof.
  unfold _unlock. destruct (negb (_locked s) && negb force) eqn:E.
  - do 4 (split; [done|]). intros [Hl| ->]; exfalso.
    + by rewrite Hl in E.
    + by rewrite andb_false_r in E.
  - cbv zeta. simpl. destruct (_didPauseMedia s); simpl.
    + split; [done|]. split; [|done].
      unfold spawned. simpl. rewrite <- app_assoc, filter_app. simpl.
      by rewrite app_nil_r.
    + split; [done|]. split; [|done].
      unfold spawned. simpl. rewrite filter_app. simpl. by rewrite app_nil_r.
Qed.

Lemma escape_fields event s :
  _locked s = true -> isEscape event = true ->
  let s0 := set_passwordBuffer [] (_resetPasswordTimeout env s) in
  let s' := step env s (KeyPress event) in
  s' = _updatePasswordPrompt env (_handleDebugAbortSequence env (now event) s0)
  /\ _locked s0 = true /\ pending s0 = pending s /\ effects s0 = effects s
  /\ _debugAbortSequenceCount s0 = _debugAbortSequenceCount s
  /\ _debugAbortSequenceLastTime s0 = _debugAbortSequenceLastTime s
  /\ _passwordBuffer s0 = [].
Proof.
  intros Hl He s0 s'. subst s'. cbn [step]. rewrite onKeyPress_Escape by done.
  destruct (resetPasswordTimeout_fields env s) as (Rl & _ & _ & Rc & Rt & _ & _ & Rp & Re).
  subst s0. simpl. rewrite Rl, Rp, Re, Rc, Rt. done.
Qed.

Lemma escape_debug_step event s :
  debug_mode env = true -> _locked s = true -> isEscape event = true ->
  0 <= _debugAbortSequenceCount s ->
  let s' := step env s (KeyPress event) in
  pending s' = pending s /\ spawned s' = spawned s
  /\ (_locked s' = false
      \/ (_locked s' = true
          /\ _debugAbortSequenceLastTime s' = now event
          /\ 1 <= _debugAbortSequenceCount s' < 5
          /\ (now event - _debugAbortSequenceLastTime s <= 1200 ->
              _debugAbortSequenceCount s' = _debugAbortSequenceCount s + 1))).
Proof.
  intros Hd Hl He Hc.
  destruct (escape_fields event s Hl He) as (-> & L0 & P0 & E0 & C0 & T0 & _).
  set (s0 := set_passwordBuffer [] (_resetPasswordTimeout env s)) in *.
  cbv zeta.
  destruct (updatePasswordPrompt_fields env (_handleDebugAbortSequence env (now event) s0))
    as (Ul & _ & _ & _ & Uc & Ut & _ & Up & Ue & _).
  rewrite (spawned_eq _ _ Ue), Ul, Uc, Ut, Up.
  unfold _handleDebugAbortSequence, _isDebugMode. rewrite Hd, L0. cbn [negb orb].
  cbv zeta.
  set (s1 := if 1200 <? now event - _debugAbortSequenceLastTime s0
             then set_debugAbortSequenceCount 0 s0 else s0).
  assert (H1 : _locked s1 = true /\ pending s1 = pending s /\ spawned s1 = spawned s
               /\ 0 <= _debugAbortSequenceCount s1
               /\ (now event - _debugAbortSequenceLastTime s <= 1200 ->
                   _debugAbortSequenceCount s1 = _debugAbortSequenceCount s)).
  { subst s1. rewrite T0.
    destruct (Z.ltb_spec 1200 (now event - _debugAbortSequenceLastTime s)).
    - split; [done|]. split; [done|]. split; [by apply spawned_eq|].
      simpl. lia.
    - rewrite C0. split; [done|]. split; [done|]. split; [by apply spawned_eq|].
      split; [done|]. done. }
  destruct H1 as (L1 & P1 & S1 & C1 & K1).
  set (s2 := set_debugAbortSequenceCount _ (set_debugAbortSequenceLastTime (now event) s1)).
  assert (H2 : _locked s2 = true /\ pending s2 = pending s /\ spawned s2 = spawned s
               /\ _debugAbortSequenceCount s2 = _debugAbortSequenceCount s1 + 1
               /\ _debugAbortSequenceLastTime s2 = now event).
  { subst s2. split; [done|]. split; [done|]. split; [|done].
    rewrite <- S1. by apply spawned_eq. }
  destruct H2 as (L2 & P2 & S2 & C2 & T2).
  destruct (Z.leb_spec 5 (_debugAbortSequenceCount s2)) as [H5|H5].
  - destruct (unlock_fields true s2) as (Pu & Su & _ & _ & Lu).
    rewrite Pu, Su, P2, S2. split; [done|]. split; [done|]. left. apply Lu. by right.
  - rewrite P2, S2, L2, T2, C2. split; [done|]. split; [done|]. right.
    split; [done|]. split; [done|]. split; [lia|]. intros H. by rewrite (K1 H).
Qed.

Lemma step_unlocked_key event s :
  _locked s = false -> step env s (KeyPress event) = s.
Proof. intros H. cbn [step]. by rewrite onKeyPress_unlocked. Qed.

Lemma escape_nodebug_step event s :
  debug_mode env = false -> _locked s = true -> isEscape event = true ->
  let s' := step env s (KeyPress event) in
  s' = _updatePasswordPrompt env (set_passwordBuffer [] (_resetPasswordTimeout env s))
  /\ _locked s' = true /\ _passwordBuffer s' = []
  /\ pending s' = pending s /\ effects s' = effects s
  /\ _debugAbortSequenceCount s' = _debugAbortSequenceCount s
  /\ _debugAbortSequenceLastTime s' = _debugAbortSequenceLastTime s.
Proof.
  intros Hd Hl He.
  destruct (escape_fields event s Hl He) as (-> & L0 & P0 & E0 & C0 & T0 & B0).
  set (s0 := set_passwordBuffer [] (_resetPasswordTimeout env s)) in *.
  cbv zeta. unfold _handleDebugAbortSequence, _isDebugMode. rewrite Hd. cbn [negb orb].
  destruct (updatePasswordPrompt_fields env s0)
    as (Ul & Ub & _ & _ & Uc & Ut & _ & Up & Ue & _).
  rewrite Ul, Ub, Uc, Ut, Up, Ue. done.
Qed.

(** C4: with debug mode on, five Escape presses whose times lie in one
    window of 1200 ms leave the session unlocked without any verification
    call; with debug mode off, any number of Escape presses at any times
    leave the session locked, start nothing, and only clear the buffer. *)
Theorem escape_debug_abort_sequence s :
  _locked s = true -> 0 <= _debugAbortSequenceCount s ->
  (debug_mode env = true ->
   forall (t : Z) (e1 e2 e3 e4 e5 : KeyEvent),
     Forall (fun e => isEscape e = true /\ t <= now e <= t + 1200)
            [e1; e2; e3; e4; e5] ->
     let s' := keys env s [e1; e2; e3; e4; e5] in
     _locked s' = false /\ spawned s' = spawned s /\ pending s' = pending s)
  /\
  (debug_mode env = false ->
   forall ks : list KeyEvent,
     Forall (fun e => isEscape e = true) ks ->
     let s' := keys env s ks in
     _locked s' = true /\ spawned s' = spawned s /\ pending s' = pending s
     /\ effects s' = effects s
     /\ _debugAbortSequenceCount s' = _debugAbortSequenceCount s
     /\ (ks <> [] -> _passwordBuffer s' = [])).
Proof.
  intros Hl Hc. split.
  - intros Hd t e1 e2 e3 e4 e5 HF.
    repeat match goal with
           | H : Forall _ (_ :: _) |- _ => apply Forall_cons in H as [[? ?] H]
           end.
    unfold keys, run. cbn [map fold_left].
    (* one Escape press from a state that is unlocked, or locked with a
       running count *)
    assert (Hstep : forall (k : Z) (sa : Ext) (ea eb : KeyEvent),
      isEscape eb = true -> now eb - now ea <= 1200 -> 1 <= k ->
      (pending sa = pending s /\ spawned sa = spawned s
       /\ (_locked sa = false
           \/ (_locked sa = true /\ _debugAbortSequenceLastTime sa = now ea
               /\ k <= _debugAbortSequenceCount sa < 5))) ->
      let sb := step env sa (KeyPress eb) in
      pending sb = pending s /\ spawned sb = spawned s
      /\ (_locked sb = false
          \/ (_locked sb = true /\ _debugAbortSequenceLastTime sb = now eb
              /\ k + 1 <= _debugAbortSequenceCount sb < 5))).
    { intros k sa ea eb Hb Ht Hk (Pa & Sa & [La | (La & Ta & Ca)]).
      - cbv zeta. rewrite step_unlocked_key by done. auto.
      - destruct (escape_debug_step eb sa Hd La Hb ltac:(lia)) as (Pb & Sb & Hb').
        cbv zeta. rewrite Pb, Sb, Pa, Sa. split; [done|]. split; [done|].
        destruct Hb' as [Lb | (Lb & Tb & Cb & Kb)]; [by left|right].
        rewrite Ta in Kb. specialize (Kb Ht). repeat split; try done; lia. }
    assert (Hrun : let s1 := step env s (KeyPress e1) in
      pending s1 = pending s /\ spawned s1 = spawned s
       /\ (_locked s1 = false
           \/ (_locked s1 = true /\ _debugAbortSequenceLastTime s1 = now e1
               /\ 1 <= _debugAbortSequenceCount s1 < 5))).
    { destruct (escape_debug_step e1 s Hd Hl ltac:(done) Hc) as (P1 & S1 & Hrun1).
      cbv zeta. split; [done|]. split; [done|].
      destruct Hrun1 as [?|(? & ? & ? & _)]; [by left|by right]. }
    cbv zeta in Hrun.
    apply (Hstep 1 _ e1 e2) in Hrun; [|done|lia|lia].
    apply (Hstep 2 _ e2 e3) in Hrun; [|done|lia|lia].
    apply (Hstep 3 _ e3 e4) in Hrun; [|done|lia|lia].
    apply (Hstep 4 _ e4 e5) in Hrun; [|done|lia|lia].
    cbv zeta in Hrun. destruct Hrun as (P & S & [L | (_ & _ & C)]); [done|lia].
  - intros Hd ks HF. unfold keys, run.
    revert s Hl Hc. induction HF as [|e ks He HF IH]; intros s Hl Hc.
    + simpl. done.
    + cbn [map fold_left].
      destruct (escape_nodebug_step e s Hd Hl He) as (_ & L1 & B1 & P1 & E1 & C1 & T1).
      cbv zeta in *.
      destruct (IH (step env s (KeyPress e)) L1 ltac:(by rewrite C1))
        as (L2 & S2 & P2 & E2 & C2 & B2).
      rewrite L2, S2, P2, E2, C2, (spawned_eq _ _ E1), P1, E1, C1.
      do 5 (split; [done|]).
      intros _. destruct ks as [|e' ks']; [done|]. apply B2. done.
Qed.

End DebugAbort.

Lemma escape_debug_abort_witness :
  _locked (keys envDebug locked0
             [key KEY_Escape 1000; key KEY_Escape 1300; key KEY_Escape 1600;
              key KEY_Escape 1900; key KEY_Escape 2200]) = false
  /\ _locked (keys env0 locked0
                [key KEY_Escape 1000; key KEY_Escape 1300; key KEY_Escape 1600;
                 key KEY_Escape 1900; key KEY_Escape 2200]) = true.
Proof.
  split.
  - refine (proj1 (proj1 (escape_debug_abort_sequence envDebug locked0 eq_refl _)
                     eq_refl 1000 _ _ _ _ _ _)).
    + simpl. lia.
    + repeat constructor; simpl; lia.
  - refine (proj1 (proj2 (escape_debug_abort_sequence env0 locked0 eq_refl _)
                     eq_refl _ _)).
    + simpl. lia.
    + repeat constructor.
Defined.

Section Decoding.
Variable env : Env.

Lemma manualKeychar_table keyval keychar :
  keychar = 0 \/ 0 < keychar < 0x20 ->
  manualKeychar keyval keychar = spec_manual_fallback keyval.
Proof.
  intros H. unfold manualKeychar, spec_manual_fallback.
  assert ((keychar =? 0) || (0 <? keychar) && (keychar <? 32) = true) as ->.
  { destruct H as [-> | H]; [done|].
    apply orb_true_iff. right. apply andb_true_iff. split; apply Z.ltb_lt; lia. }
  repeat match goal with
         | |- context [if ?b then _ else _] => destruct b eqn:?; try done
         end.
  all: try (exfalso; simpl in *; congruence).
  all: destruct H as [-> | H]; try done; simpl in *; try congruence.
  all: exfalso;
    repeat match goal with
           | H : (_ && _) = false |- _ => apply andb_false_iff in H as [H|H]
           | H : (_ <? _) = false |- _ => apply Z.ltb_ge in H
           end; lia.
Qed.

Lemma handleDebugAbortSequence_buffer t s :
  _passwordBuffer s = [] ->
  _passwordBuffer (_handleDebugAbortSequence env t s) = [].
Proof.
  intros Hb. unfold _handleDebugAbortSequence.
  destruct (negb (_isDebugMode env) || negb (_locked s)); [done|]. cbv zeta.
  match goal with |- context [if ?b then _unlock true ?x else _] =>
    destruct b; [| by destruct (1200 <? _)] end.
  apply unlock_fields. by right.
Qed.

Lemma onKeyPress_without_char event s :
  decodeKeychar env event = 0 ->
  _passwordBuffer (fst (_onKeyPress env event s)) `prefix_of` _passwordBuffer s.
Proof.
  intros Hd. unfold _onKeyPress. rewrite Hd.
  destruct (resetPasswordTimeout_fields env s) as (_ & Rb & _).
  destruct (negb (_locked s)); [done|].
  repeat match goal with
         | |- context [if ?b then (_, _) else _] => destruct b
         end; cbn [fst negb Z.eqb].
  - unfold _fallbackToSystemLock. simpl.
    destruct (unlock_fields true (_resetPasswordTimeout env s)) as (_ & _ & _ & _ & H).
    destruct H as [_ ->]; [by right|]. apply prefix_nil.
  - destruct (updatePasswordPrompt_fields env (_attemptUnlock env (_resetPasswordTimeout env s)))
      as (_ & -> & _).
    destruct (_passwordBuffer (_resetPasswordTimeout env s)) as [|u b] eqn:E.
    + rewrite attemptUnlock_empty by done. by rewrite E, <- Rb.
    + destruct (attemptUnlock_nonempty env (_resetPasswordTimeout env s))
        as (_ & -> & _); [by rewrite E|]. apply prefix_nil.
  - match goal with |- context [_updatePasswordPrompt env ?x] =>
      destruct (updatePasswordPrompt_fields env x) as (_ & -> & _) end.
    destruct (_passwordPrompt _); simpl; by rewrite Rb.
  - match goal with |- context [_updatePasswordPrompt env ?x] =>
      destruct (updatePasswordPrompt_fields env x) as (_ & -> & _) end.
    destruct (0 <? _)%nat; simpl; rewrite Rb; [|done].
    unfold JS.slice_0_m1.
    destruct (_passwordBuffer s) as [|u b] using rev_ind; [done|].
    rewrite removelast_last. by apply prefix_app_r.
  - match goal with |- context [_updatePasswordPrompt env ?x] =>
      destruct (updatePasswordPrompt_fields env x) as (_ & -> & _) end.
    rewrite handleDebugAbortSequence_buffer by done. apply prefix_nil.
  - by rewrite Rb.
  - by rewrite Rb.
Qed.

(** C5: when the platform lookups yield nothing or a control character,
    the handler's character is the one of the fallback table: printable
    ASCII and Latin-1 key values pass through, direct Unicode key values
    lose their base offset, keypad digits and operators map to their
    ASCII characters, and any other key yields no character, in which
    case nothing is appended to the password buffer. *)
Theorem manual_fallback_table event s :
  lookupFailed env event ->
  decodeKeychar env event = spec_manual_fallback (get_key_symbol event)
  /\ (spec_manual_fallback (get_key_symbol event) = 0 ->
      _passwordBuffer (fst (_onKeyPress env event s)) `prefix_of` _passwordBuffer s).
Proof.
  intros H.
  assert (E : decodeKeychar env event = spec_manual_fallback (get_key_symbol event))
    by (by apply manualKeychar_table).
  split; [done|]. intros H0. apply onKeyPress_without_char. by rewrite E.
Qed.

End Decoding.

Lemma manual_fallback_table_witness :
  decodeKeychar env0 (key KEY_KP_Add 0) = 0x2b.
Proof.
  exact (proj1 (manual_fallback_table env0 (key KEY_KP_Add 0) locked0
                  (or_introl eq_refl))).
Defined.

(** C6 at its failing input: one accepted keystroke for U+1F600 puts one
    code point (two code units) into the empty buffer, and one Backspace
    leaves the high surrogate behind instead of the empty buffer. *)
Lemma backspace_after_astral_key_leaves_half_a_character :
  let astral := key 0x0101F600 0 in
  let s1 := keys env0 locked0 [astral] in
  let s2 := keys env0 s1 [key KEY_BackSpace 1] in
  accepted env0 locked0 astral 0x1F600
  /\ JS.codePoints (_passwordBuffer s1) = [0x1F600]
  /\ _passwordBuffer s2 = [0xD83D]
  /\ _passwordBuffer s2 <> [].
Proof.
  cbv zeta. split; [|by vm_compute].
  split; [done|]. split; [done|]. by eexists.
Qed.

(** C7 at its failing input: with reveal mode off and one buffered code
    point above U+FFFF, the prompt shows two bullets, not one. *)
Lemma prompt_shows_two_bullets_for_one_astral_code_point :
  let s := keys env0 lockedNormal [key 0x0101F600 0] in
  _passwordPromptRevealed s = false
  /\ JS.codePoints (_passwordBuffer s) = [0x1F600]
  /\ text <$> _passwordPrompt s = Some [PASSWORD_BULLET; PASSWORD_BULLET]
  /\ text <$> _passwordPrompt s
     <> Some (JS.repeat1 PASSWORD_BULLET (length (JS.codePoints (_passwordBuffer s)))).
Proof. by vm_compute. Qed.

Section Buffer.
Variable env : Env.

Lemma codePoints_without_surrogates (b : jsstring) :
  Forall (fun u => JS.isHighSurrogate u = false) b -> JS.codePoints b = b.
Proof.
  induction 1 as [|u b Hu _ IH]; [done|].
  cbn [JS.codePoints]. destruct b as [|v b']; [done|].
  rewrite Hu. cbn [andb]. by rewrite IH.
Qed.

(** With no prompt script installed, the prompt shows bullets, one per
    code unit of the buffer, unless reveal mode is on. *)
Lemma updatePasswordPrompt_text s p :
  custom_js env = None -> _passwordPrompt s = Some p ->
  text <$> _passwordPrompt (_updatePasswordPrompt env s) =
    Some (if _passwordPromptRevealed s then _passwordBuffer s
          else JS.repeat1 PASSWORD_BULLET (length (_passwordBuffer s))).
Proof.
  intros Hc Hp. unfold _updatePasswordPrompt. rewrite Hp, Hc. done.
Qed.

Lemma updatePasswordPrompt_masks_bmp s p :
  custom_js env = None -> _passwordPrompt s = Some p ->
  _passwordPromptRevealed s = false ->
  Forall (fun u => JS.isHighSurrogate u = false) (_passwordBuffer s) ->
  text <$> _passwordPrompt (_updatePasswordPrompt env s) =
    Some (JS.repeat1 PASSWORD_BULLET (length (JS.codePoints (_passwordBuffer s)))).
Proof.
  intros Hc Hp Hr Hb. rewrite (updatePasswordPrompt_text s p Hc Hp), Hr.
  by rewrite codePoints_without_surrogates.
Qed.

Lemma accepted_step s k cp :
  accepted env s k cp -> cp <= 0xFFFF -> _locked s = true ->
  let s' := step env s (KeyPress k) in
  _locked s' = true /\ _passwordBuffer s' = _passwordBuffer s ++ [cp].
Proof.
  intros (Hd & Hz & c & Hc & Hk) Hcp Hl. cbv zeta. cbn [step]. rewrite Hk. cbn [fst].
  match goal with |- context [_updatePasswordPrompt env ?x] =>
    destruct (updatePasswordPrompt_fields env x) as (-> & -> & _) end.
  destruct (resetPasswordTimeout_fields env s) as (Rl & Rb & _).
  simpl. rewrite Rl. split; [done|]. f_equal.
  unfold JS.fromCodePoint in Hc.
  destruct ((cp <? 0) || (0x10FFFF <? cp)); [done|].
  destruct (Z.leb_spec cp 0xFFFF); [congruence|lia].
Qed.

Lemma acceptedBmp_length ks : forall s,
  _locked s = true -> acceptedBmp env s ks ->
  _locked (keys env s ks) = true
  /\ length (_passwordBuffer (keys env s ks)) = (length (_passwordBuffer s) + length ks)%nat.
Proof.
  induction ks as [|k ks IH]; intros s Hl Ha.
  - unfold keys, run. simpl. split; [done|lia].
  - destruct Ha as [(cp & Hacc & Hcp) Ha].
    destruct (accepted_step s k cp Hacc Hcp Hl) as (L1 & B1).
    destruct (IH _ L1 Ha) as (L2 & B2).
    unfold keys, run in *. cbn [map fold_left].
    split; [done|]. rewrite B2, B1, length_app. simpl. lia.
Qed.

Lemma backspaces_shorten bs : forall s,
  _locked s = true -> Forall (fun e => isBackSpace e = true) bs ->
  _locked (keys env s bs) = true
  /\ length (_passwordBuffer (keys env s bs)) = (length (_passwordBuffer s) - length bs)%nat.
Proof.
  induction bs as [|b bs IH]; intros s Hl Hb.
  - unfold keys, run. simpl. split; [done|lia].
  - apply Forall_cons in Hb as [Hb Hbs].
    assert (H1 : _locked (step env s (KeyPress b)) = true
                 /\ length (_passwordBuffer (step env s (KeyPress b)))
                    = (length (_passwordBuffer s) - 1)%nat).
    { cbn [step]. rewrite onKeyPress_BackSpace by done. cbn [fst]. cbv zeta.
      match goal with |- context [_updatePasswordPrompt env ?x] =>
        destruct (updatePasswordPrompt_fields env x) as (-> & -> & _) end.
      destruct (resetPasswordTimeout_fields env s) as (Rl & Rb & _).
      rewrite Rb.
      destruct (_passwordBuffer s) as [|u l] using rev_ind.
      - simpl. by rewrite Rl, Rb.
      - rewrite length_app. simpl length.
        destruct (Nat.ltb_spec 0 (length l + 1)); [|lia].
        simpl. unfold JS.slice_0_m1. rewrite removelast_last. split; [by rewrite Rl|lia]. }
    destruct H1 as (L1 & B1).
    destruct (IH _ L1 Hbs) as (L2 & B2).
    unfold keys, run in *. cbn [map fold_left].
    split; [done|]. rewrite B2, B1. simpl. lia.
Qed.

(** The round trip holds as long as every accepted character lies in the
    basic multilingual plane. *)
Lemma backspace_roundtrip_bmp s ks bs :
  _locked s = true -> _passwordBuffer s = [] ->
  acceptedBmp env s ks ->
  Forall (fun e => isBackSpace e = true) bs -> length bs = length ks ->
  _passwordBuffer (keys env (keys env s ks) bs) = [].
Proof.
  intros Hl Hb Ha Hbs Hlen.
  destruct (acceptedBmp_length ks s Hl Ha) as (L1 & B1).
  destruct (backspaces_shorten bs _ L1 Hbs) as (_ & B2).
  apply length_zero_iff_nil. rewrite B2, B1, Hb. simpl. lia.
Qed.

End Buffer.


Lemma helper_invocation_witness :
  argv (_verifyPassword env0 [0x61])
  = ["python3"%string; "-B"%string; "/ext/polkit-auth-helper.py"%string]
  /\ stdin_buf (_verifyPassword env0 [0x61]) = [0x61; 0x0a].
Proof.
  destruct (helper_invocation_independent_of_candidate env0 [0x61] [0x62; 0x63])
    as (Ha & _ & Hs & _).
  split; [exact Ha | exact Hs].
Defined.

Example fromCodePoint_astral : JS.fromCodePoint 0x1F600 = Some [0xD83D; 0xDE00].
Proof. reflexivity. Qed.

Example decode_keypad_7 : decodeKeychar env0 (key 0xffb7 0) = 0x37.
Proof. reflexivity. Qed.

Example decode_function_key : decodeKeychar env0 (key 0xffbe 0) = 0.
Proof. reflexivity. Qed.

Example password_then_enter :
  let s := keys env0 locked0 [key 0x61 0; key 0x62 1; key KEY_Return 2] in
  _passwordBuffer s = []
  /\ map stdin_buf (pending s) = [[0x61; 0x62; 0x0a]].
Proof. by vm_compute. Qed.

Example wrong_password_keeps_the_lock :
  let s := run env0 locked0
             [KeyPress (key 0x61 0); KeyPress (key KEY_Return 1);
              AuthResolved 0 false] in
  _locked s = true /\ _passwordBuffer s = [] /\ pending s = [].
Proof. by vm_compute. Qed.

Example right_password_unlocks :
  let s := run env0 locked0
             [KeyPress (key 0x61 0); KeyPress (key KEY_Return 1);
              AuthResolved 0 true] in
  _locked s = false /\ _passwordBuffer s = [] /\ pending s = [].
Proof. by vm_compute. Qed.

Example backspace_roundtrip_ab :
  _passwordBuffer
    (keys env0 (keys env0 locked0 [key 0x61 0; key 0x62 1])
       [key KEY_BackSpace 2; key KEY_BackSpace 3]) = [].
Proof.
  apply backspace_roundtrip_bmp; try done.
  - split; [exists 0x61|split; [exists 0x62|done] ];
      (split; [|done]); (split; [done|]); (split; [done|]); by eexists.
  - by repeat constructor.
Qed.

Example prompt_reveal_toggle :
  let ctrl_r := {| get_key_symbol := KEY_r; get_state := CONTROL_MASK;
                   get_key_unicode := 0; now := 2 |} in
  text <$> _passwordPrompt (keys env0 lockedNormal [key 0x61 0; key 0x62 1])
    = Some [PASSWORD_BULLET; PASSWORD_BULLET]
  /\ text <$> _passwordPrompt (keys env0 lockedNormal [key 0x61 0; key 0x62 1; ctrl_r])
    = Some [0x61; 0x62].
Proof. by vm_compute. Qed.

End EngineFacts.

(** ** Media pause and resume; the overlay's screenshots *)

Module MediaFacts.
Import Media.

Section WithBus.
Variable bus : Bus.

Lemma pausePlayer_spec s playerName :
  _pausePlayer bus s playerName =
    {| _pausedPlayers :=
         _pausedPlayers s ++ (if pausedOk bus playerName then [playerName] else []);
       calls := calls s ++ pauseCalls bus playerName |}.
Proof.
  unfold _pausePlayer, pausedOk, pauseCalls, isPlaying, call, push.
  destruct s as [pp cs]. simpl.
  destruct (playbackStatus bus playerName) as [status|]; simpl.
  - destruct (String.eqb status "Playing"%string); simpl.
    + destruct (pause_ok bus playerName); simpl;
        by rewrite <- ?app_assoc, ?app_nil_r.
    + by rewrite app_nil_r.
  - by rewrite app_nil_r.
Qed.

Lemma pausePlayers_spec players : forall s,
  fold_left (_pausePlayer bus) players s =
    {| _pausedPlayers := _pausedPlayers s ++ List.filter (pausedOk bus) players;
       calls := calls s ++ flat_map (pauseCalls bus) players |}.
Proof.
  induction players as [|p players IH]; intros s.
  - simpl. destruct s. simpl. by rewrite !app_nil_r.
  - cbn [fold_left]. rewrite IH, pausePlayer_spec. simpl.
    destruct (pausedOk bus p); simpl; by rewrite <- !app_assoc.
Qed.

End WithBus.

End MediaFacts.


Module OverlayFacts.
Import Overlay.

Lemma destroy_effects shots : forall es,
  fold_left (fun es ss => es ++ destroyOne ss) shots es
  = es ++ flat_map destroyOne shots.
Proof.
  induction shots as [|ss shots IH]; intros es.
  - simpl. by rewrite app_nil_r.
  - cbn [fold_left flat_map]. rewrite IH. by rewrite <- app_assoc.
Qed.

Lemma unlinked_app es es' : unlinked (es ++ es') = unlinked es ++ unlinked es'.
Proof. unfold unlinked. apply omap_app. Qed.

Lemma created_app es es' : created (es ++ es') = created es ++ created es'.
Proof. unfold created. apply omap_app. Qed.

Lemma unlinked_destroyOne shots :
  unlinked (flat_map destroyOne shots) = map file shots.
Proof.
  induction shots as [|ss shots IH]; [done|].
  cbn [flat_map]. rewrite unlinked_app, IH. done.
Qed.

Lemma created_destroyOne shots : created (flat_map destroyOne shots) = [].
Proof.
  induction shots as [|ss shots IH]; [done|].
  cbn [flat_map]. by rewrite created_app, IH.
Qed.

(** What [_screenshotAreaToFile] does to the file system: it creates the
    file unless [replace] throws, and unlinks nothing. *)
Lemma screenshotAreaToFile_effects p m f :
  created (fst (_screenshotAreaToFile p m f))
  = (if replace_throws p f then [] else [f])
  /\ unlinked (fst (_screenshotAreaToFile p m f)) = [].
Proof.
  unfold _screenshotAreaToFile, legacyCapture.
  destruct (replace_throws p f); [done|]. cbv zeta.
  destruct (area_stream p m f) as [| |[|ok|ok used] ]; done.
Qed.

(** One capture: the file created, the file recorded, and no unlink. *)
Lemma captureMonitor_spec p s i m :
  let s' := fst (_captureMonitor p s i m) in
  let r := snd (_screenshotAreaToFile p m (tmpFilename p i)) in
  _screenshots s'
  = _screenshots s ++
      (if success r
       then [{| widget := widgets s; file := filenameUsed r; monitor := i |}] else [])
  /\ exists es, effects s' = effects s ++ es
       /\ created es = (if replace_throws p (tmpFilename p i) then []
                        else [tmpFilename p i])
       /\ unlinked es = [].
Proof.
  cbv zeta. unfold _captureMonitor. cbv zeta.
  destruct (screenshotAreaToFile_effects p m (tmpFilename p i)) as [Hc Hu].
  destruct (_screenshotAreaToFile p m (tmpFilename p i)) as [es r]. cbn [fst snd] in *.
  destruct (success r); cbn [negb fst _screenshots effects widgets].
  - split; [done|]. exists (es ++ [AddChild (widgets s)]).
    rewrite app_assoc, created_app, unlinked_app, Hc, Hu. simpl.
    by rewrite app_nil_r.
  - rewrite app_nil_r. split; [done|]. by exists es.
Qed.

Lemma captureScreens_spec p monitors : forall s,
  exists ws es,
    _screenshots (captureScreens p monitors s) = _screenshots s ++ ws
    /\ map file ws = capturedFiles p monitors
    /\ effects (captureScreens p monitors s) = effects s ++ es
    /\ created es = createdFiles p monitors
    /\ unlinked es = [].
Proof.
  unfold captureScreens, capturedFiles, createdFiles.
  generalize (imap (fun i m => (i, m)) monitors). intros ims.
  induction ims as [|[i m] ims IH]; intros s.
  - exists [], []. simpl. by rewrite !app_nil_r.
  - cbn [fold_left omap list_omap fst snd].
    destruct (captureMonitor_spec p s i m) as (Hs1 & es1 & He1 & Hc1 & Hu1).
    cbv zeta in Hs1, He1.
    destruct (IH (fst (_captureMonitor p s i m))) as (ws & es & Hs & Hf & He & Hc & Hu).
    rewrite Hs, He, Hs1, He1, <- !app_assoc.
    eexists _, (es1 ++ es). split; [done|].
    rewrite created_app, unlinked_app, Hc1, Hu1, Hc, Hu.
    split; [|split; [done|split; [|done] ] ].
    + rewrite map_app, Hf.
      by destruct (success (snd (_screenshotAreaToFile p m (tmpFilename p i)))).
    + by destruct (replace_throws p (tmpFilename p i)).
Qed.

(** From whatever state the overlay is destroyed, the recorded list is
    empty afterwards and an unlink has been attempted, in order, for the
    file of every recorded screenshot. *)
Lemma destroy_unlinks_recorded s :
  _screenshots (destroy s) = []
  /\ exists es, effects (destroy s) = effects s ++ es
       /\ unlinked es = map file (_screenshots s) /\ created es = [].
Proof.
  split; [done|]. unfold destroy. simpl. rewrite destroy_effects.
  eexists. rewrite <- app_assoc. split; [done|].
  rewrite unlinked_app, created_app, unlinked_destroyOne, created_destroyOne.
  simpl. by rewrite app_nil_r.
Qed.

(** A lock session of the overlay: the files created are those whose
    [replace] returned, the files unlinked are those of the captures that
    succeeded. *)
Lemma session_files p monitors :
  let s := destroy (captureScreens p monitors init) in
  created (effects s) = createdFiles p monitors
  /\ unlinked (effects s) = capturedFiles p monitors.
Proof.
  cbv zeta.
  destruct (captureScreens_spec p monitors init) as (ws & es & Hs & Hf & He & Hc & Hu).
  destruct (destroy_unlinks_recorded (captureScreens p monitors init))
    as (_ & es' & He' & Hu' & Hc').
  rewrite He', He, created_app, unlinked_app, created_app, unlinked_app.
  rewrite Hc, Hu, Hc', Hu', Hs. simpl. by rewrite app_nil_r, Hf.
Qed.

(** C10: the file of a capture that fails or times out is created all
    the same, is not recorded, and is not unlinked by [destroy].  On a
    shell that takes the stream signature, with two monitors of which the
    second capture times out, both files are created and only the first
    is unlinked. *)
Theorem failed_capture_leaves_its_file :
  let s1 := captureScreens platform0 monitors0 init in
  let s2 := destroy s1 in
  map file (_screenshots s1) = ["/tmp/stealth-lock-0-1.png"%string]
  /\ _screenshots s2 = []
  /\ created (effects s2)
     = ["/tmp/stealth-lock-0-1.png"%string; "/tmp/stealth-lock-1-2.png"%string]
  /\ unlinked (effects s2) = ["/tmp/stealth-lock-0-1.png"%string]
  /\ In (Replace "/tmp/stealth-lock-1-2.png"%string) (effects s2)
  /\ ~ In (Unlink "/tmp/stealth-lock-1-2.png"%string) (effects s2).
Proof.
  cbv zeta. split; [reflexivity|]. split; [reflexivity|].
  split; [reflexivity|]. split; [reflexivity|]. split.
  - vm_compute. tauto.
  - vm_compute. intros H. repeat (destruct H as [H|H]; [discriminate H|]). exact H.
Qed.

Example destroy_effects_two_monitors :
  effects (destroy (captureScreens platform0 monitors0 init))
  = [Replace "/tmp/stealth-lock-0-1.png"%string;
     ScreenshotArea {| x := 0; y := 0; width := 1920; height := 1080 |}
       (ToStream "/tmp/stealth-lock-0-1.png"%string);
     AddChild 0;
     Replace "/tmp/stealth-lock-1-2.png"%string;
     ScreenshotArea {| x := 1920; y := 0; width := 1920; height := 1080 |}
       (ToStream "/tmp/stealth-lock-1-2.png"%string);
     WidgetDestroy 0; Unlink "/tmp/stealth-lock-0-1.png"%string;
     SuperDestroy].
Proof. reflexivity. Qed.

End OverlayFacts.

(** ** The verification promise *)

Module VerifierFacts.

Import Verifier.

Lemma step_settled r e : settled r -> step r e = r.
Proof.
  intros [Hf Ht]. destruct r as [f t rs fe la]. simpl in *. subst.
  destruct e as [|c]; [done|]. by destruct c.
Qed.

Lemma run_settled es : forall r, settled r -> run r es = r.
Proof.
  induction es as [|e es IH]; intros r Hr; [done|].
  unfold run in *. cbn [fold_left]. rewrite step_settled by done. by apply IH.
Qed.

Lemma first_event_settles lastExit e :
  settled (step (start Started lastExit) e).
Proof. destruct e as [|[ [ | | ] | ] ]; by split. Qed.

Lemma run_started lastExit e es :
  run (start Started lastExit) (e :: es) = step (start Started lastExit) e.
Proof.
  change (run (start Started lastExit) (e :: es))
    with (run (step (start Started lastExit) e) es).
  apply run_settled, first_event_settles.
Qed.

Lemma resolved_true_step r e :
  In true (resolved (step r e)) ->
  In true (resolved r) \/ e = CommunicateDone (Finish (Exited 0)).
Proof.
  destruct r as [f t rs fe la].
  destruct e as [|c]; simpl.
  - unfold onTimeout. simpl. destruct t; simpl; [|by left].
    destruct f; simpl; [by left|].
    rewrite in_app_iff. simpl. intros [H|[H|[]]]; [by left|done].
  - unfold onCommunicate. simpl. destruct f; simpl; [by left|].
    rewrite in_app_iff. simpl. intros [H|[H|[]]]; [by left|].
    destruct c as [e|]; [|done].
    apply Z.eqb_eq in H. right. destruct e as [st|sig|]; simpl in H.
    + by subst.
    + lia.
    + done.
Qed.

(** X1: whatever callbacks arrive and however the helper was started,
    [_verifyPassword] calls [resolve(true)] only from the completion
    callback of a helper that exited with status 0; a helper that could
    not be started, that was killed by a signal, whose result could not
    be read, or that timed out never yields success. *)
Theorem success_only_on_exit_status_zero o lastExit es :
  In true (resolved (run (start o lastExit) es)) ->
  In (CommunicateDone (Finish (Exited 0))) es.
Proof.
  assert (G : forall es r, In true (resolved (run r es)) ->
            In true (resolved r) \/ In (CommunicateDone (Finish (Exited 0))) es).
  { clear. induction es as [|e es IH]; intros r H; [by left|].
    unfold run in *. cbn [fold_left] in H.
    destruct (IH _ H) as [H'|H']; [|right; by right].
    destruct (resolved_true_step r e H') as [?| ->]; [by left|right; by left]. }
  intros H. destruct (G _ _ H) as [H'|H']; [|done].
  exfalso. destruct o; simpl in H'; intuition discriminate.
Qed.

(** X2: once the helper runs, the first callback to arrive decides the
    verification: [resolve] is called exactly once, with [true] only for
    exit status 0; that callback sets [finished] and leaves no timer, and
    no later callback changes anything. *)
Theorem first_event_decides_outcome lastExit e es :
  let r := run (start Started lastExit) (e :: es) in
  resolved r = [outcomeOf e]
  /\ finished r = true /\ timeoutId r = false
  /\ r = step (start Started lastExit) e.
Proof.
  cbv zeta.
  rewrite run_started. split; [|split; [|split] ]; try done;
    try (by destruct e as [|[ [ | | ] | ] ]).
  destruct e as [|[ [st|sig| ] | ] ]; simpl; try done.
  destruct (Z.eqb_spec (128 + Z.of_N sig) 0); [lia|done].
Qed.

(** X3: when the 10 s timer fires first, the helper is killed once,
    the verification fails and [_lastAuthExitCode] keeps its old value;
    when the helper completes first, it is not killed, the timer is
    removed and [_lastAuthExitCode] is the exit status, 128 plus the
    signal number, or -1. *)
Theorem timeout_kills_completion_disarms lastExit es :
  (let r := run (start Started lastExit) (TimeoutFired :: es) in
   force_exits r = 1%nat /\ resolved r = [false]
   /\ _lastAuthExitCode r = lastExit)
  /\ (forall c,
       let r := run (start Started lastExit) (CommunicateDone c :: es) in
       force_exits r = 0%nat /\ timeoutId r = false
       /\ _lastAuthExitCode r =
            Some (match c with Finish e => exitCodeOf e | FinishThrows => -1 end)).
Proof.
  split.
  - cbv zeta. by rewrite run_started.
  - intros c. cbv zeta. rewrite run_started. by destruct c.
Qed.

Lemma success_only_on_exit_status_zero_witness :
  In (CommunicateDone (Finish (Exited 0)))
     [CommunicateDone (Finish (Exited 0)); TimeoutFired].
Proof.
  apply (success_only_on_exit_status_zero Started None). simpl. by left.
Defined.

Lemma first_event_decides_outcome_witness :
  resolved (run (start Started None)
              [CommunicateDone (Finish (Exited 1)); TimeoutFired]) = [false].
Proof.
  exact (proj1 (first_event_decides_outcome None
                  (CommunicateDone (Finish (Exited 1))) [TimeoutFired])).
Defined.

Lemma timeout_kills_witness :
  force_exits (run (start Started None)
                 [TimeoutFired; CommunicateDone (Finish (Signaled 9))]) = 1%nat.
Proof.
  exact (proj1 (proj1 (timeout_kills_completion_disarms None
                         [CommunicateDone (Finish (Signaled 9))]))).
Defined.

Example wrong_password_exit_1 :
  resolved (run (start Started None) [CommunicateDone (Finish (Exited 1))]) = [false].
Proof. reflexivity. Qed.

Example killed_after_timeout :
  let r := run (start Started None)
             [TimeoutFired; CommunicateDone (Finish (Signaled 9))] in
  resolved r = [false] /\ force_exits r = 1%nat /\ _lastAuthExitCode r = None.
Proof. by vm_compute. Qed.

End VerifierFacts.

(** ** The overlay's geometry *)

Module LayoutFacts.

Import Overlay Layout.

Lemma grow_monotone ms : forall acc,
  let r := fold_left grow ms acc in
  bx r <= bx acc /\ by_ r <= by_ acc /\ maxX acc <= maxX r /\ maxY acc <= maxY r.
Proof.
  induction ms as [|m ms IH]; intros acc; cbv zeta; [simpl; lia|].
  cbn [fold_left]. specialize (IH (grow acc m)). cbv zeta in IH.
  assert (bx (grow acc m) <= bx acc /\ by_ (grow acc m) <= by_ acc
          /\ maxX acc <= maxX (grow acc m) /\ maxY acc <= maxY (grow acc m))
    by (simpl; lia).
  lia.
Qed.

Lemma grow_covers ms : forall acc m, In m ms ->
  let r := fold_left grow ms acc in
  bx r <= x m /\ by_ r <= y m
  /\ x m + width m <= maxX r /\ y m + height m <= maxY r.
Proof.
  induction ms as [|m' ms IH]; intros acc m Hin; [done|].
  cbn [fold_left]. destruct Hin as [->|Hin].
  - pose proof (grow_monotone ms (grow acc m)) as H. cbv zeta in *.
    assert (bx (grow acc m) <= x m /\ by_ (grow acc m) <= y m
            /\ x m + width m <= maxX (grow acc m)
            /\ y m + height m <= maxY (grow acc m))
      by (simpl; lia).
    lia.
  - by apply IH.
Qed.

(** Every bound is attained: by the initial accumulator or by a monitor. *)
Lemma grow_attained ms : forall acc,
  let r := fold_left grow ms acc in
  (bx r = bx acc \/ exists m, In m ms /\ bx r = x m)
  /\ (by_ r = by_ acc \/ exists m, In m ms /\ by_ r = y m)
  /\ (maxX r = maxX acc \/ exists m, In m ms /\ maxX r = x m + width m)
  /\ (maxY r = maxY acc \/ exists m, In m ms /\ maxY r = y m + height m).
Proof.
  induction ms as [|m ms IH]; intros acc; cbv zeta.
  - simpl. repeat split; by left.
  - cbn [fold_left]. destruct (IH (grow acc m)) as (H1 & H2 & H3 & H4).
    repeat split.
    + destruct H1 as [H1|(m' & Hm & H1)]; [|right; exists m'; split; [by right|done] ].
      rewrite H1. simpl.
      destruct (Z.min_spec (bx acc) (x m)) as [[_ ->]|[_ ->] ]; [by left|].
      right. exists m. split; [by left|done].
    + destruct H2 as [H2|(m' & Hm & H2)]; [|right; exists m'; split; [by right|done] ].
      rewrite H2. simpl.
      destruct (Z.min_spec (by_ acc) (y m)) as [[_ ->]|[_ ->] ]; [by left|].
      right. exists m. split; [by left|done].
    + destruct H3 as [H3|(m' & Hm & H3)]; [|right; exists m'; split; [by right|done] ].
      rewrite H3. simpl.
      destruct (Z.max_spec (maxX acc) (x m + width m)) as [[_ ->]|[_ ->] ];
        [|by left]. right. exists m. split; [by left|done].
    + destruct H4 as [H4|(m' & Hm & H4)]; [|right; exists m'; split; [by right|done] ].
      rewrite H4. simpl.
      destruct (Z.max_spec (maxY acc) (y m + height m)) as [[_ ->]|[_ ->] ];
        [|by left]. right. exists m. split; [by left|done].
Qed.

(** X4: the rectangle of [_getMonitorsRect] contains every monitor, and
    the background widget [_captureMonitor] creates for a monitor, placed
    relative to the origin [captureScreens] takes from that rectangle,
    has non-negative coordinates and lies inside the rectangle (also with
    monitors at negative coordinates). *)
Theorem monitors_rect_contains_every_monitor monitors m :
  In m monitors ->
  let rect := _getMonitorsRect monitors in
  let bg := bgGeometry monitors m in
  (x rect <= x m /\ x m + width m <= x rect + width rect
   /\ y rect <= y m /\ y m + height m <= y rect + height rect)
  /\ (0 <= x bg /\ x bg + width bg <= width rect
      /\ 0 <= y bg /\ y bg + height bg <= height rect).
Proof.
  intros Hin. unfold bgGeometry. cbv zeta.
  destruct monitors as [|first rest]; [done|].
  unfold _getMonitorsRect. cbv zeta.
  set (initial := {| bx := x first; by_ := y first;
                     maxX := x first + width first;
                     maxY := y first + height first |}).
  pose proof (grow_covers (first :: rest) initial m Hin) as H. cbv zeta in H.
  set (r := fold_left grow (first :: rest) initial) in *. clearbody r.
  simpl. lia.
Qed.

(** X5: [_getMonitorsRect] of no monitors is the empty rectangle at the
    origin; otherwise each of its four edges is an edge of some monitor,
    so it is the smallest rectangle containing them all. *)
Theorem monitors_rect_is_tight monitors :
  _getMonitorsRect [] = {| x := 0; y := 0; width := 0; height := 0 |}
  /\ (monitors <> [] ->
      let rect := _getMonitorsRect monitors in
      (exists m, In m monitors /\ x rect = x m)
      /\ (exists m, In m monitors /\ y rect = y m)
      /\ (exists m, In m monitors /\ x rect + width rect = x m + width m)
      /\ (exists m, In m monitors /\ y rect + height rect = y m + height m)).
Proof.
  split; [done|]. intros Hne. destruct monitors as [|first rest]; [done|].
  unfold _getMonitorsRect. cbv zeta.
  set (initial := {| bx := x first; by_ := y first;
                     maxX := x first + width first;
                     maxY := y first + height first |}).
  destruct (grow_attained (first :: rest) initial) as (H1 & H2 & H3 & H4).
  set (r := fold_left grow (first :: rest) initial) in *. clearbody r.
  simpl.
  repeat split.
  - destruct H1 as [H1|H1]; [|done]. exists first. split; [by left|]. by rewrite H1.
  - destruct H2 as [H2|H2]; [|done]. exists first. split; [by left|]. by rewrite H2.
  - destruct H3 as [H3|(m & Hm & H3)].
    + exists first. split; [by left|]. rewrite H3. simpl. lia.
    + exists m. split; [done|]. lia.
  - destruct H4 as [H4|(m & Hm & H4)].
    + exists first. split; [by left|]. rewrite H4. simpl. lia.
    + exists m. split; [done|]. lia.
Qed.

Lemma monitors_rect_contains_witness :
  let m := {| x := -1280; y := 56; width := 1280; height := 1024 |} in
  let ms := [ {| x := 0; y := 0; width := 1920; height := 1080 |}; m ] in
  0 <= x (bgGeometry ms m)
  /\ x (bgGeometry ms m) + width (bgGeometry ms m) <= width (_getMonitorsRect ms).
Proof.
  cbv zeta.
  destruct (monitors_rect_contains_every_monitor
              [ {| x := 0; y := 0; width := 1920; height := 1080 |};
                {| x := -1280; y := 56; width := 1280; height := 1024 |} ]
              {| x := -1280; y := 56; width := 1280; height := 1024 |}
              ltac:(right; left; reflexivity)) as (_ & H1 & H2 & _).
  split; [exact H1 | exact H2].
Defined.

Lemma monitors_rect_tight_witness :
  exists m, In m Overlay.monitors0
            /\ x (_getMonitorsRect Overlay.monitors0) = x m.
Proof.
  destruct (monitors_rect_is_tight Overlay.monitors0) as (_ & H).
  destruct (H ltac:(discriminate)) as (H1 & _). exact H1.
Defined.

Example monitors_rect_two_monitors :
  _getMonitorsRect
    [ {| x := 0; y := 0; width := 1920; height := 1080 |};
      {| x := -1280; y := 56; width := 1280; height := 1024 |} ]
  = {| x := -1280; y := 0; width := 3200; height := 1080 |}.
Proof. reflexivity. Qed.

End LayoutFacts.

(** ** Pointer events and the prompt that follows the pointer *)

Module InputGateFacts.

Import Clutter InputGate.

Lemma isPointerInPasswordPrompt_spec g ex ey :
  _isPointerInPasswordPrompt g ex ey = true <->
  exists p o, _passwordPrompt g = Some p /\ _overlay g = Some o
    /\ x o + x (actor p) <= ex <= x o + x (actor p) + promptW p
    /\ y o + y (actor p) <= ey <= y o + y (actor p) + promptH p.
Proof.
  unfold _isPointerInPasswordPrompt.
  destruct (_passwordPrompt g) as [p|], (_overlay g) as [o|]; cbv zeta.
  - rewrite !andb_true_iff, !Z.leb_le. split.
    + intros (((? & ?) & ?) & ?). exists p, o. repeat split; done.
    + intros (p' & o' & [= <-] & [= <-] & ? & ?). lia.
  - split; [done|]. by intros (? & ? & _ & ? & _).
  - split; [done|]. by intros (? & ? & ? & _).
  - split; [done|]. by intros (? & ? & ? & _).
Qed.

Lemma clamp_range p overlaySize promptSize :
  0 <= clamp p overlaySize promptSize <= Z.max 0 (overlaySize - promptSize).
Proof. unfold clamp. lia. Qed.

Lemma clamp_id p overlaySize promptSize :
  0 <= p <= overlaySize - promptSize -> clamp p overlaySize promptSize = p.
Proof. unfold clamp. lia. Qed.

Lemma setPositionFromStage_prompt sx sy g p o :
  _passwordPrompt g = Some p -> _overlay g = Some o ->
  exists px py,
    _setPasswordPromptPositionFromStage sx sy g
      = with_prompt (Some (set_position (clamp px (width o) (promptW p))
                                        (clamp py (height o) (promptH p)) p)) g.
Proof.
  intros Hp Ho. unfold _setPasswordPromptPositionFromStage. rewrite Hp, Ho.
  cbv zeta.
  destruct (String.eqb (anchor g) "tr"); [by eexists _, _|].
  destruct (String.eqb (anchor g) "tl"); [by eexists _, _|].
  destruct (String.eqb (anchor g) "bl"); by eexists _, _.
Qed.

Lemma placed_inside g p o px py :
  _passwordPrompt g = Some p -> _overlay g = Some o -> promptFits g ->
  promptInsideOverlay
    (with_prompt (Some (set_position (clamp px (width o) (promptW p))
                                     (clamp py (height o) (promptH p)) p)) g).
Proof.
  intros Hp Ho Hfit. unfold promptFits in Hfit. rewrite Hp, Ho in Hfit.
  unfold promptInsideOverlay. simpl. rewrite Ho.
  change (promptW (set_position _ _ p)) with (promptW p).
  change (promptH (set_position _ _ p)) with (promptH p).
  pose proof (clamp_range px (width o) (promptW p)).
  pose proof (clamp_range py (height o) (promptH p)). lia.
Qed.

(** X6: while locked, the [captured-event] handler lets key events
    through unchanged and either propagates or stops every other event;
    it propagates one only if it is a motion or button event whose
    pointer lies on the password prompt; with no prompt, as with the
    stealth lock type, every such event is stopped.  Coordinates are
    whole pixels. *)
Theorem pointer_events_outside_prompt_are_stopped type ex ey g :
  _locked g = true ->
  let g' := fst (capturedEvent type ex ey g) in
  let ret := snd (capturedEvent type ex ey g) in
  (type = KEY_PRESS \/ type = KEY_RELEASE -> ret = EVENT_PROPAGATE /\ g' = g)
  /\ (type <> KEY_PRESS -> type <> KEY_RELEASE ->
      (ret = EVENT_PROPAGATE \/ ret = EVENT_STOP)
      /\ (ret = EVENT_PROPAGATE ->
          type <> OTHER
          /\ exists p o, _passwordPrompt g' = Some p /\ _overlay g' = Some o
               /\ x o + x (actor p) <= ex <= x o + x (actor p) + promptW p
               /\ y o + y (actor p) <= ey <= y o + y (actor p) + promptH p)
      /\ (_passwordPrompt g = None -> ret = EVENT_STOP /\ g' = g)).
Proof.
  intros Hl. cbv zeta. unfold capturedEvent. rewrite Hl. cbn [negb].
  split.
  - by intros [-> | ->].
  - intros Hk1 Hk2. destruct type; try done.
    + (* MOTION *)
      set (g1 := if bool_decide (is_Some (_passwordPrompt g)) && followCursor g
                 then _ else g).
      assert (Hg1 : _passwordPrompt g = None -> g1 = g).
      { intros Hn. subst g1. rewrite Hn.
        by rewrite bool_decide_eq_false_2 by (by intros [? ?]). }
      destruct (bool_decide (is_Some (_passwordPrompt g1)) && negb (followCursor g1)
                && _isPointerInPasswordPrompt g1 ex ey) eqn:E; cbn [fst snd].
      * split; [by left|]. split.
        -- intros _. split; [done|].
           apply andb_true_iff in E as [_ E].
           by apply isPointerInPasswordPrompt_spec.
        -- intros Hn. exfalso. rewrite (Hg1 Hn), Hn in E.
           by rewrite bool_decide_eq_false_2 in E by (by intros [? ?]).
      * split; [by right|]. split; [done|].
        intros Hn. split; [done|]. by apply Hg1.
    + destruct (bool_decide (is_Some (_passwordPrompt g))
                && _isPointerInPasswordPrompt g ex ey) eqn:E; cbn [fst snd].
      * split; [by left|]. split.
        -- intros _. split; [done|]. apply andb_true_iff in E as [_ E].
           by apply isPointerInPasswordPrompt_spec.
        -- intros Hn. rewrite Hn in E.
           by rewrite bool_decide_eq_false_2 in E by (by intros [? ?]).
      * split; [by right|]. split; [done|]. done.
    + destruct (bool_decide (is_Some (_passwordPrompt g))
                && _isPointerInPasswordPrompt g ex ey) eqn:E; cbn [fst snd].
      * split; [by left|]. split.
        -- intros _. split; [done|]. apply andb_true_iff in E as [_ E].
           by apply isPointerInPasswordPrompt_spec.
        -- intros Hn. rewrite Hn in E.
           by rewrite bool_decide_eq_false_2 in E by (by intros [? ?]).
      * split; [by right|]. split; [done|]. done.
    + cbn [fst snd]. split; [by right|]. split; [done|]. done.
Qed.

(** X7: [_setPasswordPromptPositionFromStage] always leaves a prompt
    that is no larger than the overlay inside the overlay; with the
    default anchor the prompt sits at the pointer plus the offsets
    whenever that position fits; a motion event with a prompt that
    follows the cursor is stopped and leaves the prompt inside the
    overlay. *)
Theorem prompt_follows_pointer_inside_overlay sx sy g :
  promptFits g ->
  let g' := _setPasswordPromptPositionFromStage sx sy g in
  promptInsideOverlay g'
  /\ (forall p o, _passwordPrompt g = Some p -> _overlay g = Some o ->
      String.eqb (anchor g) "tr" = false -> String.eqb (anchor g) "tl" = false ->
      String.eqb (anchor g) "bl" = false ->
      0 <= sx - x o + offsetX g <= width o - promptW p ->
      0 <= sy - y o + offsetY g <= height o - promptH p ->
      _passwordPrompt g'
        = Some (set_position (sx - x o + offsetX g) (sy - y o + offsetY g) p))
  /\ (_locked g = true -> followCursor g = true ->
      is_Some (_passwordPrompt g) ->
      snd (capturedEvent MOTION sx sy g) = EVENT_STOP
      /\ promptInsideOverlay (fst (capturedEvent MOTION sx sy g))).
Proof.
  intros Hfit. cbv zeta.
  assert (G : forall g0 : Gate, promptFits g0 ->
            promptInsideOverlay (_setPasswordPromptPositionFromStage sx sy g0)).
  { intros g0 Hf.
    destruct (_passwordPrompt g0) as [p|] eqn:Hp, (_overlay g0) as [o|] eqn:Ho.
    - destruct (setPositionFromStage_prompt sx sy g0 p o Hp Ho) as (px & py & ->).
      by apply placed_inside.
    - unfold _setPasswordPromptPositionFromStage, promptInsideOverlay.
      by rewrite Hp, Ho, Hp, Ho.
    - unfold _setPasswordPromptPositionFromStage, promptInsideOverlay.
      by rewrite Hp, Hp.
    - unfold _setPasswordPromptPositionFromStage, promptInsideOverlay.
      by rewrite Hp, Hp. }
  split; [by apply G|]. split.
  - intros p o Hp Ho Htr Htl Hbl Hx Hy.
    unfold _setPasswordPromptPositionFromStage. rewrite Hp, Ho, Htr, Htl, Hbl.
    cbv zeta. simpl. by rewrite (clamp_id _ _ _ Hx), (clamp_id _ _ _ Hy).
  - intros Hl Hf Hs. unfold capturedEvent. rewrite Hl. cbn [negb].
    rewrite (bool_decide_eq_true_2 _ Hs). rewrite Hf. cbn [andb].
    set (g1 := _setPasswordPromptPositionFromStage sx sy _).
    assert (Hf1 : followCursor g1 = true).
    { subst g1. unfold _setPasswordPromptPositionFromStage. simpl.
      destruct (_passwordPrompt g), (_overlay g); try done.
      cbv zeta.
      destruct (String.eqb (anchor g) "tr"); [done|].
      destruct (String.eqb (anchor g) "tl"); [done|].
      by destruct (String.eqb (anchor g) "bl"). }
    rewrite Hf1. cbn [negb]. rewrite andb_false_r. cbn [andb fst snd].
    split; [done|]. subst g1. apply G.
    unfold promptFits in *. simpl. done.
Qed.

Lemma pointer_events_witness :
  snd (capturedEvent BUTTON_PRESS 50 50 (with_prompt None gate0)) = EVENT_STOP
  /\ snd (capturedEvent KEY_PRESS 50 50 gate0) = EVENT_PROPAGATE.
Proof.
  destruct (pointer_events_outside_prompt_are_stopped BUTTON_PRESS 50 50
              (with_prompt None gate0) eq_refl) as (_ & H).
  destruct (H ltac:(discriminate) ltac:(discriminate)) as (_ & _ & H3).
  split; [exact (proj1 (H3 eq_refl))|].
  destruct (pointer_events_outside_prompt_are_stopped KEY_PRESS 50 50 gate0 eq_refl)
    as (Hk & _).
  exact (proj1 (Hk (or_introl eq_refl))).
Defined.

Example click_outside_prompt_is_stopped :
  snd (capturedEvent BUTTON_PRESS 50 50 gate0) = EVENT_STOP
  /\ snd (capturedEvent BUTTON_PRESS 150 220 gate0) = EVENT_PROPAGATE
  /\ snd (capturedEvent MOTION 150 220 gate0) = EVENT_PROPAGATE
  /\ snd (capturedEvent OTHER 150 220 gate0) = EVENT_STOP.
Proof. by vm_compute. Qed.

Lemma prompt_follows_pointer_witness :
  promptInsideOverlay (_setPasswordPromptPositionFromStage 1900 1070 gate0).
Proof.
  refine (proj1 (prompt_follows_pointer_inside_overlay 1900 1070 gate0 _)).
  cbv [promptFits gate0 _passwordPrompt _overlay promptW promptH orElse actor
       width height natW natH Z.eqb]. lia.
Defined.

Example prompt_clamped_at_corner :
  (actor <$> _passwordPrompt (_setPasswordPromptPositionFromStage 1900 1070 gate0))
  = Some {| x := 1620; y := 1032; width := 300; height := 48 |}.
Proof. reflexivity. Qed.

End InputGateFacts.

(** ** The prompt at a fixed position *)

Module PlacementFacts.

Import Clutter InputGate InputGateFacts.

Lemma roundHalf_spec a : 0 <= 2 * roundHalf a - a <= 1.
Proof.
  unfold roundHalf.
  pose proof (Z.div_mod (a + 1) 2 ltac:(lia)).
  pose proof (Z.mod_pos_bound (a + 1) 2 ltac:(lia)). lia.
Qed.

Lemma setPositionFixed_prompt fx fy selected originX originY g p o :
  _passwordPrompt g = Some p -> _overlay g = Some o ->
  exists px py,
    _setPasswordPromptPositionFixed fx fy selected originX originY g
      = with_prompt (Some (set_position (clamp px (width o) (promptW p))
                                        (clamp py (height o) (promptH p)) p)) g.
Proof.
  intros Hp Ho. unfold _setPasswordPromptPositionFixed. rewrite Hp, Ho.
  cbv zeta.
  destruct ((fx <? 0) || (fy <? 0)); [|by eexists _, _].
  destruct selected; by eexists _, _.
Qed.

(** X8: [_setPasswordPromptPositionFixed] leaves a prompt that is no
    larger than the overlay inside the overlay; with negative coordinates
    in both directions it centres the prompt, to within the pixel that
    [Math.round] gives away, in the overlay when no monitor is selected,
    and in the selected monitor when that monitor lies inside the overlay
    and is at least as large as the prompt. *)
Theorem fixed_prompt_is_centred fx fy selected originX originY g :
  promptFits g ->
  let g' := _setPasswordPromptPositionFixed fx fy selected originX originY g in
  promptInsideOverlay g'
  /\ (forall p o, _passwordPrompt g = Some p -> _overlay g = Some o ->
      fx < 0 -> fy < 0 ->
      exists p', _passwordPrompt g' = Some p'
        /\ promptW p' = promptW p /\ promptH p' = promptH p
        /\ match selected with
           | None =>
               0 <= 2 * x (actor p') + promptW p - width o <= 1
               /\ 0 <= 2 * y (actor p') + promptH p - height o <= 1
           | Some m =>
               let mx := Overlay.x m - originX in
               let my := Overlay.y m - originY in
               0 <= mx -> mx + Overlay.width m <= width o ->
               0 <= my -> my + Overlay.height m <= height o ->
               promptW p <= Overlay.width m -> promptH p <= Overlay.height m ->
               (mx <= x (actor p') /\ x (actor p') + promptW p <= mx + Overlay.width m
                /\ 0 <= 2 * (x (actor p') - mx) + promptW p - Overlay.width m <= 1)
               /\ (my <= y (actor p') /\ y (actor p') + promptH p <= my + Overlay.height m
                   /\ 0 <= 2 * (y (actor p') - my) + promptH p - Overlay.height m <= 1)
           end).
Proof.
  intros Hfit. cbv zeta. split.
  - destruct (_passwordPrompt g) as [p|] eqn:Hp, (_overlay g) as [o|] eqn:Ho.
    + destruct (setPositionFixed_prompt fx fy selected originX originY g p o Hp Ho)
        as (px & py & ->).
      by apply placed_inside.
    + unfold _setPasswordPromptPositionFixed, promptInsideOverlay.
      by rewrite Hp, Ho, Hp, Ho.
    + unfold _setPasswordPromptPositionFixed, promptInsideOverlay.
      by rewrite Hp, Hp.
    + unfold _setPasswordPromptPositionFixed, promptInsideOverlay.
      by rewrite Hp, Hp.
  - intros p o Hp Ho Hx Hy.
    unfold promptFits in Hfit. rewrite Hp, Ho in Hfit.
    unfold _setPasswordPromptPositionFixed. rewrite Hp, Ho. cbv zeta.
    destruct (Z.ltb_spec fx 0) as [_|?]; [|lia].
    destruct (Z.ltb_spec fy 0) as [_|?]; [|lia].
    cbn [orb].
    destruct selected as [m|]; cbv zeta; simpl;
      (eexists; split; [reflexivity|]; split; [reflexivity|]; split; [reflexivity|]);
      simpl.
    + intros Hmx0 Hmx1 Hmy0 Hmy1 Hpw Hph.
      pose proof (roundHalf_spec (Overlay.width m - promptW p)).
      pose proof (roundHalf_spec (Overlay.height m - promptH p)).
      unfold clamp. lia.
    + pose proof (roundHalf_spec (width o - promptW p)).
      pose proof (roundHalf_spec (height o - promptH p)).
      unfold clamp. lia.
Qed.

Lemma updatePosition_cases pointer fixed selected originX originY g :
  let g' := _updatePasswordPromptPosition pointer fixed selected originX originY g in
  (g' = g /\ (_passwordPrompt g = None \/ _overlay g = None))
  \/ exists g0 p o px py,
       _passwordPrompt g0 = Some p /\ _overlay g0 = Some o
       /\ _passwordPrompt g = Some p /\ _overlay g = Some o
       /\ followCursor g0 = followCursor g
       /\ g' = with_prompt (Some (set_position (clamp px (width o) (promptW p))
                                               (clamp py (height o) (promptH p)) p)) g0.
Proof.
  cbv zeta. unfold _updatePasswordPromptPosition.
  destruct (_passwordPrompt g) as [p|] eqn:Hp; [|left; split; [done|by left] ].
  destruct (_overlay g) as [o|] eqn:Ho; [|left; split; [done|by right] ].
  cbv zeta. right.
  destruct (followCursor g) eqn:Hfc.
  - destruct (_passwordPromptLastStage g) as [ [sx sy]|].
    + destruct (setPositionFromStage_prompt sx sy g p o Hp Ho) as (px & py & ->).
      by exists g, p, o, px, py.
    + destruct pointer as [ [px0 py0]|].
      * destruct (setPositionFromStage_prompt px0 py0
                    (with_lastStage (Some (px0, py0)) g) p o Hp Ho) as (px & py & ->).
        by exists (with_lastStage (Some (px0, py0)) g), p, o, px, py.
      * destruct (setPositionFixed_prompt (fst fixed) (snd fixed) selected
                    originX originY g p o Hp Ho) as (px & py & ->).
        by exists g, p, o, px, py.
  - destruct (setPositionFixed_prompt (fst fixed) (snd fixed) selected
                originX originY g p o Hp Ho) as (px & py & ->).
    by exists g, p, o, px, py.
Qed.

(** X9: whichever way [_updatePasswordPromptPosition] takes (the last
    pointer position, a fresh pointer query, or the fixed position), it
    leaves a prompt that is no larger than the overlay inside the
    overlay, and the prompt is still no larger than the overlay
    afterwards, so the same holds for the next update. *)
Theorem prompt_position_update_stays_inside pointer fixed selected originX originY g :
  promptFits g ->
  let g' := _updatePasswordPromptPosition pointer fixed selected originX originY g in
  promptInsideOverlay g' /\ promptFits g'
  /\ _overlay g' = _overlay g /\ followCursor g' = followCursor g
  /\ (is_Some (_passwordPrompt g') <-> is_Some (_passwordPrompt g)).
Proof.
  intros Hfit. cbv zeta.
  destruct (updatePosition_cases pointer fixed selected originX originY g)
    as [ [-> Hn]|(g0 & p & o & px & py & Hp0 & Ho0 & Hp & Ho & Hfc & ->)].
  - split; [|done]. unfold promptInsideOverlay.
    destruct Hn as [->| ->]; [done|]. by destruct (_passwordPrompt g).
  - assert (Hfit0 : promptFits g0).
    { unfold promptFits in *. by rewrite Hp0, Ho0; rewrite Hp, Ho in Hfit. }
    split; [by apply placed_inside|]. split.
    + unfold promptFits in *. rewrite Hp0, Ho0 in Hfit0. simpl. by rewrite Ho0.
    + simpl. rewrite Ho0, Ho, Hp. split; [done|]. split; [done|]. split; eauto.
Qed.

Lemma fixed_prompt_witness :
  promptInsideOverlay (_setPasswordPromptPositionFixed (-1) (-1) None 0 0 gate0).
Proof.
  refine (proj1 (fixed_prompt_is_centred (-1) (-1) None 0 0 gate0 _)).
  cbv [promptFits gate0 _passwordPrompt _overlay promptW promptH orElse actor
       width height natW natH Z.eqb]. lia.
Defined.

Example fixed_prompt_centred_on_second_monitor :
  let m := {| Overlay.x := 1920; Overlay.y := 0;
              Overlay.width := 1280; Overlay.height := 1024 |} in
  let g := {| _locked := true;
              _overlay := Some {| x := 0; y := 0; width := 3200; height := 1080 |};
              _passwordPrompt := _passwordPrompt gate0;
              followCursor := false; anchor := "br"%string;
              offsetX := 12; offsetY := 12; _passwordPromptLastStage := None |} in
  actor <$> _passwordPrompt (_setPasswordPromptPositionFixed (-1) (-1) (Some m) 0 0 g)
  = Some {| x := 2410; y := 488; width := 300; height := 48 |}.
Proof. reflexivity. Qed.

Lemma prompt_position_update_witness :
  promptInsideOverlay (_updatePasswordPromptPosition (Some (1900, 1070)) (-1, -1)
                         None 0 0 gate0).
Proof.
  refine (proj1 (prompt_position_update_stays_inside (Some (1900, 1070)) (-1, -1)
                   None 0 0 gate0 _)).
  cbv [promptFits gate0 _passwordPrompt _overlay promptW promptH orElse actor
       width height natW natH Z.eqb]. lia.
Defined.

End PlacementFacts.

(** ** The abort hotkey settings *)

Module HotkeysFacts.

Import Hotkeys.

Lemma getHotkeyAccel_truthy s key fallback :
  truthy fallback = true -> truthy (_getHotkeyAccel s key fallback) = true.
Proof.
  intros Hf. unfold _getHotkeyAccel.
  destruct (get_strv key s) as [|a ?]; [done|]. by destruct (truthy a) eqn:E.
Qed.

Lemma getHotkeyAccel_singleton s key a fallback :
  truthy a = true ->
  _getHotkeyAccel (set_strv key [a] s) key fallback = a.
Proof. intros Ha. unfold _getHotkeyAccel. destruct key; simpl; by rewrite Ha. Qed.

Lemma getHotkeyAccel_other s key key' v fallback :
  key <> key' ->
  _getHotkeyAccel (set_strv key v s) key' fallback = _getHotkeyAccel s key' fallback.
Proof. intros Hne. unfold _getHotkeyAccel. by destruct key, key'. Qed.

(** What one run of the sync does to the settings. *)
Lemma sync_cases s :
  let lockAccel := _getHotkeyAccel s lock_hotkey LOCK_FALLBACK in
  let currentAbort := _getHotkeyAccel s debug_abort_hotkey ABORT_FALLBACK in
  let customAbort := _getHotkeyAccel s debug_abort_hotkey_custom ABORT_FALLBACK in
  _syncAbortHotkeySettings {| _settings := Some s; _abortHotkeySyncing := false |}
  = {| _settings := Some
         (if debug_abort_use_lock_hotkey s then
            if String.eqb currentAbort lockAccel then s
            else set_strv debug_abort_hotkey [lockAccel] s
          else if String.eqb currentAbort lockAccel
                  && negb (String.eqb customAbort lockAccel)
          then set_strv debug_abort_hotkey [customAbort] s
          else if String.eqb currentAbort customAbort then s
          else set_strv debug_abort_hotkey_custom [currentAbort] s);
       _abortHotkeySyncing := false |}.
Proof.
  cbv zeta. unfold _syncAbortHotkeySettings. cbn [_settings _abortHotkeySyncing].
  cbv zeta.
  rewrite (getHotkeyAccel_truthy s lock_hotkey LOCK_FALLBACK eq_refl).
  rewrite (getHotkeyAccel_truthy s debug_abort_hotkey ABORT_FALLBACK eq_refl).
  rewrite (getHotkeyAccel_truthy s debug_abort_hotkey_custom ABORT_FALLBACK eq_refl).
  cbn [andb].
  destruct (debug_abort_use_lock_hotkey s).
  - by destruct (String.eqb _ _).
  - destruct (String.eqb (_getHotkeyAccel s debug_abort_hotkey ABORT_FALLBACK)
                         (_getHotkeyAccel s lock_hotkey LOCK_FALLBACK)); cbn [andb].
    + destruct (String.eqb (_getHotkeyAccel s debug_abort_hotkey_custom ABORT_FALLBACK)
                           (_getHotkeyAccel s lock_hotkey LOCK_FALLBACK)); cbn [negb];
        [|done]. by destruct (String.eqb _ _).
    + by destruct (String.eqb _ _).
Qed.

Lemma use_lock_set_strv key v s :
  debug_abort_use_lock_hotkey (set_strv key v s) = debug_abort_use_lock_hotkey s.
Proof. by destruct key. Qed.

(** The settings the sync computes, and the accelerators they give. *)
Lemma sync_result s :
  exists s',
    _syncAbortHotkeySettings {| _settings := Some s; _abortHotkeySyncing := false |}
      = {| _settings := Some s'; _abortHotkeySyncing := false |}
    /\ debug_abort_use_lock_hotkey s' = debug_abort_use_lock_hotkey s
    /\ _getHotkeyAccel s' lock_hotkey LOCK_FALLBACK
       = _getHotkeyAccel s lock_hotkey LOCK_FALLBACK
    /\ (if debug_abort_use_lock_hotkey s
        then _getHotkeyAccel s' debug_abort_hotkey ABORT_FALLBACK
             = _getHotkeyAccel s lock_hotkey LOCK_FALLBACK
             /\ _getHotkeyAccel s' debug_abort_hotkey_custom ABORT_FALLBACK
                = _getHotkeyAccel s debug_abort_hotkey_custom ABORT_FALLBACK
        else _getHotkeyAccel s' debug_abort_hotkey ABORT_FALLBACK
             = _getHotkeyAccel s' debug_abort_hotkey_custom ABORT_FALLBACK).
Proof.
  pose proof (getHotkeyAccel_truthy s lock_hotkey LOCK_FALLBACK eq_refl) as Tl.
  pose proof (getHotkeyAccel_truthy s debug_abort_hotkey ABORT_FALLBACK eq_refl) as Ta.
  pose proof (getHotkeyAccel_truthy s debug_abort_hotkey_custom ABORT_FALLBACK eq_refl) as Tc.
  eexists. split; [apply sync_cases|].
  destruct (debug_abort_use_lock_hotkey s) eqn:Hu.
  - destruct (String.eqb_spec (_getHotkeyAccel s debug_abort_hotkey ABORT_FALLBACK)
                (_getHotkeyAccel s lock_hotkey LOCK_FALLBACK)) as [E|E].
    + by rewrite Hu, E.
    + rewrite use_lock_set_strv, Hu, getHotkeyAccel_singleton by done.
      by rewrite !getHotkeyAccel_other by done.
  - destruct (String.eqb_spec (_getHotkeyAccel s debug_abort_hotkey ABORT_FALLBACK)
                (_getHotkeyAccel s lock_hotkey LOCK_FALLBACK)) as [E|E]; cbn [andb].
    + destruct (String.eqb_spec (_getHotkeyAccel s debug_abort_hotkey_custom ABORT_FALLBACK)
                  (_getHotkeyAccel s lock_hotkey LOCK_FALLBACK)) as [E'|E']; cbn [negb].
      * assert (String.eqb (_getHotkeyAccel s debug_abort_hotkey ABORT_FALLBACK)
                  (_getHotkeyAccel s debug_abort_hotkey_custom ABORT_FALLBACK) = true)
          as -> by (apply String.eqb_eq; congruence).
        rewrite Hu. repeat split; congruence.
      * rewrite use_lock_set_strv, Hu, getHotkeyAccel_singleton by done.
        by rewrite !getHotkeyAccel_other by done.
    + destruct (String.eqb_spec (_getHotkeyAccel s debug_abort_hotkey ABORT_FALLBACK)
                  (_getHotkeyAccel s debug_abort_hotkey_custom ABORT_FALLBACK)) as [E'|E'].
      * by rewrite Hu.
      * rewrite use_lock_set_strv, Hu, getHotkeyAccel_singleton by done.
        by rewrite !getHotkeyAccel_other by done.
Qed.

(** Settings on which the two keys already agree are left alone. *)
Lemma sync_fixed s :
  (if debug_abort_use_lock_hotkey s
   then _getHotkeyAccel s debug_abort_hotkey ABORT_FALLBACK
        = _getHotkeyAccel s lock_hotkey LOCK_FALLBACK
   else _getHotkeyAccel s debug_abort_hotkey ABORT_FALLBACK
        = _getHotkeyAccel s debug_abort_hotkey_custom ABORT_FALLBACK) ->
  _syncAbortHotkeySettings {| _settings := Some s; _abortHotkeySyncing := false |}
  = {| _settings := Some s; _abortHotkeySyncing := false |}.
Proof.
  intros H. rewrite sync_cases. destruct (debug_abort_use_lock_hotkey s).
  - by rewrite H, String.eqb_refl.
  - rewrite H. rewrite String.eqb_refl.
    by destruct (String.eqb _ _).
Qed.

(** X10: after [_syncAbortHotkeySettings] the abort hotkey in effect
    equals the lock hotkey when the use-lock switch is on and the custom
    abort hotkey when it is off; the lock hotkey is never changed, the
    custom hotkey is not changed while the switch is on, and a second run
    changes nothing. *)
Theorem sync_establishes_and_is_idempotent e :
  _abortHotkeySyncing e = false ->
  let e' := _syncAbortHotkeySettings e in
  synced e'
  /\ _syncAbortHotkeySettings e' = e'
  /\ accel e' lock_hotkey = accel e lock_hotkey
  /\ (forall s, _settings e = Some s -> debug_abort_use_lock_hotkey s = true ->
        accel e' debug_abort_hotkey = accel e lock_hotkey
        /\ accel e' debug_abort_hotkey_custom = accel e debug_abort_hotkey_custom).
Proof.
  intros Hs. destruct e as [[s|] sy]; simpl in Hs; subst sy; [|done].
  cbv zeta. destruct (sync_result s) as (s' & -> & Hu & Hl & H).
  assert (Hsynced : if debug_abort_use_lock_hotkey s'
            then _getHotkeyAccel s' debug_abort_hotkey ABORT_FALLBACK
                 = _getHotkeyAccel s' lock_hotkey LOCK_FALLBACK
            else _getHotkeyAccel s' debug_abort_hotkey ABORT_FALLBACK
                 = _getHotkeyAccel s' debug_abort_hotkey_custom ABORT_FALLBACK).
  { rewrite Hu, Hl. destruct (debug_abort_use_lock_hotkey s); [by destruct H|done]. }
  split; [|split; [by apply sync_fixed|split] ].
  - unfold synced, accel. cbn [_settings].
    destruct (debug_abort_use_lock_hotkey s'); by rewrite Hsynced.
  - unfold accel. cbn [_settings]. by rewrite Hl.
  - intros s0 [= <-] Hu0. rewrite Hu0 in H. destruct H as [H1 H2].
    unfold accel. cbn [_settings]. by rewrite H1, H2.
Qed.

(** X11: from synced settings with the use-lock switch off, switching
    it on and off again restores the abort hotkey: when on, the abort
    hotkey is the lock hotkey; when off again, the abort, custom and lock
    hotkeys in effect are what they were. *)
Theorem use_lock_round_trip e :
  _abortHotkeySyncing e = false -> synced e ->
  (forall s, _settings e = Some s -> debug_abort_use_lock_hotkey s = false) ->
  let on := useLockChanged true e in
  let off := useLockChanged false on in
  accel on debug_abort_hotkey = accel e lock_hotkey
  /\ accel off debug_abort_hotkey = accel e debug_abort_hotkey
  /\ accel off debug_abort_hotkey_custom = accel e debug_abort_hotkey_custom
  /\ accel off lock_hotkey = accel e lock_hotkey.
Proof.
  intros Hs Hsy Hu. destruct e as [[s|] sy]; simpl in Hs; subst sy; [|done].
  specialize (Hu s eq_refl).
  unfold synced, accel in Hsy. cbn [_settings] in Hsy. rewrite Hu in Hsy.
  injection Hsy as Hsy.
  cbv zeta.
  change (useLockChanged true {| _settings := Some s; _abortHotkeySyncing := false |})
    with (_syncAbortHotkeySettings
            {| _settings := Some (set_boolean true s); _abortHotkeySyncing := false |}).
  destruct (sync_result (set_boolean true s)) as (s1 & -> & Hu1 & Hl1 & H1).
  cbn [debug_abort_use_lock_hotkey set_boolean] in Hu1, H1. destruct H1 as [Ha1 Hc1].
  change (useLockChanged false {| _settings := Some s1; _abortHotkeySyncing := false |})
    with (_syncAbortHotkeySettings
            {| _settings := Some (set_boolean false s1); _abortHotkeySyncing := false |}).
  destruct (sync_result (set_boolean false s1)) as (s2 & Hsync2 & Hu2 & Hl2 & H2).
  rewrite Hsync2.
  cbn [debug_abort_use_lock_hotkey set_boolean] in Hu2, H2.
  (* the accelerators do not depend on the switch *)
  assert (Hb : forall (v : bool) (t : Settings) key fb,
             _getHotkeyAccel (set_boolean v t) key fb = _getHotkeyAccel t key fb).
  { intros v t key fb. unfold _getHotkeyAccel. by destruct key. }
  rewrite !Hb in *.
  unfold accel. cbn [_settings].
  (* the second sync: abort equals lock, so the custom key is restored
     unless it equals the lock key as well *)
  pose proof (sync_cases (set_boolean false s1)) as Hcases. cbv zeta in Hcases.
  cbn [debug_abort_use_lock_hotkey set_boolean] in Hcases. rewrite !Hb in Hcases.
  rewrite Ha1, Hl1, Hc1, String.eqb_refl in Hcases. cbn [andb] in Hcases.
  assert (Hs2 : s2 =
    if negb (String.eqb (_getHotkeyAccel s debug_abort_hotkey_custom ABORT_FALLBACK)
                        (_getHotkeyAccel s lock_hotkey LOCK_FALLBACK))
    then set_strv debug_abort_hotkey
           [_getHotkeyAccel s debug_abort_hotkey_custom ABORT_FALLBACK]
           (set_boolean false s1)
    else if String.eqb (_getHotkeyAccel s lock_hotkey LOCK_FALLBACK)
                       (_getHotkeyAccel s debug_abort_hotkey_custom ABORT_FALLBACK)
    then set_boolean false s1
    else set_strv debug_abort_hotkey_custom
           [_getHotkeyAccel s lock_hotkey LOCK_FALLBACK] (set_boolean false s1)).
  { rewrite Hsync2 in Hcases. by injection Hcases. }
  pose proof (getHotkeyAccel_truthy s debug_abort_hotkey_custom ABORT_FALLBACK eq_refl) as Tc.
  destruct (String.eqb_spec (_getHotkeyAccel s debug_abort_hotkey_custom ABORT_FALLBACK)
              (_getHotkeyAccel s lock_hotkey LOCK_FALLBACK)) as [E|E];
    cbn [negb] in Hs2.
  - rewrite <- E, String.eqb_refl in Hs2. subst s2. rewrite !Hb.
    rewrite Ha1, Hl1, Hc1, Hsy. repeat split; congruence.
  - subst s2. rewrite getHotkeyAccel_singleton by done.
    rewrite !getHotkeyAccel_other by done. rewrite !Hb.
    rewrite Ha1, Hl1, Hc1, Hsy. done.
Qed.

(** X12: [_syncAbortHotkeyCustomFromAbort] copies the abort hotkey
    into the custom abort hotkey unless the use-lock switch is on, in
    which case it changes nothing; the abort and lock hotkeys stay as
    they are, and the sync woken up by the write changes nothing
    more. *)
Theorem custom_tracks_abort e :
  _abortHotkeySyncing e = false ->
  let e' := _syncAbortHotkeyCustomFromAbort e in
  accel e' debug_abort_hotkey = accel e debug_abort_hotkey
  /\ accel e' lock_hotkey = accel e lock_hotkey
  /\ (forall s, _settings e = Some s ->
      if debug_abort_use_lock_hotkey s then e' = e
      else accel e' debug_abort_hotkey_custom = accel e debug_abort_hotkey
           /\ synced e').
Proof.
  intros Hs. destruct e as [[s|] sy]; simpl in Hs; subst sy; [|done].
  cbv zeta. unfold _syncAbortHotkeyCustomFromAbort. cbn [_settings _abortHotkeySyncing].
  destruct (debug_abort_use_lock_hotkey s) eqn:Hu.
  { repeat split. intros s0 [= <-]. by rewrite Hu. }
  pose proof (getHotkeyAccel_truthy s debug_abort_hotkey ABORT_FALLBACK eq_refl) as Ta.
  cbv zeta. rewrite Ta. cbn [andb].
  destruct (String.eqb_spec (_getHotkeyAccel s debug_abort_hotkey ABORT_FALLBACK)
              (_getHotkeyAccel s debug_abort_hotkey_custom ABORT_FALLBACK)) as [E|E];
    cbn [negb].
  - repeat split. intros s0 [= <-]. rewrite Hu.
    unfold synced, accel. cbn [_settings]. rewrite Hu. by rewrite E.
  - rewrite sync_fixed.
    + unfold accel. cbn [_settings].
      rewrite !getHotkeyAccel_other by done.
      repeat split. intros s0 [= <-]. rewrite Hu.
      rewrite getHotkeyAccel_singleton by done. split; [done|].
      unfold synced, accel. cbn [_settings]. rewrite use_lock_set_strv, Hu.
      rewrite getHotkeyAccel_singleton by done.
      by rewrite !getHotkeyAccel_other by done.
    + rewrite use_lock_set_strv, Hu.
      rewrite getHotkeyAccel_singleton by done.
      by rewrite !getHotkeyAccel_other by done.
Qed.

Lemma sync_witness :
  synced (_syncAbortHotkeySettings ext0).
Proof.
  exact (proj1 (sync_establishes_and_is_idempotent ext0 eq_refl)).
Defined.

Lemma use_lock_round_trip_witness :
  accel (useLockChanged false (useLockChanged true (_syncAbortHotkeySettings ext0)))
        debug_abort_hotkey
  = accel (_syncAbortHotkeySettings ext0) debug_abort_hotkey.
Proof.
  refine (proj1 (proj2 (use_lock_round_trip (_syncAbortHotkeySettings ext0)
                          eq_refl _ _))).
  - reflexivity.
  - intros s [= <-]. reflexivity.
Defined.

Lemma custom_tracks_abort_witness :
  accel (_syncAbortHotkeyCustomFromAbort ext0) debug_abort_hotkey_custom
  = accel ext0 debug_abort_hotkey.
Proof.
  destruct (custom_tracks_abort ext0 eq_refl) as (_ & _ & H).
  exact (proj1 (H _ eq_refl)).
Defined.

Example use_lock_on_then_off :
  let e1 := useLockChanged true ext0 in
  let e2 := useLockChanged false e1 in
  accel e1 debug_abort_hotkey = Some "<Super><Control>l"%string
  /\ accel e2 debug_abort_hotkey = Some "<Control><Alt>x"%string.
Proof. by vm_compute. Qed.

End HotkeysFacts.

(** ** Invariants of a lock session *)

Module SessionFacts.

Import Clutter Engine EngineSpec SessionSpec EngineFacts.

Section WithEnv.

Variable env : Env.

Lemma unlock_forced s :
  let s' := _unlock true s in
  _locked s' = false /\ _passwordBuffer s' = [] /\ _passwordPrompt s' = None
  /\ _passwordPromptRevealed s' = false /\ _passwordResetTimeoutId s' = None
  /\ pending s' = pending s
  /\ _debugAbortSequenceCount s' = _debugAbortSequenceCount s
  /\ effects s' = effects s ++ Teardown ::
       (if _didPauseMedia s then [ResumeAllMedia] else []).
Proof.
  unfold _unlock. rewrite andb_false_r. cbv zeta. simpl.
  destruct (_didPauseMedia s); simpl; repeat split; by rewrite <- ?app_assoc.
Qed.

Lemma filter_nospawn (es : list Effect) :
  Forall (fun e => isSpawn e = false) es ->
  filter (fun e => isSpawn e = true) es = [].
Proof.
  induction 1 as [|e es H _ IH]; [done|].
  rewrite filter_cons_False; [done|]. by rewrite H.
Qed.

Lemma spawned_app_nospawn s s' es :
  effects s' = effects s ++ es -> Forall (fun e => isSpawn e = false) es ->
  spawned s' = spawned s.
Proof.
  intros He Hf. unfold spawned.
  by rewrite He, filter_app, (filter_nospawn es Hf), app_nil_r.
Qed.

Lemma unlock_forced_spawned s : spawned (_unlock true s) = spawned s.
Proof.
  destruct (unlock_forced s) as (_ & _ & _ & _ & _ & _ & _ & He).
  apply (spawned_app_nospawn _ _ _ He).
  destruct (_didPauseMedia s); repeat constructor.
Qed.

(** What [_handleDebugAbortSequence] can do. *)
Lemma handleDebugAbortSequence_cases t s :
  let s' := _handleDebugAbortSequence env t s in
  pending s' = pending s /\ spawned s' = spawned s
  /\ ((_locked s' = _locked s /\ _passwordBuffer s' = _passwordBuffer s
       /\ _passwordPrompt s' = _passwordPrompt s
       /\ _passwordPromptRevealed s' = _passwordPromptRevealed s
       /\ _passwordResetTimeoutId s' = _passwordResetTimeoutId s)
      \/ (debug_mode env = true /\ _locked s = true /\ _locked s' = false
          /\ _passwordBuffer s' = [] /\ _passwordPrompt s' = None
          /\ _passwordPromptRevealed s' = false
          /\ _passwordResetTimeoutId s' = None))
  /\ (counterOk s -> counterOk s').
Proof.
  cbv zeta. unfold _handleDebugAbortSequence, _isDebugMode.
  destruct (debug_mode env) eqn:Hd; cbn [negb orb];
    [|split; [done|split; [done|split; [by left|done] ] ] ].
  destruct (_locked s) eqn:Hl; cbn [negb];
    [|split; [done|split; [done|split; [by left|done] ] ] ].
  cbv zeta.
  set (s1 := if 1200 <? t - _debugAbortSequenceLastTime s
             then set_debugAbortSequenceCount 0 s else s).
  set (s2 := set_debugAbortSequenceCount _ (set_debugAbortSequenceLastTime t s1)).
  assert (H1 : _locked s1 = true /\ pending s1 = pending s /\ effects s1 = effects s
               /\ _passwordBuffer s1 = _passwordBuffer s
               /\ _passwordPrompt s1 = _passwordPrompt s
               /\ _passwordPromptRevealed s1 = _passwordPromptRevealed s
               /\ _passwordResetTimeoutId s1 = _passwordResetTimeoutId s
               /\ (_debugAbortSequenceCount s1 = 0
                   \/ _debugAbortSequenceCount s1 = _debugAbortSequenceCount s)).
  { subst s1. destruct (1200 <? _); simpl; repeat split; auto. }
  destruct H1 as (L1 & P1 & E1 & B1 & Pr1 & R1 & T1 & C1).
  assert (H2 : _locked s2 = true /\ pending s2 = pending s /\ effects s2 = effects s
               /\ _passwordBuffer s2 = _passwordBuffer s
               /\ _passwordPrompt s2 = _passwordPrompt s
               /\ _passwordPromptRevealed s2 = _passwordPromptRevealed s
               /\ _passwordResetTimeoutId s2 = _passwordResetTimeoutId s
               /\ _debugAbortSequenceCount s2 = _debugAbortSequenceCount s1 + 1).
  { subst s2. simpl. repeat split; auto. }
  destruct H2 as (L2 & P2 & E2 & B2 & Pr2 & R2 & T2 & C2).
  destruct (Z.leb_spec 5 (_debugAbortSequenceCount s2)) as [H5|H5].
  - destruct (unlock_forced s2) as (Lu & Bu & Pu & Ru & Tu & Pe & Cu & _).
    rewrite Pe, P2, unlock_forced_spawned, (spawned_eq _ _ E2).
    split; [done|]. split; [done|]. split; [by right|].
    intros [Hc0 Hc5]. split; [lia|]. by rewrite Lu.
  - rewrite P2, (spawned_eq _ _ E2).
    split; [done|]. split; [done|]. split; [left; by rewrite L2|].
    intros [Hc0 Hc5]. split; lia.
Qed.

Lemma attemptUnlock_counter s :
  _locked (_attemptUnlock env s) = _locked s
  /\ _debugAbortSequenceCount (_attemptUnlock env s) = _debugAbortSequenceCount s
  /\ _debugAbortSequenceLastTime (_attemptUnlock env s)
     = _debugAbortSequenceLastTime s.
Proof.
  unfold _attemptUnlock. destruct (length (_passwordBuffer s) =? 0)%nat; [done|].
  cbv zeta.
  destruct (updatePasswordPrompt_fields env (set_passwordBuffer [] s))
    as (Ul & _ & _ & _ & Uc & Ult & _).
  simpl. by rewrite Ul, Uc, Ult.
Qed.

Lemma keySummary_unchanged event s x :
  _locked s = true -> _locked x = true ->
  pending x = pending s -> effects x = effects s ->
  _debugAbortSequenceCount x = _debugAbortSequenceCount s ->
  _debugAbortSequenceLastTime x = _debugAbortSequenceLastTime s ->
  _passwordResetTimeoutId x = _passwordResetTimeoutId (_resetPasswordTimeout env s) ->
  keySummary env event s x.
Proof.
  intros Hl Hx Hp He Hc Hlt Ht. split; [by left|]. split; [|split; [|split] ].
  - left. split; [done|]. by apply spawned_eq.
  - unfold counterOk. by rewrite Hc, Hx, Hl.
  - done.
  - done.
Qed.

Lemma keySummary_update event s x :
  keySummary env event s x -> keySummary env event s (_updatePasswordPrompt env x).
Proof.
  destruct (updatePasswordPrompt_fields env x)
    as (Ul & Ub & Ut & _ & Uc & Ult & Ur & Up & Ue & Upr).
  unfold keySummary, counterOk.
  rewrite Ul, Ub, Ut, Uc, Ult, Ur, Up, (spawned_eq _ _ Ue).
  intros (H1 & H2 & H3 & H4 & H5). split; [|done].
  destruct H1 as [H1|(L & B & P & R & T & C)]; [by left|right].
  repeat split; try done.
  destruct (_passwordPrompt (_updatePasswordPrompt env x)) eqn:E; [|done].
  exfalso. assert (is_Some (_passwordPrompt x)) as [? Hx] by (apply Upr; eauto).
  congruence.
Qed.

(** What one key press does to a locked session. *)
Lemma key_step_summary event s :
  _locked s = true -> keySummary env event s (step env s (KeyPress event)).
Proof.
  intros Hl. cbn [step]. unfold _onKeyPress. rewrite Hl. cbn [negb].
  cbv zeta.
  destruct (resetPasswordTimeout_fields env s)
    as (Rl & Rb & Rd & Rc & Rt & Rp & Rr & Rpe & Re).
  set (s1 := _resetPasswordTimeout env s) in *.
  rewrite Hl in Rl.
  fold (isEmergencyChord event).
  destruct (isEmergencyChord event) eqn:Hem; cbn [fst].
  { (* emergency chord *)
    unfold _fallbackToSystemLock.
    destruct (unlock_forced s1) as (Lu & Bu & Pu & Ru & Tu & Pe & Cu & Eu).
    split; [right; simpl; repeat split; auto|].
    split.
    - left. simpl. rewrite Pe, Rpe. split; [done|].
      rewrite <- (spawned_eq s1 s Re).
      apply (spawned_app_nospawn s1 _
               (Teardown :: (if _didPauseMedia s1 then [ResumeAllMedia] else [])
                ++ [ScreenShieldLock])).
      + simpl. rewrite Eu. by rewrite <- app_assoc.
      + destruct (_didPauseMedia s1); repeat constructor.
    - split; [|split].
      + intros [Hc0 _]. split; simpl; [by rewrite Cu, Rc|].
        by rewrite Lu.
      + simpl. by rewrite Lu.
      + simpl. by rewrite Lu. }
  fold (isEnter event).
  destruct (isEnter event) eqn:Hen; cbn [fst].
  { (* Enter *)
    apply keySummary_update.
    destruct (attemptUnlock_counter s1) as (Al & Ac & Alt).
    destruct (_passwordBuffer s) as [|u b] eqn:Eb.
    - rewrite attemptUnlock_empty by (by rewrite Rb).
      by apply keySummary_unchanged.
    - destruct (attemptUnlock_nonempty env s1) as (_ & Ab & Ap & Ae);
        [by rewrite Rb|].
      split; [left; by rewrite Al|]. split.
      + right. split; [done|]. split; [by rewrite Eb|].
        rewrite Ap, Rpe, Rb, Eb. split; [done|].
        unfold spawned. rewrite Ae, Re, filter_app.
        rewrite filter_cons_True by done. by rewrite Rb.
      + split; [unfold counterOk; by rewrite Al, Ac, Rl, Rc, Hl|].
        split; [|by rewrite Ac, Alt].
        intros _. unfold _attemptUnlock. rewrite Rb. cbn [length Nat.eqb]. cbv zeta.
        destruct (updatePasswordPrompt_fields env (set_passwordBuffer [] s1))
          as (_ & _ & Ut' & _).
        simpl. by rewrite Ut'. }
  match goal with
  | |- context [if ?b then (_updatePasswordPrompt env ?x, _) else _] =>
      destruct b; cbn [fst]
  end.
  { (* Ctrl+R *)
    apply keySummary_update.
    destruct (_passwordPrompt _); by apply keySummary_unchanged. }
  destruct (get_key_symbol event =? KEY_BackSpace) eqn:Hbs; cbn [fst].
  { apply keySummary_update.
    destruct (0 <? _)%nat; by apply keySummary_unchanged. }
  fold (isEscape event).
  destruct (isEscape event) eqn:Hes; cbn [fst].
  { (* Escape *)
    apply keySummary_update.
    destruct (handleDebugAbortSequence_cases (now event) (set_passwordBuffer [] s1))
      as (Hp & Hs & Hcase & Hcnt).
    split; [|split; [|split; [|split] ] ].
    - destruct Hcase as [(L' & _)|(Hd & _ & L' & B' & P' & R' & T')].
      + left. by rewrite L'.
      + right. repeat split; auto.
    - left. rewrite Hp, Hs. split; [exact Rpe|]. apply spawned_eq. exact Re.
    - intros [H0 H5]. apply Hcnt. unfold counterOk. simpl. rewrite Rc.
      split; [done|]. intros _. by apply H5.
    - intros Hlk. destruct Hcase as [(_ & _ & _ & _ & T')|(_ & _ & L' & _)];
        [by rewrite T'|congruence].
    - intros Hne. congruence. }
  destruct (isModifierKey (get_key_symbol event)); cbn [fst].
  { by apply keySummary_unchanged. }
  destruct (negb (decodeKeychar env event =? 0)); cbn [fst].
  - destruct (JS.fromCodePoint (decodeKeychar env event)); cbn [fst].
    + apply keySummary_update. by apply keySummary_unchanged.
    + by apply keySummary_unchanged.
  - by apply keySummary_unchanged.
Qed.

Lemma unlock_locked s : _locked s = true -> _unlock false s = _unlock true s.
Proof. intros H. unfold _unlock. by rewrite H. Qed.

Lemma unlock_unlocked s : _locked s = false -> _unlock false s = s.
Proof. intros H. unfold _unlock. by rewrite H. Qed.

(** What the resolution of a verification does. *)
Lemma auth_step_summary i success s :
  let s' := step env s (AuthResolved i success) in
  spawned s' = spawned s
  /\ _debugAbortSequenceCount s' = _debugAbortSequenceCount s
  /\ (length (pending s') <= length (pending s))%nat
  /\ (quiet s -> quiet s')
  /\ (_locked s' = _locked s \/ (success = true /\ _locked s' = false)).
Proof.
  cbv zeta. cbn [step]. unfold _attemptUnlock_resumed.
  destruct (pending s !! i) as [r|] eqn:Ei;
    [|split; [done|split; [done|split; [done|split; [done|by left] ] ] ] ].
  set (s0 := set_pending (delete i (pending s)) s).
  assert (Hlen : (length (pending s0) <= length (pending s))%nat).
  { subst s0. simpl. rewrite length_delete by eauto. lia. }
  destruct success.
  - destruct (_locked s) eqn:Hl.
    + rewrite unlock_locked by done.
      destruct (unlock_forced s0) as (Lu & Bu & Pu & Ru & Tu & Pe & Cu & Eu).
      rewrite unlock_forced_spawned. rewrite Pe, Cu.
      split; [done|]. split; [done|]. split; [done|]. split; [|by right].
      by intros _ _.
    + rewrite unlock_unlocked by done.
      split; [done|]. split; [done|]. split; [done|]. split; [|by left].
      unfold quiet. simpl. done.
  - destruct (resetPasswordTimeout_fields env s0)
      as (Rl & Rb & Rd & Rc & Rt & Rp & Rr & Rpe & Re).
    rewrite (spawned_eq _ _ Re), Rc, Rpe, Rl.
    split; [done|]. split; [done|]. split; [done|]. split; [|by left].
    unfold quiet. rewrite Rl, Rb, Rp, Rr. done.
Qed.

(** What the inactivity timer does when it fires. *)
Lemma timer_step_summary s :
  let s' := step env s ResetTimerFired in
  spawned s' = spawned s /\ pending s' = pending s
  /\ _debugAbortSequenceCount s' = _debugAbortSequenceCount s
  /\ _locked s' = _locked s
  /\ (quiet s -> quiet s')
  /\ (is_Some (_passwordResetTimeoutId s) ->
      _passwordBuffer s' = [] /\ _passwordResetTimeoutId s' = None).
Proof.
  cbv zeta. cbn [step]. unfold passwordResetTimeoutFired.
  destruct (_passwordResetTimeoutId s) as [z|] eqn:Et.
  - cbv zeta.
    destruct (updatePasswordPrompt_fields env (set_passwordBuffer [] s))
      as (Ul & Ub & Ut & _ & Uc & _ & Ur & Up & Ue & Upr).
    set (s2 := _updatePasswordPrompt env (set_passwordBuffer [] s)) in *.
    simpl in Ul, Ub, Uc, Ur, Up, Ue, Upr.
    split; [apply spawned_eq; exact Ue|].
    split; [exact Up|]. split; [exact Uc|]. split; [exact Ul|].
    split; [|intros _; by split].
    intros Hq Hlk. simpl in Hlk. rewrite Ul in Hlk.
    destruct (Hq Hlk) as (_ & Hn & Hr). simpl.
    split; [exact Ub|]. split; [|by rewrite Ur].
    destruct (_passwordPrompt s2) eqn:E; [|done].
    exfalso. assert (is_Some (_passwordPrompt s)) as [? Hx] by (apply Upr; eauto).
    congruence.
  - split; [done|]. split; [done|]. split; [done|]. split; [done|].
    split; [done|]. by intros [? ?].
Qed.

(** X13: that a session which is not locked holds no password text
    and no prompt is preserved by every key press, verification result
    and inactivity timeout: every way of unlocking clears the buffer and
    destroys the prompt, and nothing fills them again while unlocked. *)
Theorem unlocked_session_holds_nothing s es :
  quiet s -> quiet (run env s es).
Proof.
  revert s. induction es as [|e es IH]; intros s Hq; [done|].
  unfold run in *. cbn [fold_left]. apply IH.
  destruct e as [event|i success|].
  - destruct (_locked s) eqn:Hl.
    + destruct (key_step_summary event s Hl) as ([H|(L & B & P & R & _)] & _).
      * intros Hf. congruence.
      * by intros _.
    + by rewrite step_unlocked_key.
  - by apply auth_step_summary.
  - by apply timer_step_summary.
Qed.

(** X14: the Escape counter of the debug abort sequence is never
    negative and stays below 5 for as long as the session is locked: the
    press that takes it to 5 unlocks. *)
Theorem escape_counter_stays_in_range s es :
  counterOk s -> counterOk (run env s es).
Proof.
  revert s. induction es as [|e es IH]; intros s Hc; [done|].
  unfold run in *. cbn [fold_left]. apply IH.
  destruct e as [event|i success|].
  - destruct (_locked s) eqn:Hl.
    + by apply (key_step_summary event s Hl).
    + by rewrite step_unlocked_key.
  - destruct (auth_step_summary i success s) as (_ & Hcnt & _ & _ & Hlk).
    destruct Hc as [H0 H5]. unfold counterOk. rewrite Hcnt. split; [done|].
    destruct Hlk as [->|[_ ->] ]; [done|]. done.
  - destruct (timer_step_summary s) as (_ & _ & Hcnt & Hlk & _).
    unfold counterOk. by rewrite Hcnt, Hlk.
Qed.

(** X15: with debug mode off, no sequence of key presses, failed
    verifications and inactivity timeouts unlocks the session, unless it
    contains the emergency chord (Control+Alt+Shift+L). *)
Theorem locked_until_verified s es :
  debug_mode env = false -> _locked s = true ->
  Forall (fun e => harmless e = true) es ->
  _locked (run env s es) = true.
Proof.
  intros Hd Hl HF. revert s Hl.
  induction HF as [|e es He _ IH]; intros s Hl; [done|].
  unfold run in *. cbn [fold_left]. apply IH.
  destruct e as [event|i success|]; simpl in He.
  - destruct (key_step_summary event s Hl)
      as ([H|(_ & _ & _ & _ & _ & [Hem|[_ Hdb] ])] & _); [done| |congruence].
    rewrite Hem in He. done.
  - destruct (auth_step_summary i success s) as (_ & _ & _ & _ & [->|[-> _] ]);
      [done|done].
  - destruct (timer_step_summary s) as (_ & _ & _ & -> & _). done.
Qed.

(** X16: only an Enter press starts a verification: the helper
    processes spawned and the verifications pending after any sequence of
    events are at most those before it plus the number of Enter presses
    in it. *)
Theorem verifications_bounded_by_enter_presses s es :
  (length (spawned (run env s es)) <= length (spawned s) + enterPresses es)%nat
  /\ (length (pending (run env s es)) <= length (pending s) + enterPresses es)%nat.
Proof.
  revert s. induction es as [|e es IH]; intros s.
  { unfold enterPresses. simpl. lia. }
  unfold run in *. cbn [fold_left].
  destruct (IH (step env s e)) as [IH1 IH2].
  assert (H : (length (spawned (step env s e))
               <= length (spawned s) + enterPresses [e])%nat
              /\ (length (pending (step env s e))
                  <= length (pending s) + enterPresses [e])%nat).
  { destruct e as [event|i success|].
    - destruct (_locked s) eqn:Hl.
      + destruct (key_step_summary event s Hl)
          as (_ & [ [-> ->] | (Hen & _ & -> & ->)] & _).
        * lia.
        * replace (enterPresses [KeyPress event]) with 1%nat
            by (unfold enterPresses; simpl; by rewrite Hen).
          rewrite !length_app. simpl. lia.
      + rewrite step_unlocked_key by done. lia.
    - destruct (auth_step_summary i success s) as (-> & _ & Hlen & _).
      replace (enterPresses [AuthResolved i success]) with 0%nat by reflexivity.
      lia.
    - destruct (timer_step_summary s) as (-> & -> & _). lia. }
  assert (E : enterPresses (e :: es) = (enterPresses [e] + enterPresses es)%nat).
  { unfold enterPresses. simpl. by destruct e as [event| |]; [destruct (isEnter event)| |]. }
  rewrite E. lia.
Qed.

(** X17: Control+Alt+Shift+L (or l) on a locked session, in any mode
    and whatever the buffer holds, tears the lock down, resumes media if
    it was paused, clears buffer, prompt and timer, and asks for the
    system lock screen, in that order, without starting a verification; a
    verification still pending that resolves later, either way, has no
    further effect on the lock. *)
Theorem emergency_chord_always_unlocks event s :
  _locked s = true -> isEmergencyChord event = true ->
  let s' := step env s (KeyPress event) in
  _locked s' = false /\ _passwordBuffer s' = [] /\ _passwordPrompt s' = None
  /\ _passwordResetTimeoutId s' = None
  /\ pending s' = pending s /\ spawned s' = spawned s
  /\ effects s' = effects s ++ Teardown ::
       (if _didPauseMedia s then [ResumeAllMedia] else []) ++ [ScreenShieldLock]
  /\ (forall i success,
        let s'' := step env s' (AuthResolved i success) in
        _locked s'' = false /\ effects s'' = effects s').
Proof.
  intros Hl Hem. cbv zeta.
  assert (E : step env s (KeyPress event)
              = _fallbackToSystemLock (_resetPasswordTimeout env s)).
  { cbn [step]. unfold _onKeyPress. rewrite Hl. cbn [negb]. cbv zeta.
    fold (isEmergencyChord event). by rewrite Hem. }
  rewrite E. unfold _fallbackToSystemLock.
  destruct (resetPasswordTimeout_fields env s)
    as (Rl & Rb & Rd & Rc & Rt & Rp & Rr & Rpe & Re).
  destruct (unlock_forced (_resetPasswordTimeout env s))
    as (Lu & Bu & Pu & Ru & Tu & Pe & Cu & Eu).
  assert (Heff : effects (emit [ScreenShieldLock] (_unlock true (_resetPasswordTimeout env s)))
                 = effects s ++ Teardown ::
                     (if _didPauseMedia s then [ResumeAllMedia] else [])
                     ++ [ScreenShieldLock]).
  { simpl. rewrite Eu, Re, Rd. by rewrite <- app_assoc. }
  split; [exact Lu|]. split; [exact Bu|]. split; [exact Pu|]. split; [exact Tu|].
  split; [simpl; by rewrite Pe|].
  split.
  { apply (spawned_app_nospawn s _ _ Heff).
    destruct (_didPauseMedia s); repeat constructor. }
  split; [exact Heff|].
  intros i success. cbv zeta. cbn [step]. unfold _attemptUnlock_resumed.
  destruct (pending _ !! i); [|by split].
  destruct success.
  - rewrite unlock_unlocked by done. by split.
  - match goal with |- context [_resetPasswordTimeout env ?x] =>
      destruct (resetPasswordTimeout_fields env x) as (Rl' & _ & _ & _ & _ & _ & _ & _ & Re')
    end.
    rewrite Rl', Re'. by split.
Qed.

(** X18: when the inactivity timer fires, the typed text is discarded
    and the timer is gone, the session stays locked and no verification
    is started; an Enter pressed next finds an empty buffer and starts
    none either. *)
Theorem inactivity_reset_discards_typed_text s :
  _locked s = true -> is_Some (_passwordResetTimeoutId s) ->
  let s1 := step env s ResetTimerFired in
  _passwordBuffer s1 = [] /\ _passwordResetTimeoutId s1 = None
  /\ _locked s1 = true /\ spawned s1 = spawned s /\ pending s1 = pending s
  /\ (forall event, isEnter event = true ->
        pending (step env s1 (KeyPress event)) = pending s
        /\ effects (step env s1 (KeyPress event)) = effects s1).
Proof.
  intros Hl Ht. cbv zeta.
  destruct (timer_step_summary s) as (Hs & Hp & _ & Hlk & _ & Hb).
  destruct (Hb Ht) as [Hb1 Ht1]. rewrite Hl in Hlk.
  repeat split; auto.
  - destruct (enter_on_empty_buffer env _ event Hlk H Hb1) as [-> _]. done.
  - by destruct (enter_on_empty_buffer env _ event Hlk H Hb1) as [_ ->].
Qed.

(** X19: when a pending verification resolves on a locked session,
    success unlocks (buffer, prompt and timer cleared, media resumed if
    it was paused) and failure keeps the session locked with the buffer
    as it is and the inactivity timer re-armed; on a session that has
    been unlocked meanwhile neither outcome changes the lock state, the
    buffer or the effects. *)
Theorem verification_outcome_handling i r s :
  pending s !! i = Some r ->
  (_locked s = true ->
   (let s' := step env s (AuthResolved i true) in
    _locked s' = false /\ _passwordBuffer s' = [] /\ _passwordPrompt s' = None
    /\ _passwordResetTimeoutId s' = None
    /\ pending s' = delete i (pending s)
    /\ effects s' = effects s ++ Teardown ::
         (if _didPauseMedia s then [ResumeAllMedia] else []))
   /\ (let s' := step env s (AuthResolved i false) in
       _locked s' = true /\ _passwordBuffer s' = _passwordBuffer s
       /\ pending s' = delete i (pending s) /\ effects s' = effects s
       /\ _passwordResetTimeoutId s'
          = _passwordResetTimeoutId (_resetPasswordTimeout env s)))
  /\ (_locked s = false ->
      forall success,
        let s' := step env s (AuthResolved i success) in
        _locked s' = false /\ effects s' = effects s
        /\ _passwordBuffer s' = _passwordBuffer s).
Proof.
  intros Hi. split.
  - intros Hl. split; cbv zeta; cbn [step]; unfold _attemptUnlock_resumed; rewrite Hi.
    + rewrite unlock_locked by done.
      destruct (unlock_forced (set_pending (delete i (pending s)) s))
        as (Lu & Bu & Pu & Ru & Tu & Pe & Cu & Eu).
      repeat split; auto.
    + destruct (resetPasswordTimeout_fields env (set_pending (delete i (pending s)) s))
        as (Rl & Rb & Rd & Rc & Rt & Rp & Rr & Rpe & Re).
      rewrite Rl, Rb, Rpe, Re. repeat split; auto.
      unfold _resetPasswordTimeout. cbv zeta. by destruct (_ =? 0).
  - intros Hl success. cbv zeta. cbn [step]. unfold _attemptUnlock_resumed. rewrite Hi.
    destruct success.
    + rewrite unlock_unlocked by done. by repeat split.
    + destruct (resetPasswordTimeout_fields env (set_pending (delete i (pending s)) s))
        as (Rl & Rb & Rd & Rc & Rt & Rp & Rr & Rpe & Re).
      rewrite Rl, Rb, Re. by repeat split.
Qed.

(** X20: every key press on a locked session that leaves it locked
    re-arms the inactivity timer with [auto-reset-seconds] times 1000 ms
    (5000 ms by default), or leaves no timer when that setting is 0; a
    key press that unlocks leaves no timer. *)
Theorem key_press_rearms_inactivity_timer event s :
  _locked s = true ->
  let s' := step env s (KeyPress event) in
  let seconds := default DEFAULT_AUTO_RESET_SECONDS (auto_reset_seconds env) in
  (_locked s' = true ->
   _passwordResetTimeoutId s'
   = if seconds =? 0 then None else Some (seconds * 1000))
  /\ (_locked s' = false -> _passwordResetTimeoutId s' = None).
Proof.
  intros Hl. cbv zeta.
  destruct (key_step_summary event s Hl) as (H1 & _ & _ & H4 & _).
  split.
  - intros Hlk. rewrite (H4 Hlk). unfold _resetPasswordTimeout. cbv zeta.
    by destruct (_ =? 0).
  - intros Hlk. destruct H1 as [H1|(_ & _ & _ & _ & T & _)]; [congruence|done].
Qed.

(** ** The Escape sequence among other events *)

Lemma run_unlocked es : forall s,
  _locked s = false -> _locked (run env s es) = false.
Proof.
  induction es as [|e es IH]; intros s Hl; [done|].
  unfold run in *. cbn [fold_left]. apply IH.
  destruct e as [event|i success|].
  - by rewrite step_unlocked_key.
  - destruct (auth_step_summary i success s) as (_ & _ & _ & _ & [->|[_ ->] ]); done.
  - destruct (timer_step_summary s) as (_ & _ & _ & -> & _). done.
Qed.

(** An event other than an Escape press leaves the Escape counter and
    its time stamp alone; it unlocks only if it is the emergency chord or
    a successful verification. *)
Lemma other_event_counter e s :
  _locked s = true -> (forall k, e = KeyPress k -> isEscape k = false) ->
  let s' := step env s e in
  (_locked s' = true
   /\ _debugAbortSequenceCount s' = _debugAbortSequenceCount s
   /\ _debugAbortSequenceLastTime s' = _debugAbortSequenceLastTime s)
  \/ (_locked s' = false /\ harmless e = false).
Proof.
  intros Hl Hne. cbv zeta. destruct e as [event|i success|].
  - specialize (Hne event eq_refl).
    destruct (key_step_summary event s Hl) as (H1 & _ & _ & _ & H5).
    destruct H1 as [H1|(L & _ & _ & _ & _ & [Hem|[Hes _] ])].
    + left. split; [done|]. by apply H5.
    + right. split; [done|]. simpl. by rewrite Hem.
    + congruence.
  - cbn [step]. unfold _attemptUnlock_resumed.
    destruct (pending s !! i) as [r|]; [|by left].
    destruct success.
    + right. rewrite unlock_locked by done.
      destruct (unlock_forced (set_pending (delete i (pending s)) s)) as (Lu & _).
      by split.
    + left.
      destruct (resetPasswordTimeout_fields env (set_pending (delete i (pending s)) s))
        as (Rl & _ & _ & Rc & Rt & _).
      by rewrite Rl, Rc, Rt.
  - cbn [step]. unfold passwordResetTimeoutFired.
    destruct (_passwordResetTimeoutId s); [|by left].
    cbv zeta. left.
    destruct (updatePasswordPrompt_fields env (set_passwordBuffer [] s))
      as (Ul & _ & _ & _ & Uc & Ult & _).
    simpl. by rewrite Ul, Uc, Ult.
Qed.

Lemma escapes_cons_escape k es :
  isEscape k = true -> escapes (KeyPress k :: es) = k :: escapes es.
Proof. intros H. unfold escapes. cbn [omap list_omap]. by rewrite H. Qed.

Lemma escapes_cons_other e es :
  (forall k, e = KeyPress k -> isEscape k = false) ->
  escapes (e :: es) = escapes es.
Proof.
  intros H. unfold escapes. cbn [omap list_omap].
  destruct e as [k| |]; [|done|done]. by rewrite (H k eq_refl).
Qed.

Lemma event_cases (e : Event) :
  (exists k, e = KeyPress k /\ isEscape k = true)
  \/ (forall k, e = KeyPress k -> isEscape k = false).
Proof.
  destruct e as [k| |]; [|by right|by right].
  destruct (isEscape k) eqn:E; [left; eauto|right].
  intros k' Hk. by injection Hk as <-.
Qed.

(** An Escape press more than 1200 ms after the previous one starts the
    count again. *)
Lemma escape_spaced_step event s :
  debug_mode env = true -> _locked s = true -> isEscape event = true ->
  1200 < now event - _debugAbortSequenceLastTime s ->
  let s' := step env s (KeyPress event) in
  _locked s' = true /\ _debugAbortSequenceCount s' = 1
  /\ _debugAbortSequenceLastTime s' = now event.
Proof.
  intros Hd Hl He Ht.
  destruct (escape_fields env event s Hl He) as (-> & L0 & P0 & E0 & C0 & T0 & _).
  set (s0 := set_passwordBuffer [] (_resetPasswordTimeout env s)) in *.
  cbv zeta.
  destruct (updatePasswordPrompt_fields env (_handleDebugAbortSequence env (now event) s0))
    as (Ul & _ & _ & _ & Uc & Ut & _).
  rewrite Ul, Uc, Ut.
  unfold _handleDebugAbortSequence, _isDebugMode. rewrite Hd, L0. cbn [negb orb].
  cbv zeta. rewrite T0.
  destruct (Z.ltb_spec 1200 (now event - _debugAbortSequenceLastTime s)); [|lia].
  simpl. done.
Qed.

Lemma run_chain es : forall s n t,
  debug_mode env = true -> 1 <= n ->
  (_locked s = false
   \/ (_locked s = true /\ _debugAbortSequenceLastTime s = t
       /\ n <= _debugAbortSequenceCount s < 5)) ->
  chained t (escapes es) ->
  _locked (run env s es) = false
  \/ (_locked (run env s es) = true
      /\ n + Z.of_nat (length (escapes es)) <= _debugAbortSequenceCount (run env s es) < 5).
Proof.
  induction es as [|e es IH]; intros s n t Hd Hn Hinv Hch.
  { destruct Hinv as [?|(? & ? & ?)]; [by left|right]. simpl. split; [done|lia]. }
  destruct Hinv as [Hu|(Hl & Ht & Hc)].
  { left. by apply run_unlocked. }
  change (run env s (e :: es)) with (run env (step env s e) es).
  destruct (event_cases e) as [(k & -> & Hk)|Hne].
  - rewrite (escapes_cons_escape k es Hk) in *. destruct Hch as [Hgap Hch].
    destruct (escape_debug_step env k s Hd Hl Hk ltac:(lia)) as (_ & _ & Hstep).
    cbv zeta in Hstep.
    destruct (IH (step env s (KeyPress k)) (n + 1) (now k) Hd ltac:(lia)) as [H|[H1 H2] ].
    + destruct Hstep as [?|(? & ? & ? & Hk1)]; [by left|right].
      rewrite Ht in Hk1. specialize (Hk1 Hgap). split; [done|]. split; [done|]. lia.
    + done.
    + by left.
    + right. split; [done|]. cbn [length]. lia.
  - rewrite (escapes_cons_other e es Hne) in *.
    destruct (other_event_counter e s Hl Hne) as [(L & C & T)|(L & _)].
    + apply (IH _ n t Hd Hn); [|done]. right. rewrite C, T. done.
    + left. by apply run_unlocked.
Qed.

(** X21: in debug mode the window of the Escape sequence slides: five
    Escape presses, each at most 1200 ms after the previous one, unlock
    the session even when they do not fit into one window of 1200 ms and
    whatever other keys, failed verifications or timeouts come in
    between. *)
Theorem chained_escapes_unlock s es k ks :
  debug_mode env = true -> 0 <= _debugAbortSequenceCount s ->
  escapes es = k :: ks -> chained (now k) ks -> (4 <= length ks)%nat ->
  _locked (run env s es) = false.
Proof.
  intros Hd Hc He Hch Hlen. revert s Hc He.
  induction es as [|e es IH]; intros s Hc He; [done|].
  destruct (_locked s) eqn:Hl; [|by apply run_unlocked].
  change (run env s (e :: es)) with (run env (step env s e) es).
  destruct (event_cases e) as [(k' & -> & Hk)|Hne].
  - rewrite (escapes_cons_escape k' es Hk) in He. injection He as -> Hks.
    destruct (escape_debug_step env k s Hd Hl Hk Hc) as (_ & _ & Hstep).
    cbv zeta in Hstep.
    destruct (run_chain es (step env s (KeyPress k)) 1 (now k) Hd ltac:(lia))
      as [H|[_ H] ].
    + destruct Hstep as [?|(? & ? & ? & _)]; [by left|by right].
    + by rewrite Hks.
    + done.
    + rewrite Hks in H. lia.
  - rewrite (escapes_cons_other e es Hne) in He.
    destruct (other_event_counter e s Hl Hne) as [(L & C & T)|(L & _)].
    + apply IH; [by rewrite C|done].
    + by apply run_unlocked.
Qed.

(** X22: in debug mode, Escape presses that are each more than 1200 ms
    after the previous one never unlock, however many there are, as long
    as no emergency chord and no successful verification comes in
    between. *)
Theorem spaced_escapes_never_unlock s es :
  debug_mode env = true -> _locked s = true ->
  Forall (fun e => harmless e = true) es ->
  spaced (_debugAbortSequenceLastTime s) (escapes es) ->
  _locked (run env s es) = true.
Proof.
  intros Hd Hl HF. revert s Hl.
  induction HF as [|e es He _ IH]; intros s Hl Hsp; [done|].
  change (run env s (e :: es)) with (run env (step env s e) es).
  destruct (event_cases e) as [(k & -> & Hk)|Hne].
  - rewrite (escapes_cons_escape k es Hk) in Hsp. destruct Hsp as [Hgap Hsp].
    destruct (escape_spaced_step k s Hd Hl Hk Hgap) as (L & _ & T).
    apply IH; [done|]. by rewrite T.
  - rewrite (escapes_cons_other e es Hne) in Hsp.
    destruct (other_event_counter e s Hl Hne) as [(L & C & T)|(L & Hh)];
      [|congruence].
    apply IH; [done|]. by rewrite T.
Qed.

(** ** The prompt mirrors the buffer *)

Section Prompt.

Hypothesis no_script : custom_js env = None.

Lemma update_sync x : iconOk x -> promptInSync (_updatePasswordPrompt env x).
Proof.
  intros Hi p. unfold _updatePasswordPrompt.
  destruct (_passwordPrompt x) as [q|] eqn:E.
  - rewrite no_script. simpl. intros [= <-]. simpl.
    split; [done|]. by apply Hi.
  - rewrite E. done.
Qed.

Lemma sync_icon s : promptInSync s -> iconOk s.
Proof. intros H p Hp. by apply H. Qed.

Lemma iconOk_same s x :
  iconOk s -> _passwordPrompt x = _passwordPrompt s ->
  _passwordPromptRevealed x = _passwordPromptRevealed s -> iconOk x.
Proof. intros H Hp Hr p. unfold revealIcon. rewrite Hp, Hr. apply H. Qed.

Lemma sync_same s x :
  promptInSync s -> _passwordPrompt x = _passwordPrompt s ->
  _passwordPromptRevealed x = _passwordPromptRevealed s ->
  _passwordBuffer x = _passwordBuffer s -> promptInSync x.
Proof.
  intros H Hp Hr Hb p. unfold displayText, revealIcon. rewrite Hp, Hr, Hb. apply H.
Qed.

Lemma sync_none s : _passwordPrompt s = None -> promptInSync s.
Proof. intros H p. by rewrite H. Qed.

Lemma key_step_sync event s :
  promptInSync s -> promptInSync (step env s (KeyPress event)).
Proof.
  intros Hs. cbn [step]. unfold _onKeyPress.
  destruct (_locked s) eqn:Hl; cbn [negb]; [|done]. cbv zeta.
  destruct (resetPasswordTimeout_fields env s)
    as (Rl & Rb & Rd & Rc & Rt & Rp & Rr & Rpe & Re).
  set (s1 := _resetPasswordTimeout env s) in *.
  assert (Hs1 : promptInSync s1) by (by apply (sync_same s)).
  assert (Hi1 : iconOk s1) by (by apply sync_icon).
  destruct (_ && _ && _ && _); cbn [fst].
  { apply sync_none. unfold _fallbackToSystemLock.
    destruct (unlock_forced s1) as (_ & _ & Pu & _). done. }
  destruct (_ || _); cbn [fst].
  { apply update_sync. unfold _attemptUnlock.
    destruct (length (_passwordBuffer s1) =? 0)%nat; [done|]. cbv zeta.
    destruct (updatePasswordPrompt_fields env (set_passwordBuffer [] s1))
      as (_ & _ & _ & _ & _ & _ & Ur & _).
    apply (iconOk_same (_updatePasswordPrompt env (set_passwordBuffer [] s1)));
      [|done|done].
    apply sync_icon, update_sync. by apply (iconOk_same s1). }
  match goal with
  | |- context [if ?b then (_updatePasswordPrompt env ?x, _) else _] =>
      destruct b; cbn [fst]
  end.
  { apply update_sync. destruct (_passwordPrompt _) as [q|] eqn:E.
    - intros p. simpl. intros [= <-]. done.
    - intros p. simpl. by rewrite E. }
  destruct (get_key_symbol event =? KEY_BackSpace); cbn [fst].
  { apply update_sync. destruct (0 <? _)%nat; by apply (iconOk_same s1). }
  destruct (get_key_symbol event =? KEY_Escape); cbn [fst].
  { apply update_sync.
    destruct (handleDebugAbortSequence_cases (now event) (set_passwordBuffer [] s1))
      as (_ & _ & [(_ & _ & P' & R' & _)|(_ & _ & _ & _ & P' & _)] & _).
    - by apply (iconOk_same s1).
    - intros p. by rewrite P'. }
  destruct (isModifierKey (get_key_symbol event)); cbn [fst]; [done|].
  destruct (negb (decodeKeychar env event =? 0)); cbn [fst]; [|done].
  destruct (JS.fromCodePoint (decodeKeychar env event)); cbn [fst]; [|done].
  apply update_sync. by apply (iconOk_same s1).
Qed.

(** X23: with no prompt script installed, the prompt keeps showing the
    buffer: if its text is one bullet per code unit of the buffer, or the
    buffer itself when reveal mode is on, and its icon tells which of the
    two modes is on (as when the prompt is created), then the same holds
    after any sequence of key presses, verification results and
    inactivity timeouts. *)
Theorem prompt_mirrors_buffer s es :
  promptInSync s -> promptInSync (run env s es).
Proof.
  revert s. induction es as [|e es IH]; intros s Hs; [done|].
  change (run env s (e :: es)) with (run env (step env s e) es). apply IH.
  destruct e as [event|i success|].
  - by apply key_step_sync.
  - cbn [step]. unfold _attemptUnlock_resumed.
    destruct (pending s !! i) as [r|]; [|done].
    destruct success.
    + destruct (_locked s) eqn:Hl.
      * rewrite unlock_locked by done. apply sync_none.
        destruct (unlock_forced (set_pending (delete i (pending s)) s))
          as (_ & _ & Pu & _). done.
      * rewrite unlock_unlocked by done. by apply (sync_same s).
    + destruct (resetPasswordTimeout_fields env (set_pending (delete i (pending s)) s))
        as (_ & Rb & _ & _ & _ & Rp & Rr & _).
      by apply (sync_same s).
  - cbn [step]. unfold passwordResetTimeoutFired.
    destruct (_passwordResetTimeoutId s); [|done]. cbv zeta.
    apply (sync_same (_updatePasswordPrompt env (set_passwordBuffer [] s))); try done.
    apply update_sync. by apply (iconOk_same s); [apply sync_icon|..].
Qed.

End Prompt.

(** ** Typing and erasing *)






End WithEnv.

Lemma unlocked_session_holds_nothing_witness :
  quiet (run env0 locked0
           [KeyPress (key 0x61 0); KeyPress (key KEY_Return 1); AuthResolved 0 true;
            KeyPress (key 0x62 2)]).
Proof.
  apply (unlocked_session_holds_nothing env0 locked0).
  intros H. discriminate H.
Defined.

Lemma escape_counter_witness :
  counterOk (run envDebug locked0
               [KeyPress (key KEY_Escape 1000); KeyPress (key KEY_Escape 1100);
                KeyPress (key 0x61 1200); ResetTimerFired]).
Proof.
  apply (escape_counter_stays_in_range envDebug locked0).
  split; [simpl; lia|]. intros _. simpl. lia.
Defined.

Lemma locked_until_verified_witness :
  _locked (run env0 locked0
             [KeyPress (key 0x61 0); KeyPress (key KEY_Return 1);
              AuthResolved 0 false; KeyPress (key KEY_Escape 2);
              ResetTimerFired]) = true.
Proof.
  apply (locked_until_verified env0 locked0); [reflexivity|reflexivity|].
  repeat constructor.
Defined.

Lemma verifications_bounded_witness :
  (length (spawned (run env0 locked0
                      [KeyPress (key 0x61 0); KeyPress (key KEY_Return 1);
                       KeyPress (key KEY_Return 2)])) <= 0 + 2)%nat.
Proof.
  exact (proj1 (verifications_bounded_by_enter_presses env0 locked0
                  [KeyPress (key 0x61 0); KeyPress (key KEY_Return 1);
                   KeyPress (key KEY_Return 2)])).
Defined.

Lemma emergency_chord_witness :
  _locked (step env0 locked0 (KeyPress (emergencyKey 0))) = false
  /\ effects (step env0 locked0 (KeyPress (emergencyKey 0)))
     = [Teardown; ScreenShieldLock].
Proof.
  pose proof (emergency_chord_always_unlocks env0 (emergencyKey 0) locked0
                eq_refl eq_refl) as (H1 & _ & _ & _ & _ & _ & H2 & _).
  split; [exact H1 | exact H2].
Defined.

Lemma inactivity_reset_witness :
  _passwordBuffer (run env0 locked0 [KeyPress (key 0x61 0); ResetTimerFired]) = [].
Proof.
  refine (proj1 (inactivity_reset_discards_typed_text env0
                   (step env0 locked0 (KeyPress (key 0x61 0))) _ _)).
  - reflexivity.
  - exists 5000. reflexivity.
Defined.

Lemma verification_outcome_witness :
  let s := keys env0 locked0 [key 0x61 0; key KEY_Return 1] in
  _locked (step env0 s (AuthResolved 0 true)) = false
  /\ _locked (step env0 s (AuthResolved 0 false)) = true.
Proof.
  cbv zeta.
  pose proof (verification_outcome_handling env0 0 (_verifyPassword env0 [0x61])
                (keys env0 locked0 [key 0x61 0; key KEY_Return 1]) eq_refl) as [H _].
  destruct (H eq_refl) as [(H1 & _) (H2 & _)].
  split; [exact H1 | exact H2].
Defined.

Lemma key_press_rearms_witness :
  _passwordResetTimeoutId (step env0 locked0 (KeyPress (key 0x61 0))) = Some 5000.
Proof.
  refine (proj1 (key_press_rearms_inactivity_timer env0 (key 0x61 0) locked0 eq_refl) _).
  reflexivity.
Defined.

Lemma chained_escapes_witness :
  _locked (run envDebug locked0
             [KeyPress (key KEY_Escape 1000); KeyPress (key 0x61 1500);
              KeyPress (key KEY_Escape 2000); ResetTimerFired;
              KeyPress (key KEY_Escape 3000); KeyPress (key KEY_Escape 4000);
              KeyPress (key KEY_Escape 5000)]) = false.
Proof.
  apply (chained_escapes_unlock envDebug locked0 _ (key KEY_Escape 1000)
           [key KEY_Escape 2000; key KEY_Escape 3000; key KEY_Escape 4000;
            key KEY_Escape 5000]).
  - reflexivity.
  - simpl. lia.
  - reflexivity.
  - simpl. lia.
  - simpl. lia.
Defined.

Lemma spaced_escapes_witness :
  _locked (run envDebug locked0
             [KeyPress (key KEY_Escape 2000); KeyPress (key KEY_Escape 4000);
              KeyPress (key KEY_Escape 6000); KeyPress (key KEY_Escape 8000);
              KeyPress (key KEY_Escape 10000); KeyPress (key KEY_Escape 12000)])
  = true.
Proof.
  apply (spaced_escapes_never_unlock envDebug locked0).
  - reflexivity.
  - reflexivity.
  - repeat constructor.
  - simpl. lia.
Defined.

Lemma prompt_mirrors_buffer_witness :
  promptInSync (run env0 lockedNormal
                  [KeyPress (key 0x61 0); KeyPress (key 0x62 1);
                   KeyPress (key KEY_BackSpace 2); ResetTimerFired]).
Proof.
  apply (prompt_mirrors_buffer env0 eq_refl lockedNormal).
  intros p Hp. injection Hp as <-. split; reflexivity.
Defined.


End SessionFacts.

(** ** Media players and cursor colours *)

Module MediaOrderFacts.

Import Media MediaSpec MediaFacts.

Section WithBus.

Variable bus : Bus.

Lemma statusQueries_app cs cs' :
  statusQueries (cs ++ cs') = statusQueries cs ++ statusQueries cs'.
Proof. unfold statusQueries. apply omap_app. Qed.

Lemma statusQueries_pauseCalls players :
  statusQueries (flat_map (pauseCalls bus) players) = players.
Proof.
  induction players as [|p players IH]; [done|].
  cbn [flat_map]. rewrite statusQueries_app, IH.
  unfold pauseCalls. by destruct (isPlaying bus p).
Qed.

Lemma pauseCalls_target players c n :
  In c (flat_map (pauseCalls bus) players) -> target c = Some n -> In n players.
Proof.
  intros Hc Ht. apply in_flat_map in Hc as (p & Hp & Hc).
  unfold pauseCalls in Hc. destruct Hc as [<-|Hc].
  - simpl in Ht. by injection Ht as <-.
  - destruct (isPlaying bus p); [|done]. destruct Hc as [<-|[] ].
    simpl in Ht. by injection Ht as <-.
Qed.

Lemma pauseAllMedia_eq s :
  _pauseAllMedia bus s =
    {| _pausedPlayers := List.filter (pausedOk bus) (mprisPlayers bus);
       calls := calls s ++ ListNames :: flat_map (pauseCalls bus) (mprisPlayers bus) |}.
Proof.
  unfold _pauseAllMedia, mprisPlayers. cbv zeta. destruct (names bus) as [ns|]; simpl.
  - rewrite pausePlayers_spec. simpl. by rewrite <- app_assoc.
  - done.
Qed.

(** X25: one round of [_pauseAllMedia] lists the names and then asks
    every MPRIS player on the bus for its status exactly once, in bus
    order, whether or not the calls to other players fail; it contacts
    only names with the MPRIS prefix; every recorded player received a
    Pause call; and when listing the names fails nothing else is called
    and nothing is recorded. *)
Theorem every_media_player_is_queried_once s :
  let s1 := _pauseAllMedia bus s in
  exists cs,
    calls s1 = calls s ++ ListNames :: cs
    /\ statusQueries cs = mprisPlayers bus
    /\ (forall c n, In c cs -> target c = Some n ->
          String.prefix MPRIS_PREFIX n = true /\ In n (default [] (names bus)))
    /\ (names bus = None -> cs = [] /\ _pausedPlayers s1 = [])
    /\ (forall n, In n (_pausedPlayers s1) -> In (Pause n) cs).
Proof.
  cbv zeta. rewrite pauseAllMedia_eq. cbn [calls _pausedPlayers].
  exists (flat_map (pauseCalls bus) (mprisPlayers bus)).
  split; [done|]. split; [apply statusQueries_pauseCalls|]. split; [|split].
  - intros c n Hc Ht. apply (pauseCalls_target _ _ _ Hc) in Ht.
    unfold mprisPlayers in Ht. apply filter_In in Ht as [? ?]. by split.
  - intros Hn. unfold mprisPlayers. by rewrite Hn.
  - intros n Hn. apply filter_In in Hn as [Hin Hok].
    apply in_flat_map. exists n. split; [done|].
    unfold pauseCalls, isPlaying. unfold pausedOk in Hok.
    destruct (playbackStatus bus n) as [st|]; [|done].
    apply andb_true_iff in Hok as [-> _]. right. by left.
Qed.

End WithBus.

Lemma every_media_player_witness :
  exists cs,
    calls (_pauseAllMedia busFailing idle) = [] ++ ListNames :: cs
    /\ statusQueries cs = ["org.mpris.MediaPlayer2.vlc"%string;
                           "org.mpris.MediaPlayer2.mpv"%string].
Proof.
  destruct (every_media_player_is_queried_once busFailing idle)
    as (cs & H1 & H2 & _).
  exists cs. split; [exact H1 | exact H2].
Defined.

Example failing_players_are_all_queried :
  calls (_pauseAllMedia busFailing idle)
  = [ListNames;
     GetPlaybackStatus "org.mpris.MediaPlayer2.vlc"%string;
     GetPlaybackStatus "org.mpris.MediaPlayer2.mpv"%string]
  /\ _pausedPlayers (_pauseAllMedia busFailing idle) = [].
Proof. by vm_compute. Qed.

End MediaOrderFacts.

(** ** The activations of the media coordinator *)

Module MediaTasksFacts.

Import Media MediaSpec MediaFacts MediaOrderFacts MediaTasks.

(** C8: a resume that is still waiting for an answer when the next lock
    starts clears the record of that lock.  The first lock pauses [vlc]
    and [mpv]; the unlock sends Play to [vlc], gets its answer and sends
    Play to [mpv]; the second lock pauses [vlc] and records it; now the
    answer to the pending Play call arrives, and the first resume, at its
    end, replaces the record by an empty array; the second lock pauses
    [mpv] and records it.  The second lock has paused both players, but
    its record holds [mpv] only, and the second unlock sends Play to
    [mpv] only: [vlc] stays paused. *)
Theorem overlapping_resume_clears_the_next_record :
  let sA := run constructed firstCycle in
  let sB := run sA secondLock in
  let sC := run sB secondUnlock in
  let lB := drop (length (log sA)) (log sB) in
  let lC := drop (length (log sB)) (log sC) in
  log sB = log sA ++ lB /\ log sC = log sB ++ lC
  /\ played (log sA) = [vlc; mpv]
  /\ paused lB = [vlc; mpv] /\ played lB = []
  /\ record sB = [mpv]
  /\ played lC = [mpv]
  /\ tasks sC = [Ended; Ended; Ended; Ended]
  /\ ~ In (Call (Play vlc)) lC.
Proof.
  cbv zeta. repeat (split; [reflexivity|]).
  vm_compute. intros H. repeat (destruct H as [H|H]; [discriminate H|]). exact H.
Qed.

(** *** Every entry of the log has its cause *)

Lemma causal_snoc l e : causal l -> caused l e -> causal (l ++ [e]).
Proof.
  intros Hl He l1 e' l2 Heq.
  destruct l2 as [|x l2 _] using rev_ind.
  - apply (app_inj_tail l l1 e e') in Heq as [-> ->]. done.
  - rewrite app_comm_cons, app_assoc in Heq.
    apply app_inj_tail in Heq as [-> _]. by apply (Hl l1 e' l2).
Qed.

Lemma invariant_emit e s : invariant s -> caused (log s) e -> invariant (emit e s).
Proof.
  intros (Hc & Ha & Ht) He. split; [by apply causal_snoc|]. split.
  - intros k a n Hk Hn. simpl. apply in_or_app. left. by apply (Ha k a).
  - intros k t c Hk Hp. simpl. apply in_or_app. left. by apply (Ht k t).
Qed.

Lemma invariant_set_task id t s :
  invariant s -> (forall c, pending t = Some c -> In (Call c) (log s)) ->
  invariant (set_task id t s).
Proof.
  intros (Hc & Ha & Ht) Hp. split; [done|]. split; [done|].
  intros k t' c Hk Hp'. simpl in Hk.
  apply list_lookup_insert_Some in Hk as [(_ & <- & _)|(_ & Hk)].
  - by apply Hp.
  - by apply (Ht k t').
Qed.

Lemma invariant_spawn t s :
  invariant s -> (forall c, pending t = Some c -> In (Call c) (log s)) ->
  invariant (spawn t s).
Proof.
  intros (Hc & Ha & Ht) Hp. split; [done|]. split; [done|].
  intros k t' c Hk Hp'. simpl in Hk.
  apply lookup_app_Some in Hk as [Hk|(_ & Hk)].
  - by apply (Ht k t').
  - destruct (k - length (tasks s))%nat; [|done]. injection Hk as <-. by apply Hp.
Qed.

Lemma invariant_alloc s : invariant s -> invariant (alloc s).
Proof.
  intros (Hc & Ha & Ht). split; [done|]. split; [|done].
  intros k a n Hk Hn. simpl in Hk.
  apply lookup_app_Some in Hk as [Hk|(_ & Hk)].
  - by apply (Ha k a).
  - destruct (k - length (arrays s))%nat; [|done]. injection Hk as <-. done.
Qed.

Lemma invariant_push p s :
  invariant s -> In (pauseReturned p) (log s) -> invariant (push p s).
Proof.
  intros (Hc & Ha & Ht) Hp. split; [done|]. split; [|done].
  intros k a n Hk Hn. simpl in Hk.
  destruct (decide (_pausedPlayers s = k)) as [Heq|Hne].
  - rewrite Heq, list_lookup_alter_eq in Hk.
    destruct (arrays s !! k) as [a0|] eqn:E; [|done]. injection Hk as <-.
    apply in_app_or in Hn as [Hn|[<-|[] ] ]; [by apply (Ha k a0)|done].
  - rewrite list_lookup_alter_ne in Hk by done. by apply (Ha k a).
Qed.

Lemma invariant_nextPlayer id players s :
  invariant s -> invariant (nextPlayer id players s).
Proof.
  intros Hs. destruct players as [|p rest]; simpl.
  - by apply invariant_set_task.
  - apply invariant_set_task; [by apply invariant_emit|].
    intros c [= <-]. simpl. apply in_or_app. right. by left.
Qed.

Lemma invariant_resumeAt id arr i s :
  invariant s -> invariant (resumeAt id arr i s).
Proof.
  intros Hs. unfold resumeAt.
  destruct (arrays s !! arr) as [a|] eqn:Ea; simpl.
  - destruct (a !! i) as [p|] eqn:Ep.
    + assert (Hp : In (pauseReturned p) (log s)).
      { destruct Hs as (_ & Ha & _). apply (Ha arr a); [done|].
        apply list_elem_of_In. by apply (list_elem_of_lookup_2 _ i). }
      apply invariant_set_task; [by apply invariant_emit|].
      intros c [= <-]. simpl. apply in_or_app. right. by left.
    + apply invariant_set_task; [by apply invariant_alloc|done].
  - apply invariant_set_task; [by apply invariant_alloc|done].
Qed.

Lemma invariant_step s e : invariant s -> invariant (step s e).
Proof.
  intros Hs. destruct e as [| |id a]; cbn [step].
  - unfold _pauseAllMedia. apply invariant_spawn.
    + apply invariant_emit; [by apply invariant_alloc|done].
    + intros c [= <-]. simpl. apply in_or_app. right. by left.
  - unfold _resumeAllMedia. apply invariant_resumeAt. by apply invariant_spawn.
  - unfold resumed.
    destruct (tasks s !! id) as [t|] eqn:Et; [|done].
    assert (Hpend : forall c, pending t = Some c -> In (Call c) (log s)).
    { intros c. destruct Hs as (_ & _ & Ht). by apply (Ht id t). }
    destruct t as [|p rest|p rest|p arr i|], a as [ns|st|ok]; try done; cbv zeta.
    + assert (Hs1 : invariant (emit (Answered ListNames (Names ns)) s))
        by (apply invariant_emit; [done|by apply Hpend]).
      destruct ns as [names|]; [by apply invariant_nextPlayer|].
      by apply invariant_set_task.
    + assert (Hs1 : invariant (emit (Answered (GetPlaybackStatus p) (Status st)) s))
        by (apply invariant_emit; [done|by apply Hpend]).
      destruct st as [status|]; [|by apply invariant_nextPlayer].
      destruct (String.eqb_spec status "Playing"%string) as [->|_];
        [|by apply invariant_nextPlayer].
      apply invariant_set_task.
      * apply invariant_emit; [done|]. simpl. by eexists.
      * intros c [= <-]. simpl. apply in_or_app. right. by left.
    + assert (Hs1 : invariant (emit (Answered (Pause p) (Returned ok)) s))
        by (apply invariant_emit; [done|by apply Hpend]).
      apply invariant_nextPlayer. destruct ok; [|done].
      apply invariant_push; [done|]. simpl. apply in_or_app. right. by left.
    + apply invariant_resumeAt. apply invariant_emit; [done|by apply Hpend].
Qed.

Lemma invariant_run es : forall s, invariant s -> invariant (run s es).
Proof.
  induction es as [|e es IH]; intros s Hs; [done|].
  unfold run in *. cbn [fold_left]. apply IH. by apply invariant_step.
Qed.

Lemma invariant_constructed : invariant constructed.
Proof.
  split; [|split].
  - intros l1 e l2 H. by destruct l1.
  - intros [|k] a n Hk Hn; [|done]. injection Hk as <-. done.
  - intros k t c Hk. done.
Qed.

(** X29: under every interleaving of locks, unlocks and bus answers,
    whatever the answers are, every entry of the log has its cause
    before it: a Pause call directly follows the answer that the player
    is playing, a Play call follows a Pause call to the same player that
    returned, and an answer follows its call; and every player in the
    record has a Pause call that returned. *)
Theorem play_only_after_successful_pause es :
  let s := run constructed es in
  (forall l1 e l2, log s = l1 ++ e :: l2 -> caused l1 e)
  /\ (forall n, In n (record s) -> In (pauseReturned n) (log s)).
Proof.
  cbv zeta.
  destruct (invariant_run es constructed invariant_constructed) as (Hc & Ha & _).
  split; [exact Hc|].
  intros n Hn. unfold record in Hn.
  destruct (arrays (run constructed es) !! _pausedPlayers (run constructed es))
    as [a|] eqn:E; [|done].
  exact (Ha _ a n E Hn).
Qed.

Lemma play_only_after_successful_pause_witness :
  In (pauseReturned mpv) (log (run (run constructed firstCycle) secondLock)).
Proof.
  apply (proj2 (play_only_after_successful_pause (firstCycle ++ secondLock))).
  vm_compute. left. reflexivity.
Defined.

(** *** A resume that runs alone *)

Lemma played_app l l' : played (l ++ l') = played l ++ played l'.
Proof. unfold played. apply omap_app. Qed.

Lemma played_resumeEntries players : forall oks,
  length oks = length players -> played (resumeEntries players oks) = players.
Proof.
  induction players as [|p players IH]; intros [|ok oks] Hl; try done.
  unfold resumeEntries in *. simpl. f_equal. apply IH. simpl in Hl. lia.
Qed.

(** From the [await] of a Play call on: the answers arrive one by one,
    no other activation moves, and the loop runs to its end. *)
Lemma resume_from id arr a : forall rest i p ok oks s,
  tasks s !! id = Some (AwaitPlay p arr i) ->
  arrays s !! arr = Some a -> drop (S i) a = rest ->
  length oks = length rest ->
  run s (map (fun ok => Reply id (Returned ok)) (ok :: oks))
  = {| arrays := arrays s ++ [ [] ]; _pausedPlayers := length (arrays s);
       tasks := <[id := Ended]> (tasks s);
       log := log s ++ Answered (Play p) (Returned ok) :: resumeEntries rest oks |}.
Proof.
  induction rest as [|q rest IH]; intros i p ok oks s Ht Ha Hd Hl.
  - destruct oks; [|done]. unfold run. simpl. unfold resumed. rewrite Ht.
    unfold resumeAt. cbn [arrays emit]. rewrite Ha. cbn [mbind option_bind].
    assert (a !! S i = None) as ->.
    { apply lookup_ge_None.
      pose proof (length_drop a (S i)) as Hlen. rewrite Hd in Hlen. simpl in Hlen. lia. }
    done.
  - destruct oks as [|ok' oks]; [done|].
    assert (Hq : a !! S i = Some q).
    { pose proof (lookup_drop a (S i) 0) as H. rewrite Hd in H. simpl in H.
      by rewrite Nat.add_0_r in H. }
    change (run s (map (fun ok => Reply id (Returned ok)) (ok :: ok' :: oks)))
      with (run (resumed id (Returned ok) s)
                (map (fun ok => Reply id (Returned ok)) (ok' :: oks))).
    unfold resumed at 1. rewrite Ht. unfold resumeAt. cbn [arrays emit].
    rewrite Ha. cbn [mbind option_bind]. rewrite Hq.
    rewrite (IH (S i) q ok' oks).
    + simpl. rewrite list_insert_insert_eq. f_equal.
      rewrite <- !app_assoc. done.
    + simpl. apply list_lookup_insert_eq. by apply lookup_lt_Some in Ht.
    + done.
    + rewrite (drop_S a q (S i) Hq) in Hd. by injection Hd.
    + simpl in Hl. lia.
Qed.

Lemma resume_of_empty_record s :
  record s = [] ->
  _resumeAllMedia s
  = {| arrays := arrays s ++ [ [] ]; _pausedPlayers := length (arrays s);
       tasks := tasks s ++ [Ended]; log := log s |}.
Proof.
  intros Hr. unfold _resumeAllMedia, resumeAt. cbn [arrays spawn tasks].
  assert (arrays s !! _pausedPlayers s ≫= (fun a => a !! 0%nat) = None) as ->.
  { unfold record in Hr. destruct (arrays s !! _pausedPlayers s) as [a|]; [|done].
    simpl in Hr. by subst a. }
  unfold set_task, alloc. simpl. f_equal.
  rewrite insert_app_r_alt by lia. rewrite Nat.sub_diag. done.
Qed.

(** X26: a resume that runs alone (no lock starts and no other
    activation moves before its last answer has arrived) sends one Play
    call to each recorded player, in the order recorded, each after the
    answer to the one before, whether the calls return or fail; at its end
    the record is empty, so that a resume that starts after it sends
    nothing. *)
Theorem resume_plays_each_recorded_player_once s oks :
  length oks = length (record s) ->
  let id := length (tasks s) in
  let s' := run (_resumeAllMedia s) (map (fun ok => Reply id (Returned ok)) oks) in
  log s' = log s ++ resumeEntries (record s) oks
  /\ played (log s') = played (log s) ++ record s
  /\ record s' = [] /\ tasks s' = tasks s ++ [Ended]
  /\ log (_resumeAllMedia s') = log s' /\ record (_resumeAllMedia s') = [].
Proof.
  intros Hl. cbv zeta.
  assert (G : exists lg,
    run (_resumeAllMedia s) (map (fun ok => Reply (length (tasks s)) (Returned ok)) oks)
    = {| arrays := arrays s ++ [ [] ]; _pausedPlayers := length (arrays s);
         tasks := tasks s ++ [Ended]; log := lg |}
    /\ lg = log s ++ resumeEntries (record s) oks).
  { destruct (record s) as [|p rest] eqn:Hr.
    - destruct oks; [|done]. rewrite (resume_of_empty_record s Hr).
      eexists. split; [done|]. by rewrite app_nil_r.
    - destruct oks as [|ok oks]; [done|].
      unfold record in Hr.
      destruct (arrays s !! _pausedPlayers s) as [a|] eqn:Ea; [|done].
      simpl in Hr. subst a.
      unfold _resumeAllMedia, resumeAt. cbn [arrays spawn tasks].
      rewrite Ea. cbn [mbind option_bind lookup list_lookup].
      rewrite (resume_from (length (tasks s)) (_pausedPlayers s) (p :: rest)
                 rest 0 p ok oks).
      + eexists. split.
        * simpl. rewrite list_insert_insert_eq.
          rewrite insert_app_r_alt by lia. rewrite Nat.sub_diag. done.
        * simpl. by rewrite <- app_assoc.
      + simpl. apply list_lookup_insert_eq. rewrite length_app. simpl. lia.
      + done.
      + done.
      + simpl in Hl. lia. }
  destruct G as (lg & -> & ->).
  assert (Hrec : record {| arrays := arrays s ++ [ [] ];
                           _pausedPlayers := length (arrays s);
                           tasks := tasks s ++ [Ended];
                           log := log s ++ resumeEntries (record s) oks |} = []).
  { unfold record. simpl. rewrite lookup_app_r by lia. by rewrite Nat.sub_diag. }
  split; [done|]. split.
  { simpl. by rewrite played_app, played_resumeEntries. }
  split; [exact Hrec|]. split; [done|].
  rewrite (resume_of_empty_record _ Hrec). split; [done|].
  unfold record. simpl. rewrite lookup_app_r by (rewrite length_app; simpl; lia).
  rewrite length_app. simpl.
  by replace (length (arrays s) + 1 - (length (arrays s) + 1))%nat with 0%nat by lia.
Qed.

Lemma resume_plays_witness :
  let s := run constructed
             [ LockPauses; Reply 0 (Names (Some [vlc; mpv]));
               Reply 0 (Status (Some "Playing"%string)); Reply 0 (Returned true);
               Reply 0 (Status (Some "Playing"%string)); Reply 0 (Returned true) ] in
  played (log (run (_resumeAllMedia s) [Reply 1 (Returned true); Reply 1 (Returned false)]))
  = [vlc; mpv].
Proof.
  cbv zeta.
  refine (proj1 (proj2 (resume_plays_each_recorded_player_once
                          (run constructed
                             [ LockPauses; Reply 0 (Names (Some [vlc; mpv]));
                               Reply 0 (Status (Some "Playing"%string));
                               Reply 0 (Returned true);
                               Reply 0 (Status (Some "Playing"%string));
                               Reply 0 (Returned true) ])
                          [true; false] _))).
  reflexivity.
Defined.

(** *** A pause round that runs alone *)

Lemma callsOf_app l l' : callsOf (l ++ l') = callsOf l ++ callsOf l'.
Proof. unfold callsOf. apply omap_app. Qed.

Lemma run_app s es es' : run s (es ++ es') = run (run s es) es'.
Proof. unfold run. apply fold_left_app. Qed.

Lemma record_push p s :
  (_pausedPlayers s < length (arrays s))%nat -> record (push p s) = record s ++ [p].
Proof.
  intros Hlt. unfold record. simpl. rewrite list_lookup_alter_eq.
  destruct (lookup_lt_is_Some_2 _ _ Hlt) as [a ->]. done.
Qed.

(** The loop of [_pauseAllMedia] from the head of an iteration on, with
    the answers of a bus that answers by name and no other activation
    moving. *)
Lemma pause_players_alone bus id : forall players s,
  (id < length (tasks s))%nat -> (_pausedPlayers s < length (arrays s))%nat ->
  let s' := run (nextPlayer id players s)
              (map (Reply id) (flat_map (playerAnswers bus) players)) in
  record s' = record s ++ List.filter (pausedOk bus) players
  /\ callsOf (log s') = callsOf (log s) ++ flat_map (pauseCalls bus) players
  /\ tasks s' = <[id := Ended]> (tasks s).
Proof.
  induction players as [|p rest IH]; intros s Hid Hcur; cbv zeta.
  { simpl. by rewrite !app_nil_r. }
  cbn [flat_map]. rewrite map_app, run_app.
  assert (G : exists s1,
    run (nextPlayer id (p :: rest) s) (map (Reply id) (playerAnswers bus p))
    = nextPlayer id rest s1
    /\ record s1 = record s ++ (if pausedOk bus p then [p] else [])
    /\ callsOf (log s1) = callsOf (log s) ++ pauseCalls bus p
    /\ <[id := Ended]> (tasks s1) = <[id := Ended]> (tasks s)
    /\ length (tasks s1) = length (tasks s)
    /\ length (arrays s1) = length (arrays s)
    /\ _pausedPlayers s1 = _pausedPlayers s).
  { unfold playerAnswers, pauseCalls, isPlaying, pausedOk. cbn [nextPlayer].
    destruct (playbackStatus bus p) as [status|] eqn:Est.
    - destruct (String.eqb status "Playing"%string) eqn:Eq.
      + eexists. unfold run. cbn [map fold_left step]. unfold resumed at 2.
        cbn [tasks set_task emit]. rewrite list_lookup_insert_eq by done.
        rewrite Eq. unfold resumed. cbn [tasks set_task emit].
        rewrite list_lookup_insert_eq by (by rewrite length_insert).
        split; [reflexivity|].
        destruct (pause_ok bus p); cbn [andb].
        * rewrite record_push by done. unfold record. simpl.
          unfold callsOf. rewrite !omap_app. simpl. rewrite ?app_nil_r, <- ?app_assoc.
          rewrite ?list_insert_insert_eq, ?length_insert, ?length_alter. done.
        * unfold record. simpl.
          unfold callsOf. rewrite !omap_app. simpl. rewrite ?app_nil_r, <- ?app_assoc.
          rewrite ?list_insert_insert_eq, ?length_insert. done.
      + eexists. unfold run. cbn [map fold_left step]. unfold resumed.
        cbn [tasks set_task emit]. rewrite list_lookup_insert_eq by done.
        rewrite Eq. split; [reflexivity|].
        unfold record. simpl. unfold callsOf. rewrite !omap_app. simpl.
        rewrite ?app_nil_r, <- ?app_assoc.
        rewrite ?list_insert_insert_eq, ?length_insert. done.
    - eexists. unfold run. cbn [map fold_left step]. unfold resumed.
      cbn [tasks set_task emit]. rewrite list_lookup_insert_eq by done.
      split; [reflexivity|].
      unfold record. simpl. unfold callsOf. rewrite !omap_app. simpl.
      rewrite ?app_nil_r, <- ?app_assoc.
      rewrite ?list_insert_insert_eq, ?length_insert. done. }
  destruct G as (s1 & -> & Hr & Hc & Ht & Hlt & Hla & Hcu).
  destruct (IH s1) as (Hr' & Hc' & Ht'); [lia|lia|].
  rewrite Hr', Hc', Ht', Hr, Hc, Ht, <- !app_assoc. cbn [List.filter].
  split; [|done].
  by destruct (pausedOk bus p).
Qed.

(** X30: a pause round that runs alone, on a bus whose answers depend
    on the name asked only, sends the calls and leaves the record that
    [Media._pauseAllMedia] computes for that bus. *)
Theorem pause_round_alone bus s :
  let id := length (tasks s) in
  let s' := run (_pauseAllMedia s) (map (Reply id) (roundAnswers bus)) in
  {| Media._pausedPlayers := record s'; calls := callsOf (log s') |}
  = Media._pauseAllMedia bus
      {| Media._pausedPlayers := record s; calls := callsOf (log s) |}
  /\ tasks s' = tasks s ++ [Ended].
Proof.
  cbv zeta. rewrite pauseAllMedia_eq. cbn [calls].
  unfold roundAnswers, mprisPlayers.
  set (s0 := _pauseAllMedia s).
  assert (H0 : record s0 = [] /\ callsOf (log s0) = callsOf (log s) ++ [ListNames]
               /\ tasks s0 = tasks s ++ [AwaitNames]
               /\ (_pausedPlayers s0 < length (arrays s0))%nat).
  { subst s0. unfold _pauseAllMedia, record. simpl.
    rewrite lookup_app_r by lia. rewrite Nat.sub_diag.
    rewrite callsOf_app, length_app. simpl. split; [done|]. split; [done|].
    split; [done|lia]. }
  destruct H0 as (Hr0 & Hc0 & Ht0 & Hcur0). clearbody s0.
  cbn [map].
  change (run s0 (?e :: ?es)) with (run (step s0 e) es). cbn [step].
  unfold resumed. rewrite Ht0.
  rewrite lookup_app_r by lia. rewrite Nat.sub_diag. cbn [lookup list_lookup].
  cbv zeta.
  destruct (names bus) as [ns|] eqn:En; cbn [default from_option]; unfold id.
  - destruct (pause_players_alone bus (length (tasks s))
                (List.filter (String.prefix MPRIS_PREFIX) ns)
                (emit (Answered ListNames (Names (Some ns))) s0))
      as (Hr & Hc & Ht).
    + simpl. rewrite Ht0, length_app. simpl. lia.
    + simpl. exact Hcur0.
    + rewrite Hr, Hc, Ht. unfold record at 1. simpl. fold (record s0).
      rewrite Hr0, callsOf_app, Hc0. simpl. rewrite Ht0.
      rewrite insert_app_r_alt by lia. rewrite Nat.sub_diag.
      rewrite app_nil_r, <- !app_assoc. done.
  - simpl.
    unfold record at 1. simpl. fold (record s0).
    rewrite Hr0, callsOf_app, Hc0. simpl. rewrite Ht0.
    rewrite insert_app_r_alt by lia. rewrite Nat.sub_diag.
    rewrite app_nil_r. done.
Qed.

Lemma pause_round_alone_witness :
  record (run (_pauseAllMedia constructed) (map (Reply 0) (roundAnswers bus0)))
  = Media._pausedPlayers (Media._pauseAllMedia bus0 idle).
Proof.
  exact (f_equal Media._pausedPlayers (proj1 (pause_round_alone bus0 constructed))).
Defined.


Example one_cycle_in_sequence :
  let s := run constructed
             [ LockPauses;
               Reply 0 (Names (Some [vlc; "org.freedesktop.Notifications"%string; mpv]));
               Reply 0 (Status (Some "Playing"%string)); Reply 0 (Returned true);
               Reply 0 (Status (Some "Paused"%string));
               UnlockResumes; Reply 1 (Returned true) ] in
  callsOf (log s)
  = [ListNames; GetPlaybackStatus vlc; Pause vlc; GetPlaybackStatus mpv; Play vlc]
  /\ record s = [].
Proof. by vm_compute. Qed.

End MediaTasksFacts.

Module CursorColorsFacts.

Import Cursor CursorSpec CursorColors CursorFacts.

Lemma readRgba_isRgba unpacked fallback :
  isRgba fallback = true -> isRgba (readRgba unpacked fallback) = true.
Proof.
  intros Hf. unfold readRgba. destruct unpacked as [l|]; [|done].
  destruct (Nat.eqb_spec (length l) 4) as [Hl|Hl]; cbn [negb]; [|done].
  apply isRgba_spec in Hf as (r & g & b & a & -> & ? & ? & ? & ?).
  destruct l as [|v0 [|v1 [|v2 [|v3 [|? ?] ] ] ] ]; try discriminate.
  cbn [imap]. unfold compose.
  destruct v0 as [n0|], v1 as [n1|], v2 as [n2|], v3 as [n3|];
    unfold isRgba, index, clampByte; simpl;
    repeat (apply andb_true_iff; split); try done; apply Z.leb_le; lia.
Qed.

(** A pixel of the raster holds transparent black or one of the two
    colours. *)
Lemma pixel_cases xbm tw th colors x y :
  (x < tw)%nat -> (y < th)%nat ->
  isRgba (fgOf colors) = true -> isRgba (bgOf colors) = true ->
  let px := pixelAt (_renderXbmCursorRgba xbm tw th colors) tw x y in
  px = [0; 0; 0; 0] \/ px = fgOf colors \/ px = bgOf colors.
Proof.
  intros Hx Hy Hfg Hbg. cbv zeta.
  destruct (render_painted xbm tw th colors) as [_ Hp].
  rewrite (pixelAt_eq _ _ _ _ _ _ _ _
             (Hp x y 0%nat Hx Hy ltac:(lia)) (Hp x y 1%nat Hx Hy ltac:(lia))
             (Hp x y 2%nat Hx Hy ltac:(lia)) (Hp x y 3%nat Hx Hy ltac:(lia))).
  rewrite !decide_True by nia.
  unfold expected, colorAt.
  destruct (maskBit xbm tw th x y =? 0); [by left|right].
  apply isRgba_spec in Hfg as (r & g & b & a & -> & ? & ? & ? & ?).
  apply isRgba_spec in Hbg as (r' & g' & b' & a' & -> & ? & ? & ? & ?).
  destruct (selectorBit xbm tw th x y =? 0); [right|left];
    unfold index; simpl; by rewrite !Z.mod_small by lia.
Qed.

(** X27: the colours [_setLockCursor] reads from the settings are
    always four bytes each, whatever the settings hold, and the raster it
    renders from the embedded bitmap has width times height times 4
    bytes, every pixel being transparent black, the foreground colour or
    the background colour. *)
Theorem lock_cursor_uses_setting_colours fgSetting bgSetting tw th x y :
  (x < tw)%nat -> (y < th)%nat ->
  let colors := lockCursorColors fgSetting bgSetting in
  let raster := _renderXbmCursorRgba LOCK_CURSOR_XBM tw th colors in
  let px := pixelAt raster tw x y in
  fgOf colors = readRgba fgSetting [0; 0; 0; 255]
  /\ bgOf colors = readRgba bgSetting [255; 255; 255; 255]
  /\ isRgba (fgOf colors) = true /\ isRgba (bgOf colors) = true
  /\ length raster = (tw * th * 4)%nat
  /\ (px = [0; 0; 0; 0] \/ px = fgOf colors \/ px = bgOf colors).
Proof.
  intros Hx Hy. cbv zeta.
  assert (Hfg : isRgba (readRgba fgSetting [0; 0; 0; 255]) = true)
    by (by apply readRgba_isRgba).
  assert (Hbg : isRgba (readRgba bgSetting [255; 255; 255; 255]) = true)
    by (by apply readRgba_isRgba).
  split; [done|]. split; [done|]. split; [exact Hfg|]. split; [exact Hbg|].
  split.
  - by destruct (render_painted LOCK_CURSOR_XBM tw th
                   (lockCursorColors fgSetting bgSetting)) as [-> _].
  - by apply pixel_cases.
Qed.

(** X28: [readRgba] on a setting of four components clamps each
    numeric component to 0..255 (a byte is kept, a negative number gives
    0, a number above 255 gives 255) and takes the fallback's component
    where the setting's is not a finite number. *)
Theorem readRgba_clamps_components l fallback :
  length l = 4%nat -> isRgba fallback = true ->
  let c := readRgba (Some l) fallback in
  length c = 4%nat
  /\ (forall i n, l !! i = Some (Some n) ->
        c !! i = Some (clampByte n)
        /\ (0 <= n <= 255 -> c !! i = Some n)
        /\ (n < 0 -> c !! i = Some 0) /\ (255 < n -> c !! i = Some 255))
  /\ (forall i, l !! i = Some None -> c !! i = fallback !! i).
Proof.
  intros Hl Hf. cbv zeta. unfold readRgba. rewrite Hl. cbn [Nat.eqb negb].
  split; [by rewrite length_imap|]. split.
  - intros i n Hi.
    assert (E : imap (fun (i : nat) (v : option Z) =>
                        match v with
                        | Some n => clampByte n
                        | None => index fallback (Z.of_nat i)
                        end) l !! i = Some (clampByte n)).
    { rewrite list_lookup_imap, Hi. done. }
    rewrite E. split; [done|]. unfold clampByte.
    split; [|split]; intros; f_equal; lia.
  - intros i Hi. rewrite list_lookup_imap, Hi. simpl.
    assert (Hlt : (i < 4)%nat) by (rewrite <- Hl; by apply lookup_lt_Some in Hi).
    apply isRgba_spec in Hf as (r & g & b & a & -> & _).
    unfold index. destruct (Z.ltb_spec (Z.of_nat i) 0); [lia|].
    rewrite Nat2Z.id.
    destruct i as [|[|[|[|?] ] ] ]; simpl; try done. lia.
Qed.

Lemma lock_cursor_colours_witness :
  pixelAt (_renderXbmCursorRgba LOCK_CURSOR_XBM 22 32
             (lockCursorColors (Some [Some 300; Some 0; Some 0; Some 255]) None))
          22 0 0 = [0; 0; 0; 0]
  \/ pixelAt (_renderXbmCursorRgba LOCK_CURSOR_XBM 22 32
             (lockCursorColors (Some [Some 300; Some 0; Some 0; Some 255]) None))
          22 0 0 = [255; 0; 0; 255]
  \/ pixelAt (_renderXbmCursorRgba LOCK_CURSOR_XBM 22 32
             (lockCursorColors (Some [Some 300; Some 0; Some 0; Some 255]) None))
          22 0 0 = [255; 255; 255; 255].
Proof.
  exact (proj2 (proj2 (proj2 (proj2 (proj2
    (lock_cursor_uses_setting_colours
       (Some [Some 300; Some 0; Some 0; Some 255]) None 22 32 0 0
       ltac:(lia) ltac:(lia))))))).
Defined.

Lemma readRgba_clamps_witness :
  readRgba (Some [Some 300; None; Some (-4); Some 17]) [1; 2; 3; 4] !! 0%nat
  = Some 255.
Proof.
  destruct (readRgba_clamps_components [Some 300; None; Some (-4); Some 17]
              [1; 2; 3; 4] eq_refl eq_refl) as (_ & H & _).
  destruct (H 0%nat 300 eq_refl) as (_ & _ & _ & H255).
  apply H255. lia.
Defined.

Example readRgba_mixed :
  readRgba (Some [Some 300; None; Some (-4); Some 17]) [1; 2; 3; 4]
  = [255; 2; 0; 17]
  /\ readRgba (Some [Some 1; Some 2; Some 3]) [1; 2; 3; 4] = [1; 2; 3; 4]
  /\ readRgba None [1; 2; 3; 4] = [1; 2; 3; 4].
Proof. by vm_compute. Qed.

End CursorColorsFacts.
